(** * audial: the output validation and repair pipeline

    A shallow embedding of
      - [src/lib/parseOutput.ts]      (extractor, normalizer, unchanged test),
      - [src/lib/validateOutput.ts]   (content validator),
      - [src/lib/creativeDirectives.ts] (policy values, retry prompt),
      - [src/app/api/claude/route.ts] (generation orchestrator, the checks
        and the prompt of a request, and the route of the saved songs),
      - [handleGenerate] and [extractNameFromPrompt] of the chat panel (the
        caller of the routes),
    and the properties of the specification proved or refuted on it,
    followed by further properties of the code.

    JavaScript strings are sequences of UTF-16 code units; they are modelled
    as lists of [N].  Regular expressions are modelled by a small
    backtracking matcher that follows the ECMAScript semantics of the
    constructs the sources use.  JavaScript numbers are modelled exactly:
    a finite double is the rational it denotes. *)

From Stdlib Require Import List Bool Arith NArith ZArith QArith Lia String Ascii.
Import ListNotations.
Close Scope Q_scope.

Set Implicit Arguments.

(* ================================================================== *)
(** * JavaScript strings *)
(* ================================================================== *)

Module JsString.

Local Open Scope N_scope.

Definition cu := N.
Definition jsstring := list cu.

(** An ASCII literal as a JavaScript string. *)
Definition js (s : string) : jsstring :=
  List.map N_of_ascii (list_ascii_of_string s).

Definition DQ : cu := 34%N.       (* the double quote *)
Definition SQ : cu := 39%N.       (* the single quote *)
Definition BQ : cu := 96%N.       (* the backtick *)
Definition BSL : cu := 92%N.      (* the backslash *)
Definition LF : cu := 10%N.
Definition CR : cu := 13%N.
Definition TAB : cu := 9%N.

(** A literal in which [~] stands for the double quote and [|] for a line
    feed; used to write artifacts down. *)
Definition jsq (s : string) : jsstring :=
  List.map (fun c => if N.eqb c 126 then DQ else if N.eqb c 124 then LF else c)
           (js s).

Definition inRange (lo hi c : cu) : bool := (N.leb lo c && N.leb c hi)%bool.

(** WhiteSpace and LineTerminator of ECMAScript: what [String.prototype.trim]
    strips and what [\s] matches. *)
Definition isSpace (c : cu) : bool :=
  (inRange 9 13 c || N.eqb c 32 || N.eqb c 160 || N.eqb c 5760
   || inRange 8192 8202 c || N.eqb c 8232 || N.eqb c 8233 || N.eqb c 8239
   || N.eqb c 8287 || N.eqb c 12288 || N.eqb c 65279)%bool.

Definition isDigit (c : cu) : bool := inRange 48 57 c.
Definition isUpper (c : cu) : bool := inRange 65 90 c.
Definition isLower (c : cu) : bool := inRange 97 122 c.
Definition isWord (c : cu) : bool :=
  (isLower c || isUpper c || isDigit c || N.eqb c 95)%bool.
(** What [.] does not match. *)
Definition isLineTerminator (c : cu) : bool :=
  (N.eqb c 10 || N.eqb c 13 || N.eqb c 8232 || N.eqb c 8233)%bool.

Fixpoint eqs (a b : jsstring) : bool :=
  match a, b with
  | [], [] => true
  | x :: a', y :: b' => (N.eqb x y && eqs a' b')%bool
  | _, _ => false
  end.

Fixpoint startsWith (p s : jsstring) : bool :=
  match p, s with
  | [], _ => true
  | x :: p', y :: s' => (N.eqb x y && startsWith p' s')%bool
  | _ :: _, [] => false
  end.

Fixpoint includes (p s : jsstring) : bool :=
  (startsWith p s ||
   match s with
   | [] => false
   | _ :: s' => includes p s'
   end)%bool.

Fixpoint trimStart (s : jsstring) : jsstring :=
  match s with
  | c :: s' => if isSpace c then trimStart s' else s
  | [] => []
  end.

Definition trimEnd (s : jsstring) : jsstring := rev (trimStart (rev s)).

Definition trim (s : jsstring) : jsstring := trimEnd (trimStart s).

(** [s.split(LF)] *)
Fixpoint splitLF (s : jsstring) : list jsstring :=
  match s with
  | [] => [[]]
  | c :: s' =>
      if N.eqb c LF then [] :: splitLF s'
      else match splitLF s' with
           | l :: ls => (c :: l) :: ls
           | [] => [[c]]
           end
  end.

Fixpoint join (sep : jsstring) (l : list jsstring) : jsstring :=
  match l with
  | [] => []
  | [x] => x
  | x :: xs => x ++ sep ++ join sep xs
  end.

(** [s.substring(0, n)] *)
Definition substring0 (n : nat) (s : jsstring) : jsstring := firstn n s.

(** [String.prototype.toLowerCase] on the code units whose image can contain
    an ASCII character: the ASCII capitals, U+212A (KELVIN SIGN, to [k]) and
    U+0130 (to [i] followed by U+0307).  Every other code unit of 128 or more
    is mapped by JavaScript to code units of 128 or more, which no pattern
    applied to a lower-cased string in these sources can tell apart; they are
    left as they are. *)
Definition lowerCu (c : cu) : jsstring :=
  if isUpper c then [c + 32]
  else if N.eqb c 8490 then [107]
  else if N.eqb c 304 then [105; 775]
  else [c].

Definition toLowerCase (s : jsstring) : jsstring := flat_map lowerCu s.

Definition countCu (c : cu) (s : jsstring) : nat :=
  List.length (filter (N.eqb c) s).

End JsString.
Import JsString.

(* ================================================================== *)
(** * Regular expressions *)
(* ================================================================== *)

Module Regex.

(** The constructs of the patterns in the sources. *)
Inductive re : Type :=
| Eps                                   (* the empty pattern *)
| Cls (p : cu -> bool)                  (* one code unit in a class *)
| Cat (a b : re)                        (* ab *)
| Alt (a b : re)                        (* a|b *)
| Star (greedy : bool) (a : re)         (* a* and a*? *)
| Group (n : nat) (a : re)              (* the n-th capturing group *)
| Backref (n : nat)                     (* \n *)
| NotAhead (a : re)                     (* (?!a) *)
| WordB                                 (* \b *)
| Eoi.                                  (* $ without the m flag *)

Record mstate := MState {
  prev : option cu;                     (* the code unit before the position *)
  rest : jsstring;                      (* the input from the position on *)
  caps : list (nat * jsstring)          (* the captures so far, newest first *)
}.

Fixpoint lookupCap (n : nat) (l : list (nat * jsstring)) : option jsstring :=
  match l with
  | [] => None
  | (m, t) :: l' => if Nat.eqb n m then Some t else lookupCap n l'
  end.

Definition isWordOpt (o : option cu) : bool :=
  match o with Some c => isWord c | None => false end.

Definition lastOr (d : option cu) (t : jsstring) : option cu :=
  match rev t with c :: _ => Some c | [] => d end.

(** The backtracking matcher, in continuation-passing style: [run r k s]
    matches [r] at the position of [s] and hands every way of doing so to
    [k], in the priority order of ECMAScript, until [k] accepts one.  An
    iteration of a star that consumes nothing is refused, as RepeatMatcher
    does. *)
Fixpoint run (r : re) (k : mstate -> option mstate) (s : mstate)
  : option mstate :=
  match r with
  | Eps => k s
  | Cls p =>
      match rest s with
      | c :: t => if p c then k (MState (Some c) t (caps s)) else None
      | [] => None
      end
  | Cat a b => run a (run b k) s
  | Alt a b =>
      match run a k s with
      | Some x => Some x
      | None => run b k s
      end
  | Star g a =>
      (fix loop (fuel : nat) (s : mstate) {struct fuel} : option mstate :=
         match fuel with
         | O => k s
         | S fuel' =>
             let next := fun s' =>
               if Nat.ltb (List.length (rest s')) (List.length (rest s))
               then loop fuel' s' else None in
             if g then
               match run a next s with Some x => Some x | None => k s end
             else
               match k s with Some x => Some x | None => run a next s end
         end) (S (List.length (rest s))) s
  | Group n a =>
      run a (fun s' =>
               let t := firstn (List.length (rest s) - List.length (rest s'))
                               (rest s) in
               k (MState (prev s') (rest s') ((n, t) :: caps s'))) s
  | Backref n =>
      match lookupCap n (caps s) with
      | Some t =>
          if startsWith t (rest s)
          then k (MState (lastOr (prev s) t) (skipn (List.length t) (rest s))
                         (caps s))
          else None
      | None => k s
      end
  | NotAhead a =>
      match run a (fun x => Some x) s with
      | Some _ => None
      | None => k s
      end
  | WordB =>
      if xorb (isWordOpt (prev s)) (isWordOpt (hd_error (rest s)))
      then k s else None
  | Eoi => match rest s with [] => k s | _ :: _ => None end
  end.

(** One match: its text and its captures. *)
Record rmatch := RMatch { mtext : jsstring; mcaps : list (nat * jsstring) }.

Definition group (n : nat) (m : rmatch) : option jsstring :=
  lookupCap n (mcaps m).

(** Matching at one position. *)
Definition execAt (r : re) (p : option cu) (s : jsstring) : option rmatch :=
  match run r (fun x => Some x) (MState p s []) with
  | Some f => Some (RMatch (firstn (List.length s - List.length (rest f)) s)
                           (caps f))
  | None => None
  end.

(** [r.test(s)] for a pattern without the g flag. *)
Fixpoint testFrom (r : re) (p : option cu) (s : jsstring) : bool :=
  match execAt r p s with
  | Some _ => true
  | None =>
      match s with
      | [] => false
      | c :: t => testFrom r (Some c) t
      end
  end.

Definition test (r : re) (s : jsstring) : bool := testFrom r None s.

(** A pass of a pattern with the g flag over a string: the matches, left to
    right and without overlap, and the code units between them.  [skip] is
    the number of code units still covered by the last match. *)
Inductive piece := Unmatched (c : cu) | Matched (m : rmatch).

Fixpoint scan (r : re) (p : option cu) (skip : nat) (s : jsstring)
  : list piece :=
  match s with
  | [] =>
      match skip with
      | O => match execAt r p [] with
             | Some m => [Matched m]
             | None => []
             end
      | S _ => []
      end
  | c :: t =>
      match skip with
      | S n => scan r (Some c) n t
      | O =>
          match execAt r p s with
          | Some m =>
              Matched m ::
              match List.length (mtext m) with
              | O => Unmatched c :: scan r (Some c) 0 t
              | S n => scan r (Some c) n t
              end
          | None => Unmatched c :: scan r (Some c) 0 t
          end
      end
  end.

Fixpoint matchesOf (l : list piece) : list rmatch :=
  match l with
  | [] => []
  | Unmatched _ :: l' => matchesOf l'
  | Matched m :: l' => m :: matchesOf l'
  end.

(** [Array.from(s.matchAll(r))] *)
Definition matchAll (r : re) (s : jsstring) : list rmatch :=
  matchesOf (scan r None 0 s).

(** [s.match(r) || []] for a pattern with the g flag. *)
Definition matchG (r : re) (s : jsstring) : list jsstring :=
  List.map mtext (matchAll r s).

(** [s.replace(r, f)] for a pattern with the g flag and a replacer
    function (a replacement string is a constant replacer). *)
Definition replaceG (r : re) (f : rmatch -> jsstring) (s : jsstring)
  : jsstring :=
  flat_map (fun x => match x with
                     | Unmatched c => [c]
                     | Matched m => f m
                     end) (scan r None 0 s).

(** [s.replace(r, f)] for a pattern without the g flag: the first match
    only. *)
Fixpoint replaceFirstFrom (r : re) (p : option cu) (f : rmatch -> jsstring)
  (s : jsstring) : jsstring :=
  match execAt r p s with
  | Some m => f m ++ skipn (List.length (mtext m)) s
  | None =>
      match s with
      | [] => []
      | c :: t => c :: replaceFirstFrom r (Some c) f t
      end
  end.

Definition replaceFirst (r : re) (f : rmatch -> jsstring) (s : jsstring)
  : jsstring := replaceFirstFrom r None f s.

(** ** Pattern combinators *)

Definition chr (c : cu) : re := Cls (N.eqb c).

(** A letter under the i flag.  Canonicalize never maps a code unit of 128
    or more to an ASCII one, so an ASCII letter of a pattern matches its two
    ASCII cases only. *)
Definition chrI (c : cu) : re :=
  Cls (fun x => (N.eqb x c
                 || (isLower c && N.eqb x (c - 32)%N)
                 || (isUpper c && N.eqb x (c + 32)%N))%bool).

Fixpoint lit (s : jsstring) : re :=
  match s with
  | [] => Eps
  | [c] => chr c
  | c :: t => Cat (chr c) (lit t)
  end.

Fixpoint litI (s : jsstring) : re :=
  match s with
  | [] => Eps
  | [c] => chrI c
  | c :: t => Cat (chrI c) (litI t)
  end.

Definition str (s : string) : re := lit (js s).
Definition strI (s : string) : re := litI (js s).

Definition star (a : re) : re := Star true a.
Definition lazyStar (a : re) : re := Star false a.
Definition plus (a : re) : re := Cat a (Star true a).
Definition opt (a : re) : re := Alt a Eps.

Definition anyOf (l : jsstring) : re :=
  Cls (fun x => existsb (N.eqb x) l).
Definition noneOf (l : jsstring) : re :=
  Cls (fun x => negb (existsb (N.eqb x) l)).

Definition space : re := Cls isSpace.                       (* \s *)
Definition digit : re := Cls isDigit.                       (* \d *)
Definition word : re := Cls isWord.                         (* \w *)
Definition dot : re := Cls (fun x => negb (isLineTerminator x)). (* . *)
Definition anything : re := Cls (fun _ => true).            (* [\s\S] *)

Fixpoint cat (l : list re) : re :=
  match l with
  | [] => Eps
  | [a] => a
  | a :: l' => Cat a (cat l')
  end.

Fixpoint alt (l : list re) : re :=
  match l with
  | [] => Eps
  | [a] => a
  | a :: l' => Alt a (alt l')
  end.

End Regex.
Import Regex.

(* ================================================================== *)
(** * JavaScript numbers *)
(* ================================================================== *)

Module JsNumber.

Local Open Scope Z_scope.

(** A Number: a finite double is the rational it denotes (the two zeros
    are not told apart: no operation used here does). *)
Inductive jsnum := NaN | Fin (q : Q) | PosInf | NegInf.

Definition ofNat (n : nat) : jsnum := Fin (inject_Z (Z.of_nat n)).
Definition ofZ (z : Z) : jsnum := Fin (inject_Z z).

(** [a > b] *)
Definition gt (a b : jsnum) : bool :=
  match a, b with
  | NaN, _ | _, NaN => false
  | PosInf, PosInf => false
  | PosInf, _ => true
  | _, PosInf => false
  | NegInf, _ => false
  | Fin _, NegInf => true
  | Fin x, Fin y => negb (Qle_bool x y)
  end.

(** [a < b] *)
Definition lt (a b : jsnum) : bool := gt b a.

(** ** Rounding a real to the nearest double, ties to even *)

Definition pow2Q (e : Z) (m : Z) : Q :=
  if 0 <=? e then inject_Z (m * 2 ^ e)
  else Qmake m (Z.to_pos (2 ^ (- e))).

Definition divHalfEven (n d : Z) : Z :=
  let q := n / d in
  let r := n mod d in
  match 2 * r ?= d with
  | Lt => q
  | Gt => q + 1
  | Eq => if Z.even q then q else q + 1
  end.

(** The double nearest to [n/d], for [n] and [d] positive. *)
Definition roundPos (n d : Z) : jsnum :=
  let e1 := Z.log2 n - Z.log2 d - 53 in
  let big :=
    if 0 <=? e1 then 2 ^ 53 * (d * 2 ^ e1) <=? n
    else 2 ^ 53 * d <=? n * 2 ^ (- e1) in
  let e := Z.max (if big then e1 + 1 else e1) (-1074) in
  let m := if 0 <=? e then divHalfEven n (d * 2 ^ e)
           else divHalfEven (n * 2 ^ (- e)) d in
  if (971 <? e) || ((e =? 971) && (2 ^ 53 <=? m)) then PosInf
  else Fin (pow2Q e m).

Definition round64 (q : Q) : jsnum :=
  match Qnum q with
  | Z0 => Fin 0%Q
  | Zpos n => roundPos (Zpos n) (Zpos (Qden q))
  | Zneg n =>
      match roundPos (Zpos n) (Zpos (Qden q)) with
      | Fin x => Fin (Qopp x)
      | PosInf => NegInf
      | y => y
      end
  end.

(** ** [parseFloat] *)

Definition digitVal (c : cu) : Z := Z.of_N c - 48.

(** The digits at the head of a string, as a number, with their count and
    what follows. *)
Fixpoint readDigits (acc : Z) (cnt : nat) (s : jsstring)
  : Z * nat * jsstring :=
  match s with
  | c :: t =>
      if isDigit c then readDigits (10 * acc + digitVal c) (S cnt) t
      else (acc, cnt, s)
  | [] => (acc, cnt, s)
  end.

(** The exponent part [e], [e+] or [e-] followed by digits; 0 when there is
    none. *)
Definition readExponent (s : jsstring) : Z :=
  match s with
  | c :: t =>
      if (N.eqb c 101 || N.eqb c 69)%bool then
        match t with
        | sg :: t' =>
            if N.eqb sg 43 then
              let '(v, n, _) := readDigits 0 0 t' in v
            else if N.eqb sg 45 then
              let '(v, n, _) := readDigits 0 0 t' in - v
            else let '(v, n, _) := readDigits 0 0 t in v
        | [] => 0
        end
      else 0
  | [] => 0
  end.

(** The longest prefix that is an unsigned StrDecimalLiteral, as a real:
    mantissa and power of ten; [None] when there is no such prefix. *)
Definition readDecimal (s : jsstring) : option (Z * Z) :=
  let '(ip, ni, s1) := readDigits 0 0 s in
  match s1 with
  | c :: s2 =>
      if N.eqb c 46 then
        let '(fp, nf, s3) := readDigits ip 0 s2 in
        match ni, nf with
        | O, O => None
        | _, _ => Some (fp, readExponent s3 - Z.of_nat nf)
        end
      else match ni with
           | O => None
           | _ => Some (ip, readExponent s1)
           end
  | [] => match ni with O => None | _ => Some (ip, 0) end
  end.

Definition decimalValue (m e : Z) : jsnum :=
  if 0 <=? e then round64 (inject_Z (m * 10 ^ e))
  else round64 (Qmake m (Z.to_pos (10 ^ (- e)))).

Definition readUnsigned (s : jsstring) : jsnum :=
  if startsWith (js "Infinity") s then PosInf
  else match readDecimal s with
       | Some (m, e) => decimalValue m e
       | None => NaN
       end.

Definition neg (x : jsnum) : jsnum :=
  match x with
  | NaN => NaN
  | Fin q => Fin (Qopp q)
  | PosInf => NegInf
  | NegInf => PosInf
  end.

Definition parseFloat (s : jsstring) : jsnum :=
  match trimStart s with
  | c :: t =>
      if N.eqb c 45 then neg (readUnsigned t)
      else if N.eqb c 43 then readUnsigned t
      else readUnsigned (c :: t)
  | [] => NaN
  end.

(** [parseInt(s)] without a radix, on a string that does not start with
    [0x]: the decimal digits at the head, after white space and a sign. *)
Definition parseInt (s : jsstring) : jsnum :=
  let body (t : jsstring) :=
    let '(v, n, _) := readDigits 0 0 t in
    match n with
    | O => NaN
    | _ => round64 (inject_Z v)
    end in
  match trimStart s with
  | c :: t =>
      if N.eqb c 45 then neg (body t)
      else if N.eqb c 43 then body t
      else body (c :: t)
  | [] => NaN
  end.

(** ** [Number.prototype.toString] *)

Fixpoint digitsOfFuel (fuel : nat) (z : Z) (acc : jsstring) : jsstring :=
  match fuel with
  | O => acc
  | S f =>
      let acc' := Z.to_N (z mod 10 + 48) :: acc in
      if z <? 10 then acc' else digitsOfFuel f (z / 10) acc'
  end.

(** The decimal digits of a natural number. *)
Definition digitsOf (z : Z) : jsstring :=
  digitsOfFuel (S (Z.to_nat (Z.log2 z))) z [].

Definition sameDouble (a b : jsnum) : bool :=
  match a, b with
  | Fin x, Fin y => Qeq_bool x y
  | _, _ => false
  end.

(** [10^(n-1) <= x < 10^n] for the positive rational [x = p/q]. *)
Definition decimalExponent (p q : Z) : Z :=
  let d := Z.of_nat (List.length (digitsOf p))
           - Z.of_nat (List.length (digitsOf q)) in
  let below :=                         (* p/q < 10^d *)
    if 0 <=? d then p <? q * 10 ^ d else p * 10 ^ (- d) <? q in
  if below then d else d + 1.

(** The candidates with [k] digits around [p/q]: [floor] and [ceil] of
    [p/q / 10^(n-k)], each with its exponent. *)
Definition candidates (p q n : Z) (k : Z) : list (Z * Z) :=
  let sh := n - k in
  let num := if 0 <=? sh then p else p * 10 ^ (- sh) in
  let den := if 0 <=? sh then q * 10 ^ sh else q in
  let lo := num / den in
  let hi := if num mod den =? 0 then lo else lo + 1 in
  let fix_ (s : Z) := if s =? 10 ^ k then (10 ^ (k - 1), n + 1) else (s, n) in
  (* the nearer of the two first; the even one when they are as near *)
  match 2 * (num mod den) ?= den with
  | Lt => [fix_ lo; fix_ hi]
  | Gt => [fix_ hi; fix_ lo]
  | Eq => if Z.even lo then [fix_ lo; fix_ hi] else [fix_ hi; fix_ lo]
  end.

Definition candidateValue (c : Z * Z) (k : Z) : jsnum :=
  let '(s, n) := c in decimalValue s (n - k).

Fixpoint shortest (fuel : nat) (k : Z) (x : jsnum) (p q n : Z) : Z * Z * Z :=
  match fuel with
  | O => (p, n, k)
  | S f =>
      match filter (fun c => sameDouble (candidateValue c k) x)
                   (candidates p q n k) with
      | (s, n') :: _ => (s, n', k)
      | [] => shortest f (k + 1) x p q n
      end
  end.

Definition zeros (n : Z) : jsstring := repeat 48%N (Z.to_nat n).

Definition formatPos (s n k : Z) : jsstring :=
  let ds := digitsOf s in
  if (k <=? n) && (n <=? 21) then ds ++ zeros (n - k)
  else if (0 <? n) && (n <=? 21) then
    firstn (Z.to_nat n) ds ++ [46%N] ++ skipn (Z.to_nat n) ds
  else if (-6 <? n) && (n <=? 0) then
    [48%N; 46%N] ++ zeros (- n) ++ ds
  else
    let ex := (if 0 <=? n - 1 then [43%N] else [45%N])
              ++ digitsOf (Z.abs (n - 1)) in
    match ds with
    | [d] => [d; 101%N] ++ ex
    | d :: more => [d; 46%N] ++ more ++ [101%N] ++ ex
    | [] => []
    end.

Definition toStringPos (q : Q) : jsstring :=
  let p := Qnum q in
  let d := Zpos (Qden q) in
  let n := decimalExponent p d in
  let '(s, n', k) := shortest 21 1 (Fin q) p d n in
  formatPos s n' k.

(** [String(x)] *)
Definition toString (x : jsnum) : jsstring :=
  match x with
  | NaN => js "NaN"
  | PosInf => js "Infinity"
  | NegInf => js "-Infinity"
  | Fin q =>
      match Qnum q with
      | Z0 => js "0"
      | Zpos _ => toStringPos q
      | Zneg _ => 45%N :: toStringPos (Qopp q)
      end
  end.

End JsNumber.
Import JsNumber.

(* ================================================================== *)
(** * The content validator: [src/lib/validateOutput.ts] *)
(* ================================================================== *)

Module ValidateOutput.

Record ValidationResult := {
  valid : bool;
  issues : list jsstring
}.

Record ValidationConfig := {
  maxVoices : jsnum;
  maxLines : jsnum;
  maxRandomUsage : jsnum;
  maxEffectsPerVoice : jsnum;
  requireSetcpm : bool;
  rejectLocalhost : bool;
  maxDelayFeedback : jsnum;
  maxRoomSize : jsnum
}.

(** [Partial<ValidationConfig>]: [None] is an absent property. *)
Record PartialConfig := {
  maxVoices' : option jsnum;
  maxLines' : option jsnum;
  maxRandomUsage' : option jsnum;
  maxEffectsPerVoice' : option jsnum;
  requireSetcpm' : option bool;
  rejectLocalhost' : option bool;
  maxDelayFeedback' : option jsnum;
  maxRoomSize' : option jsnum
}.

Definition noOverrides : PartialConfig :=
  Build_PartialConfig None None None None None None None None.

Definition DEFAULT_CONFIG : ValidationConfig := {|
  maxVoices := ofZ 8;
  maxLines := ofZ 250;
  maxRandomUsage := ofZ 15;
  maxEffectsPerVoice := ofZ 8;
  requireSetcpm := true;
  rejectLocalhost := true;
  maxDelayFeedback := parseFloat (js "0.7");
  maxRoomSize := parseFloat (js "0.95")
|}.

Definition orElse {A} (o : option A) (d : A) : A :=
  match o with Some x => x | None => d end.

(** [{ ...base, ...over }] *)
Definition merge (base : ValidationConfig) (over : PartialConfig)
  : ValidationConfig := {|
  maxVoices := orElse (maxVoices' over) (maxVoices base);
  maxLines := orElse (maxLines' over) (maxLines base);
  maxRandomUsage := orElse (maxRandomUsage' over) (maxRandomUsage base);
  maxEffectsPerVoice :=
    orElse (maxEffectsPerVoice' over) (maxEffectsPerVoice base);
  requireSetcpm := orElse (requireSetcpm' over) (requireSetcpm base);
  rejectLocalhost := orElse (rejectLocalhost' over) (rejectLocalhost base);
  maxDelayFeedback := orElse (maxDelayFeedback' over) (maxDelayFeedback base);
  maxRoomSize := orElse (maxRoomSize' over) (maxRoomSize base)
|}.

(** ** The patterns

    In the comments DQ stands for the double quote character. *)

Definition LPAR : cu := 40%N.
Definition RPAR : cu := 41%N.
Definition quotes3 : jsstring := [DQ; SQ; BQ].

(* /\$:/g *)
Definition reVoice : re := str "$:".
(* /setcpm\s*\(/i *)
Definition reSetcpm : re := cat [strI "setcpm"; star space; chr LPAR].
(* /samples?\s*\(\s*['DQ`]https?:\/\/localhost/i *)
Definition reLocalhostSamples : re :=
  cat [strI "sample"; opt (chrI 115%N); star space; chr LPAR; star space;
       anyOf [SQ; DQ; BQ]; strI "http"; opt (chrI 115%N); str "://";
       strI "localhost"].
(* /samples?\s*\(\s*['DQ`]https?:\/\//i *)
Definition reRemoteSamples : re :=
  cat [strI "sample"; opt (chrI 115%N); star space; chr LPAR; star space;
       anyOf [SQ; DQ; BQ]; strI "http"; opt (chrI 115%N); str "://"].
(* /await\s+samples?\s*\(/i *)
Definition reAwaitSamples : re :=
  cat [strI "await"; plus space; strI "sample"; opt (chrI 115%N); star space;
       chr LPAR].
(* /\/\/.*$/ *)
Definition reLineComment : re := cat [str "//"; star dot; Eoi].
(* /\.\s*note\s*\(/ and its two siblings *)
Definition reDotMethod (name : string) : re :=
  cat [str "."; star space; str name; star space; chr LPAR].
(* /([DQ'])(?:\\.|(?!\1).)*\1\s*\.\s*[a-zA-Z_]\w*\s*\(/ *)
Definition reStringMethod : re :=
  cat [Group 1 (anyOf [DQ; SQ]);
       star (Alt (Cat (chr BSL) dot) (Cat (NotAhead (Backref 1)) dot));
       Backref 1; star space; str "."; star space;
       Cls (fun c => (isLower c || isUpper c || N.eqb c 95)%bool);
       star word; star space; chr LPAR].
(* /\b(rand|irand)\s*\(/g *)
Definition reRand : re :=
  cat [WordB; Group 1 (Alt (str "rand") (str "irand")); star space; chr LPAR].
(* /\bperlin\b/g *)
Definition rePerlin : re := cat [WordB; str "perlin"; WordB].
(* /\.(sometimesBy|sometimes|rarely|almostNever|almostAlways|choose|chooseCycles)\s*\(/g *)
Definition reProb : re :=
  cat [str ".";
       Group 1 (alt [str "sometimesBy"; str "sometimes"; str "rarely";
                     str "almostNever"; str "almostAlways"; str "choose";
                     str "chooseCycles"]);
       star space; chr LPAR].
(* [\d.] *)
Definition digitOrDot : re := Cls (fun c => (isDigit c || N.eqb c 46)%bool).
(* /\.room\s*\(\s*/ and its siblings *)
Definition reCallHead (name : string) : re :=
  cat [str "."; str name; star space; chr LPAR; star space].
(* /\.room\s*\(\s*([\d.]+)/g and its siblings *)
Definition reNumCall (name : string) : re :=
  Cat (reCallHead name) (Group 1 (plus digitOrDot)).
(* /\.fast\s*\(\s*(\d+)/g *)
Definition reFast : re := Cat (reCallHead "fast") (Group 1 (plus digit)).
(* /note\s*\(\s*DQ[^DQ]*DQ/g *)
Definition reNoteLiteral : re :=
  cat [str "note"; star space; chr LPAR; star space; chr DQ;
       star (noneOf [DQ]); chr DQ].
(* /[a-g][#b]?[9]/ *)
Definition reHighNote : re :=
  cat [Cls (inRange 97%N 103%N); opt (anyOf [35%N; 98%N]); chr 57%N].
(* /[DQ'`][^DQ'`]*[DQ'`]/g *)
Definition reStringContents : re :=
  cat [anyOf quotes3; star (noneOf quotes3); anyOf quotes3].

(** ** The checks *)

(* count voice assignments ($: patterns) *)
Definition countVoices (code : jsstring) : nat :=
  List.length (matchG reVoice code).

(* count non-empty, non-comment lines *)
Definition countLines (code : jsstring) : nat :=
  List.length
    (filter (fun line =>
               let trimmed := trim line in
               (Nat.ltb 0 (List.length trimmed)
                && negb (startsWith (js "//") trimmed))%bool)
            (splitLF code)).

Definition hasSetcpm (code : jsstring) : bool := test reSetcpm code.

Definition hasForbiddenSamples (code : jsstring) : bool :=
  if test reLocalhostSamples code then true
  else if test reRemoteSamples code then true
  else if test reAwaitSamples code then true
  else false.

Definition push (l : list jsstring) (x : jsstring) : list jsstring :=
  l ++ [x].

Definition findInvalidMethodUsage (code : jsstring) : list jsstring :=
  let issues : list jsstring := [] in
  let codeWithoutComments :=
    join [LF] (List.map (replaceFirst reLineComment (fun _ => []))
                        (splitLF code)) in
  let issues :=
    if test (reDotMethod "note") codeWithoutComments
    then push issues
           (js "invalid method .note(...) - use note(...) or .detune(...) instead")
    else issues in
  let issues :=
    if test (reDotMethod "resonance") codeWithoutComments
    then push issues
           (js "invalid method .resonance(...) - use .lpq(...) instead")
    else issues in
  let issues :=
    if test (reDotMethod "euclidean") codeWithoutComments
    then push issues
           (js "invalid method .euclidean(...) - not available in this build")
    else issues in
  let issues :=
    if test reStringMethod codeWithoutComments
    then push issues
           (js "string literal method call detected - apply transforms to patterns, not strings")
    else issues in
  issues.

Definition countRandomUsage (code : jsstring) : nat :=
  let count := 0%nat in
  let count := (count + List.length (matchG reRand code))%nat in
  let count := (count + List.length (matchG rePerlin code))%nat in
  let count := (count + List.length (matchG reProb code))%nat in
  count.

(** The values of the calls of one effect: each match with its head
    removed, through [parseFloat]. *)
Definition callValues (name : string) (code : jsstring) : list jsnum :=
  List.map (fun m => parseFloat (replaceFirst (reCallHead name)
                                              (fun _ => []) m))
           (matchG (reNumCall name) code).

Definition hasExtremeEffects (code : jsstring) (config : ValidationConfig)
  : bool :=
  if existsb (fun value => gt value (maxDelayFeedback config))
             (callValues "delayfeedback" code) then true
  else if existsb (fun value => gt value (maxRoomSize config))
                  (callValues "room" code) then true
  else if existsb (fun value => gt value (ofZ 2))
                  (callValues "gain" code) then true
  else false.

Definition showNat (n : nat) : jsstring := toString (ofNat n).

Definition getSyntaxIssue (code : jsstring) : option jsstring :=
  let openParens := List.length (matchG (str "(") code) in
  let closeParens := List.length (matchG (str ")") code) in
  if negb (Nat.eqb openParens closeParens) then
    Some (js "unbalanced parentheses: " ++ showNat openParens
          ++ js " opening '(' vs " ++ showNat closeParens
          ++ js " closing ')'")
  else
  let openBrackets := List.length (matchG (str "[") code) in
  let closeBrackets := List.length (matchG (str "]") code) in
  if negb (Nat.eqb openBrackets closeBrackets) then
    Some (js "unbalanced brackets: " ++ showNat openBrackets
          ++ js " opening '[' vs " ++ showNat closeBrackets
          ++ js " closing ']'")
  else
  let openBraces := List.length (matchG (str "{") code) in
  let closeBraces := List.length (matchG (str "}") code) in
  if negb (Nat.eqb openBraces closeBraces) then
    Some (js "unbalanced braces: " ++ showNat openBraces
          ++ js " opening '{' vs " ++ showNat closeBraces
          ++ js " closing '}'")
  else
  let stringContents := matchG reStringContents code in
  (fix loop (l : list jsstring) : option jsstring :=
     match l with
     | [] => None
     | str_ :: l' =>
         let openAngles := List.length (matchG (str "<") str_) in
         let closeAngles := List.length (matchG (str ">") str_) in
         if negb (Nat.eqb openAngles closeAngles) then
           Some (js "unbalanced mini-notation: " ++ showNat openAngles
                 ++ js " opening '<' vs " ++ showNat closeAngles
                 ++ js " closing '>' in pattern")
         else loop l'
     end) stringContents.

Definition effectMethods : list string :=
  [".lpf"; ".hpf"; ".bpf";
   ".delay"; ".delaytime"; ".delayfeedback";
   ".room"; ".size"; ".dry";
   ".crush"; ".coarse";
   ".shape"; ".distort";
   ".vowel"; ".hcutoff"; ".hresonance";
   ".cutoff"; ".resonance";
   ".pan"; ".speed"]%string.

(** [new RegExp(B + effect.replace(D, BD), G)] where the string literals
    are B = one backslash, D = one dot, BD = backslash dot: the replacement
    turns [.lpf] into the four characters backslash, dot, [lpf]; the
    concatenation puts one more backslash in front.  As a pattern source
    that reads: an escaped backslash, then [.] (any code unit but a line
    terminator), then the letters. *)
Definition reEffect (effect : string) : re :=
  cat [chr BSL; dot; lit (tl (js effect))].

Definition effectCount (line : jsstring) : nat :=
  fold_left (fun effectCount effect =>
               (effectCount + List.length (matchG (reEffect effect) line))%nat)
            effectMethods 0%nat.

Definition checkEffectsDensity (code : jsstring) (config : ValidationConfig)
  : bool :=
  existsb (fun line =>
             if includes (js "$:") line
             then gt (ofNat (effectCount line)) (maxEffectsPerVoice config)
             else false)
          (splitLF code).

Definition hasDangerousPatterns (code : jsstring) : option jsstring :=
  if existsb (fun m =>
                gt (parseInt (replaceFirst (reCallHead "fast") (fun _ => []) m))
                   (ofZ 64))
             (matchG reFast code)
  then Some (js "extremely fast pattern detected (>64x) - may cause audio glitches")
  else if existsb (fun m => test reHighNote (toLowerCase m))
                  (matchG reNoteLiteral code)
  then Some (js "extremely high note values detected - may cause issues")
  else None.

Definition validateStrudelCode (code : jsstring) (config : PartialConfig)
  : ValidationResult :=
  let cfg := merge DEFAULT_CONFIG config in
  let issues : list jsstring := [] in
  (* check voice count *)
  let voiceCount := countVoices code in
  let issues :=
    if gt (ofNat voiceCount) (maxVoices cfg)
    then push issues
           (js "too many voices (" ++ showNat voiceCount ++ js "/"
            ++ toString (maxVoices cfg)
            ++ js " max) - simplify to fewer tracks")
    else issues in
  (* check line count *)
  let lineCount := countLines code in
  let issues :=
    if gt (ofNat lineCount) (maxLines cfg)
    then push issues
           (js "code too long (" ++ showNat lineCount ++ js "/"
            ++ toString (maxLines cfg) ++ js " lines max) - simplify")
    else issues in
  (* must have at least some code *)
  let issues :=
    if Nat.ltb lineCount 5
    then push issues (js "code too short - add more content")
    else issues in
  (* check setcpm *)
  let issues :=
    if (requireSetcpm cfg && negb (hasSetcpm code))%bool
    then push issues (js "missing setcpm() - set tempo at the start")
    else issues in
  (* check forbidden samples *)
  let issues :=
    if (rejectLocalhost cfg && hasForbiddenSamples code)%bool
    then push issues
           (js "uses external/localhost samples - only use built-in samples")
    else issues in
  (* check randomness *)
  let randomUsage := countRandomUsage code in
  let issues :=
    if gt (ofNat randomUsage) (maxRandomUsage cfg)
    then push issues
           (js "excessive randomness (" ++ showNat randomUsage ++ js "/"
            ++ toString (maxRandomUsage cfg)
            ++ js " max) - reduce variation techniques")
    else issues in
  (* check for extreme effects *)
  let issues :=
    if hasExtremeEffects code cfg
    then push issues
           (js "extreme effect values detected - reduce delay feedback (max "
            ++ toString (maxDelayFeedback cfg) ++ js "), reverb (max "
            ++ toString (maxRoomSize cfg) ++ js "), or gain (max 2.0)")
    else issues in
  (* check for syntax issues *)
  let issues :=
    match getSyntaxIssue code with
    | Some syntaxIssue =>
        if negb (Nat.eqb (List.length syntaxIssue) 0)
        then push issues syntaxIssue else issues
    | None => issues
    end in
  (* check for invalid method usage *)
  let issues := issues ++ findInvalidMethodUsage code in
  (* check effects density *)
  let issues :=
    if checkEffectsDensity code cfg
    then push issues
           (js "too many effects on a single voice (max "
            ++ toString (maxEffectsPerVoice cfg)
            ++ js ") - simplify effect chains")
    else issues in
  (* check for dangerous patterns *)
  let issues :=
    match hasDangerousPatterns code with
    | Some dangerousPattern =>
        if negb (Nat.eqb (List.length dangerousPattern) 0)
        then push issues dangerousPattern else issues
    | None => issues
    end in
  {| valid := Nat.eqb (List.length issues) 0; issues := issues |}.

End ValidateOutput.

(* ================================================================== *)
(** * The extractor and the normalizer: [src/lib/parseOutput.ts] *)
(* ================================================================== *)

Module ParseOutput.

Record ParseResult := {
  success : bool;
  code : option jsstring;             (* [None] is null *)
  error : option jsstring;            (* [None] is null *)
  rawResponse : option jsstring       (* [None] is an absent property *)
}.

(* /```(?:javascript|js|strudel)?\n?([\s\S]*?)```/g *)
Definition codeBlockRegex : re :=
  cat [str "```"; opt (alt [str "javascript"; str "js"; str "strudel"]);
       opt (chr LF); Group 1 (lazyStar anything); str "```"].

(** The first line that is neither empty nor a comment, trimmed; empty
    when there is none. *)
Fixpoint firstCodeLineOf (lines : list jsstring) : jsstring :=
  match lines with
  | [] => []
  | line :: lines' =>
      let trimmed := trim line in
      if (negb (Nat.eqb (List.length trimmed) 0)
          && negb (startsWith (js "//") trimmed))%bool
      then trimmed
      else firstCodeLineOf lines'
  end.

Record ContentCheck := {
  contentValid : bool;
  contentError : option jsstring
}.

Definition showNat (n : nat) : jsstring := toString (ofNat n).

(* validate the code content meets requirements *)
Definition validateCodeContent (code : jsstring) : ContentCheck :=
  let lines := splitLF code in
  let firstCodeLine := firstCodeLineOf lines in
  if Nat.eqb (List.length firstCodeLine) 0 then
    Build_ContentCheck false
      (Some (js "code contains no executable statements"))
  else if (negb (startsWith (js "setcpm(") firstCodeLine)
           && negb (startsWith (js "setcpm (") firstCodeLine))%bool then
    Build_ContentCheck false
      (Some (js "code must start with setcpm(...), found: "
             ++ substring0 30 firstCodeLine ++ js "..."))
  else if negb (test (str "$:") code) then
    Build_ContentCheck false
      (Some (js "code must contain at least one voice assignment ($:)"))
  else
  let openParens := List.length (matchG (str "(") code) in
  let closeParens := List.length (matchG (str ")") code) in
  if negb (Nat.eqb openParens closeParens) then
    Build_ContentCheck false
      (Some (js "unbalanced parentheses: " ++ showNat openParens
             ++ js " open, " ++ showNat closeParens ++ js " close"))
  else
  let openBrackets := List.length (matchG (str "[") code) in
  let closeBrackets := List.length (matchG (str "]") code) in
  if negb (Nat.eqb openBrackets closeBrackets) then
    Build_ContentCheck false
      (Some (js "unbalanced brackets: " ++ showNat openBrackets
             ++ js " open, " ++ showNat closeBrackets ++ js " close"))
  else
  let openBraces := List.length (matchG (str "{") code) in
  let closeBraces := List.length (matchG (str "}") code) in
  if negb (Nat.eqb openBraces closeBraces) then
    Build_ContentCheck false
      (Some (js "unbalanced braces: " ++ showNat openBraces
             ++ js " open, " ++ showNat closeBraces ++ js " close"))
  else Build_ContentCheck true None.

(** The five markers of [looksLikeStrudelCode]:
    /setcpm\s*\(/i, /\$:/, /note\s*\(/, /s\s*\(/, /\.gain\s*\(/ *)
Definition markerPatterns : list re :=
  [ cat [strI "setcpm"; star space; chr 40%N];
    str "$:";
    cat [str "note"; star space; chr 40%N];
    cat [str "s"; star space; chr 40%N];
    cat [str ".gain"; star space; chr 40%N] ].

(* check if text looks like strudel code *)
Definition looksLikeStrudelCode (text : jsstring) : bool :=
  let matches :=
    fold_left (fun matches pattern =>
                 if test pattern text then S matches else matches)
              markerPatterns 0%nat in
  Nat.leb 2 matches.

(* clean up code (remove escaped quotes, etc.) *)
Definition cleanCode (code : jsstring) : jsstring :=
  let cleaned := code in
  (* /\\DQ/g *)
  let cleaned := replaceG (lit [BSL; DQ]) (fun _ => [DQ]) cleaned in
  (* /\\'/g *)
  let cleaned := replaceG (lit [BSL; SQ]) (fun _ => [SQ]) cleaned in
  (* /\\([nrt])/g *)
  let cleaned :=
    replaceG (Cat (chr BSL) (Group 1 (anyOf (js "nrt"))))
             (fun m =>
                let char := match group 1 m with Some c => c | None => [] end in
                if eqs char (js "n") then [LF]
                else if eqs char (js "t") then [TAB]
                else if eqs char (js "r") then [CR]
                else char)
             cleaned in
  cleaned.

Definition failure (msg response : jsstring) : ParseResult :=
  {| success := false; code := None; error := Some msg;
     rawResponse := Some response |}.

(* extract code from response with strict validation *)
Definition parseClaudeOutput (response : jsstring) : ParseResult :=
  if (Nat.eqb (List.length response) 0
      || Nat.eqb (List.length (trim response)) 0)%bool then
    {| success := false; code := None; error := Some (js "empty response");
       rawResponse := Some response |}
  else
  let trimmed := trim response in
  let matches := matchAll codeBlockRegex trimmed in
  match matches with
  | [] =>
      (* maybe the response is raw code without fences *)
      if looksLikeStrudelCode trimmed then
        let validation := validateCodeContent trimmed in
        if negb (contentValid validation) then
          {| success := false; code := None;
             error := contentError validation;
             rawResponse := Some response |}
        else
          {| success := true; code := Some (cleanCode trimmed);
             error := None; rawResponse := None |}
      else
        {| success := false; code := None;
           error := Some (js "no code block found in response");
           rawResponse := Some response |}
  | codeMatch :: more =>
      if Nat.ltb 1 (List.length matches) then
        {| success := false; code := None;
           error := Some (js "found " ++ showNat (List.length matches)
                          ++ js " code blocks, expected exactly 1");
           rawResponse := Some response |}
      else
      (* extract the single code block *)
      let code_ :=
        match group 1 codeMatch with
        | Some inner => trim inner
        | None => []
        end in
      if Nat.eqb (List.length code_) 0 then
        {| success := false; code := None;
           error := Some (js "code block is empty");
           rawResponse := Some response |}
      else
      (* validate code content *)
      let validation := validateCodeContent code_ in
      if negb (contentValid validation) then
        {| success := false; code := None;
           error := contentError validation;
           rawResponse := Some response |}
      else
        {| success := true; code := Some (cleanCode code_);
           error := None; rawResponse := None |}
  end.

(** The local [normalize] of [isCodeUnchanged]. *)
Definition normalize (code : jsstring) : jsstring :=
  join [LF]
    (filter (fun line => Nat.ltb 0 (List.length line))
            (List.map trim (splitLF code))).

(* check if two code strings are effectively the same *)
Definition isCodeUnchanged (oldCode newCode : jsstring) : bool :=
  eqs (normalize oldCode) (normalize newCode).

End ParseOutput.

(* ================================================================== *)
(** * Policy values and the retry prompt: [src/lib/creativeDirectives.ts] *)
(* ================================================================== *)

Module CreativeDirectives.

Record ConfigValues := {
  maxVoices : jsnum;
  maxLines : jsnum;
  maxRandomUsage : jsnum;
  maxEffectsPerVoice : jsnum
}.

Definition getConfigValues : ConfigValues := {|
  maxVoices := ofZ 6;
  maxLines := ofZ 150;
  maxRandomUsage := ofZ 4;
  maxEffectsPerVoice := ofZ 3
|}.

(* build a retry prompt that redirects to taste principles *)
Definition buildRetryPrompt (userRequest : jsstring) (issues : list jsstring)
  : jsstring :=
  let issueList := join [LF] (List.map (fun i => js "- " ++ i) issues) in
  userRequest
  ++ jsq "||your previous attempt had issues:|"
  ++ issueList
  ++ jsq "||IMPORTANT: do not call methods on strings (e.g., ~1 0 1~.euclidean(...)); apply transforms to patterns, not string literals. Do not use .euclidean() (not available in this build).||return to first principles:|1. what should the listener feel? (be specific)|2. what is the musical intention? (not the technique)||then simplify:|- reduce to 3-6 voices|- remove randomness that doesn't serve the mood|- remove effects that don't serve the feeling|- subtraction is a sign of taste".

End CreativeDirectives.

(* ================================================================== *)
(** * The generation orchestrator: [src/app/api/claude/route.ts] *)
(* ================================================================== *)

Module Route.

(** ** The outbound stream *)

(** What [controller.enqueue] sends: the framed events, before their
    serialisation. *)
Inductive event :=
| ContentBlockDelta (text : jsstring)
| Status (status : jsstring)
| Clear
| Error (message : jsstring)
| Done.

Definition isStatus (e : event) : bool :=
  match e with Status _ => true | _ => false end.
Definition isClear (e : event) : bool :=
  match e with Clear => true | _ => false end.
Definition isError (e : event) : bool :=
  match e with Error _ => true | _ => false end.

(** ** The providers *)

(** What a provider stream delivers, and how it ends: to its end, or by
    throwing. *)
Inductive thrown :=
| ErrorObject (message : jsstring)      (* [error instanceof Error] *)
| OtherValue.

Record stream (E : Type) := {
  delivered : list E;
  failure : option thrown
}.

(** An event of the Anthropic stream, as far as [streamClaude] looks at it. *)
Inductive claudeEvent :=
| BlockDelta (isTextDelta : bool) (text : option jsstring)
| OtherEvent.

(** A chunk of the OpenAI stream: [chunk.choices[0]?.delta?.content]. *)
Definition openaiChunk := option jsstring.

(** A client answers a call, the n-th of the request, with a stream. *)
Definition client (E : Type) := nat -> jsstring -> jsstring -> stream E.

Inductive providerName := anthropic | openai.
Inductive generationMode := new | edit.

(** ** The state of one request *)

Record ostate := {
  out : list event;                    (* enqueued, oldest first *)
  closed : bool;                       (* [controller.close()] was called *)
  streams : nat;                       (* provider streams started *)
  validations : nat                    (* calls of [validateStrudelCode] *)
}.

Definition initial : ostate :=
  {| out := []; closed := false; streams := 0; validations := 0 |}.

(** Computations that change the state and may throw. *)
Definition M (A : Type) := ostate -> ostate * (A + thrown).

Definition ret {A} (x : A) : M A := fun s => (s, inl x).
Definition bind {A B} (m : M A) (f : A -> M B) : M B :=
  fun s => match m s with
           | (s', inl x) => f x s'
           | (s', inr e) => (s', inr e)
           end.
Definition throw {A} (e : thrown) : M A := fun s => (s, inr e).
Definition tryCatch {A} (m : M A) (h : thrown -> M A) : M A :=
  fun s => match m s with
           | (s', inl x) => (s', inl x)
           | (s', inr e) => h e s'
           end.

Notation "x <- m ;; k" := (bind m (fun x => k))
  (at level 61, m at next level, right associativity).
Notation "m ;;; k" := (bind m (fun _ => k))
  (at level 61, right associativity).

Definition enqueue (e : event) : M unit :=
  fun s => ({| out := out s ++ [e]; closed := closed s;
               streams := streams s; validations := validations s |}, inl tt).

Definition close : M unit :=
  fun s => ({| out := out s; closed := true;
               streams := streams s; validations := validations s |}, inl tt).

(** The start of a provider stream: its number, counted. *)
Definition startStream : M nat :=
  fun s => ({| out := out s; closed := closed s;
               streams := S (streams s); validations := validations s |},
            inl (streams s)).

Definition validate (code : jsstring) (config : ValidateOutput.PartialConfig)
  : M ValidateOutput.ValidationResult :=
  fun s => ({| out := out s; closed := closed s;
               streams := streams s; validations := S (validations s) |},
            inl (ValidateOutput.validateStrudelCode code config)).

(** The loop over a stream: every text is appended to [fullText] and
    forwarded; [None] is an event that carries no text. *)
Fixpoint forward (texts : list (option jsstring)) (fullText : jsstring)
  : M jsstring :=
  match texts with
  | [] => ret fullText
  | Some text :: more =>
      enqueue (ContentBlockDelta text) ;;; forward more (fullText ++ text)
  | None :: more => forward more fullText
  end.

Definition endOf {E} (st : stream E) (fullText : jsstring) : M jsstring :=
  match failure st with
  | Some e => throw e
  | None => ret fullText
  end.

(** A text that is not falsy. *)
Definition nonEmpty (o : option jsstring) : option jsstring :=
  match o with
  | Some [] => None
  | _ => o
  end.

(** [event.type === "content_block_delta"], [delta.type === "text_delta"]
    and [delta.text] *)
Definition claudeText (ev : claudeEvent) : option jsstring :=
  match ev with
  | BlockDelta true text => nonEmpty text
  | _ => None
  end.

(* streams claude response *)
Definition streamClaude (c : client claudeEvent)
  (systemPrompt userPrompt : jsstring) : M jsstring :=
  n <- startStream ;;
  let st := c n systemPrompt userPrompt in
  fullText <- forward (List.map claudeText (delivered st)) [] ;;
  endOf st fullText.

(* streams OpenAI response *)
Definition streamOpenAI (c : client openaiChunk)
  (systemPrompt userPrompt : jsstring) : M jsstring :=
  n <- startStream ;;
  let st := c n systemPrompt userPrompt in
  fullText <- forward (List.map nonEmpty (delivered st)) [] ;;
  endOf st fullText.

(** The texts among some events. *)
Definition present {A} (l : list (option A)) : list A :=
  flat_map (fun o => match o with Some x => [x] | None => [] end) l.

(* extracts code from response for validation *)
Definition extractCodeForValidation (text : jsstring) : option jsstring :=
  let matches := matchAll ParseOutput.codeBlockRegex text in
  match matches with
  | [] => None
  | _ =>
      (fix loop (l : list rmatch) : option jsstring :=
         match l with
         | [] => None
         | m :: l' =>
             let code := match group 1 m with
                         | Some inner => trim inner
                         | None => []
                         end in
             if (negb (Nat.eqb (List.length code) 0)
                 && Nat.ltb 30 (List.length code))%bool
             then Some code else loop l'
         end) matches
  end.

(* build edit mode context with current code *)
Definition buildEditContext (currentCode userRequest : jsstring) : jsstring :=
  jsq "you are editing an existing strudel composition. here is the current code:||```javascript|"
  ++ currentCode
  ++ jsq "|```||modify this code according to the user's request. return the FULL updated script, not a diff or patch. preserve the overall structure unless the user explicitly asks to change it.||user request: "
  ++ userRequest
  ++ jsq "||requirements:|- output the complete modified code|- keep setcpm(...) at the start|- maintain 3-6 voices with $:|- preserve what works, change what's requested|- single javascript code block only".

(** The message of the error event, from what was thrown. *)
Definition errorMessageOf (error : thrown) : jsstring :=
  match error with
  | ErrorObject message =>
      let msg := toLowerCase message in
      if (includes (js "authentication") msg
          || includes (js "invalid api key") msg
          || includes (js "invalid x-api-key") msg
          || includes (js "401") msg
          || includes (js "unauthorized") msg)%bool
      then js "This API key does not exist. Please check your API key in Settings."
      else if (includes (js "model") msg || includes (js "not found") msg
               || includes (js "does not exist") msg)%bool
      then js "Model error: " ++ message
           ++ js ". Please select a valid model in Settings."
      else message
  | OtherValue => js "stream error"
  end.

Section Start.

(** [buildUserPrompt] of [creativeDirectives.ts] reads the reference
    dataset through modules that are not part of the sources at hand; it is
    a parameter here. *)
Variable buildUserPrompt : jsstring -> jsstring.

(** What [start] closes over. *)
Variable provider : providerName.
Variable openaiClient : option (client openaiChunk).
Variable anthropicClient : option (client claudeEvent).
Variable systemPrompt userPrompt : jsstring.
Variable prompt : jsstring.
Variable mode : generationMode.
Variable currentCode : option jsstring.
Variable config : CreativeDirectives.ConfigValues.

Definition isOpenai : bool :=
  match provider with openai => true | anthropic => false end.

(** [mode === "edit" && currentCode && currentCode.trim()] *)
Definition editing : option jsstring :=
  match mode, currentCode with
  | edit, Some c =>
      if (negb (Nat.eqb (List.length c) 0)
          && negb (Nat.eqb (List.length (trim c)) 0))%bool
      then Some c else None
  | _, _ => None
  end.

Definition policy : ValidateOutput.PartialConfig := {|
  ValidateOutput.maxVoices' := Some (CreativeDirectives.maxVoices config);
  ValidateOutput.maxLines' := Some (CreativeDirectives.maxLines config);
  ValidateOutput.maxRandomUsage' :=
    Some (CreativeDirectives.maxRandomUsage config);
  ValidateOutput.maxEffectsPerVoice' := None;
  ValidateOutput.requireSetcpm' := None;
  ValidateOutput.rejectLocalhost' := None;
  ValidateOutput.maxDelayFeedback' := None;
  ValidateOutput.maxRoomSize' := None
|}.

(** The body of the [try] of [start]. *)
Definition attempt : M unit :=
  (* first attempt - streaming *)
  fullText <-
    match isOpenai, openaiClient, anthropicClient with
    | true, Some c, _ => streamOpenAI c systemPrompt userPrompt
    | _, _, Some c => streamClaude c systemPrompt userPrompt
    | _, _, None =>
        throw (ErrorObject (js "No valid API client configured"))
    end ;;
  (* validate the output *)
  match extractCodeForValidation fullText with
  | Some extractedCode =>
      validation <- validate extractedCode policy ;;
      (* if invalid, do one gentle retry *)
      if negb (ValidateOutput.valid validation) then
        (* send status update *)
        enqueue (Status (js "simplifying...")) ;;;
        (* build retry prompt with issues *)
        let retryPrompt :=
          CreativeDirectives.buildRetryPrompt
            prompt (ValidateOutput.issues validation) in
        (* for edit mode, include the current code in retry *)
        let retryUserPrompt :=
          match editing with
          | Some c => buildEditContext c retryPrompt
          | None => buildUserPrompt retryPrompt
          end in
        (* clear signal to client *)
        enqueue Clear ;;;
        (* second attempt - also streaming *)
        match isOpenai, openaiClient, anthropicClient with
        | true, Some c, _ =>
            streamOpenAI c systemPrompt retryUserPrompt ;;; ret tt
        | _, _, Some c =>
            streamClaude c systemPrompt retryUserPrompt ;;; ret tt
        | _, _, None => ret tt
        end
      else ret tt
  | None => ret tt
  end ;;;
  enqueue Done ;;;
  close.

(** [start(controller)] *)
Definition start : M unit :=
  tryCatch attempt
    (fun error => enqueue (Error (errorMessageOf error)) ;;; close).

Definition run : ostate := fst (start initial).

(** What the provider of the request answers its n-th call with, whichever
    of the two it is: the texts that are forwarded, and how the stream
    ends; [None] when no client is configured. *)
Definition answer (n : nat) (userPrompt' : jsstring)
  : option (stream jsstring) :=
  match isOpenai, openaiClient, anthropicClient with
  | true, Some c, _ =>
      let st := c n systemPrompt userPrompt' in
      Some {| delivered := present (List.map nonEmpty (delivered st));
              failure := failure st |}
  | _, _, Some c =>
      let st := c n systemPrompt userPrompt' in
      Some {| delivered := present (List.map claudeText (delivered st));
              failure := failure st |}
  | _, _, None => None
  end.

(** The user prompt of the second attempt. *)
Definition retryUserPromptFor (issues : list jsstring) : jsstring :=
  match editing with
  | Some c =>
      buildEditContext c (CreativeDirectives.buildRetryPrompt prompt issues)
  | None => buildUserPrompt (CreativeDirectives.buildRetryPrompt prompt issues)
  end.

End Start.

End Route.

(* ================================================================== *)
(** * The caller: [handleGenerate] of the chat panel *)
(* ================================================================== *)

Module Client.

Import Route.

(** What the request ends in on the caller's side. *)
Inductive outcome :=
| Applied (newCode : jsstring)          (* [strudelAdapter.setCode(newCode)] *)
| Failed (message : jsstring).          (* the error shown *)

(** The loop over the events read from the response; each event is taken
    to arrive whole.  A thrown error whose message includes JSON is
    dropped by the [catch] of the loop. *)
Fixpoint accumulate (events : list event) (accumulated : jsstring)
  : jsstring + jsstring :=
  match events with
  | [] => inl accumulated
  | ContentBlockDelta [] :: more => accumulate more accumulated
  | ContentBlockDelta text :: more => accumulate more (accumulated ++ text)
  | Status _ :: more => accumulate more accumulated
  | Clear :: more => accumulate more []
  | Error message :: more =>
      let m := match message with [] => js "stream error" | _ => message end in
      if includes (js "JSON") m then accumulate more accumulated
      else inr m
  | Done :: more => accumulate more accumulated
  end.

Definition finish (fullText : jsstring) : outcome :=
  if (Nat.eqb (List.length fullText) 0
      || eqs (trim fullText) [])%bool then
    Failed (js "Empty response from AI. The model may be overloaded - please try again.")
  else
    let parseResult := ParseOutput.parseClaudeOutput fullText in
    match ParseOutput.success parseResult, ParseOutput.code parseResult with
    | true, Some (c :: t) => Applied (c :: t)
    | _, _ =>
        Failed match ParseOutput.error parseResult with
               | Some (c :: t) => c :: t
               | _ => js "The AI response didn't contain valid code"
               end
    end.

Definition handleResponse (events : list event) : outcome :=
  match accumulate events [] with
  | inl fullText => finish fullText
  | inr message => Failed message
  end.

End Client.

(* ================================================================== *)
(** * Statements of the specification about the orchestrator *)
(* ================================================================== *)

Module StatedFlow.

Import Route.

Definition deltas (texts : list jsstring) : list event :=
  List.map ContentBlockDelta texts.

(** The state after a stream that forwarded some texts. *)
Definition after (s : ostate) (texts : list jsstring) : ostate :=
  {| out := out s ++ deltas texts; closed := closed s;
     streams := S (streams s); validations := validations s |}.

(** What a stream call returns, or throws. *)
Definition ended (st : stream jsstring) : jsstring + thrown :=
  match failure st with
  | Some e => inr e
  | None => inl (List.concat (delivered st))
  end.

(** The last event of a request whose last stream ended as [st] did. *)
Definition lastEvent (st : stream jsstring) : event :=
  match failure st with
  | None => Done
  | Some e => Error (errorMessageOf e)
  end.

Section Request.

Variable buildUserPrompt : jsstring -> jsstring.
Variable provider : providerName.
Variable openaiClient : option (client openaiChunk).
Variable anthropicClient : option (client claudeEvent).
Variable systemPrompt userPrompt : jsstring.
Variable prompt : jsstring.
Variable mode : generationMode.
Variable currentCode : option jsstring.
Variable config : CreativeDirectives.ConfigValues.

Definition final : ostate :=
  run buildUserPrompt provider openaiClient anthropicClient systemPrompt
      userPrompt prompt mode currentCode config.

Definition firstAnswer : option (stream jsstring) :=
  answer provider openaiClient anthropicClient systemPrompt 0 userPrompt.

(** Section 4.5 on a first attempt without an extractable artifact: no
    second stream, and a terminal error for the caller. *)
Definition extractionFailureIsTerminal : Prop :=
  forall st1,
    firstAnswer = Some st1 ->
    failure st1 = None ->
    extractCodeForValidation (List.concat (delivered st1)) = None ->
    streams final = 1%nat
    /\ exists message,
         Client.handleResponse (out final) = Client.Failed message.

End Request.

(** A provider whose only answer is a raw artifact without fences. *)
Definition rawArtifact : jsstring :=
  jsq "setcpm(120)|$: s(~bd sd~)|$: s(~hh*4~)".

Definition rawClient : client claudeEvent :=
  fun _ _ _ =>
    {| delivered := [BlockDelta true (Some rawArtifact)]; failure := None |}.

(** A provider whose first answer is a fenced artifact with a room size
    over the ceiling, and whose second answer is the same again. *)
Definition loudAnswer : jsstring :=
  jsq "```javascript|setcpm(120)|$: s(~bd sd~).room(0.99)|$: s(~hh*4~).gain(0.4)|```".

Definition loudClient : client claudeEvent :=
  fun _ _ _ =>
    {| delivered := [BlockDelta true (Some loudAnswer); OtherEvent];
       failure := None |}.

End StatedFlow.

(* ================================================================== *)
(** * The ten rules of the validator, one by one *)
(* ================================================================== *)

(** What each rule of section 4.2 of the specification contributes to the
    list of issues, stated rule by rule; [validateStrudelCode] above is
    compared with their concatenation. *)
Module Rules.

Import ValidateOutput.

Section Rules.

Variable code : jsstring.
Variable cfg : ValidationConfig.

Definition when (b : bool) (x : jsstring) : list jsstring :=
  if b then [x] else [].

Definition voiceCount : list jsstring :=
  when (gt (ofNat (countVoices code)) (maxVoices cfg))
       (js "too many voices (" ++ showNat (countVoices code) ++ js "/"
        ++ toString (maxVoices cfg) ++ js " max) - simplify to fewer tracks").

Definition lineBudget : list jsstring :=
  when (gt (ofNat (countLines code)) (maxLines cfg))
       (js "code too long (" ++ showNat (countLines code) ++ js "/"
        ++ toString (maxLines cfg) ++ js " lines max) - simplify")
  ++ when (Nat.ltb (countLines code) 5)
          (js "code too short - add more content").

Definition tempo : list jsstring :=
  when (requireSetcpm cfg && negb (hasSetcpm code))
       (js "missing setcpm() - set tempo at the start").

Definition forbiddenSamples : list jsstring :=
  when (rejectLocalhost cfg && hasForbiddenSamples code)
       (js "uses external/localhost samples - only use built-in samples").

Definition randomnessIssue : jsstring :=
  js "excessive randomness (" ++ showNat (countRandomUsage code) ++ js "/"
  ++ toString (maxRandomUsage cfg) ++ js " max) - reduce variation techniques".

Definition randomness : list jsstring :=
  when (gt (ofNat (countRandomUsage code)) (maxRandomUsage cfg))
       randomnessIssue.

Definition extremeIssue : jsstring :=
  js "extreme effect values detected - reduce delay feedback (max "
  ++ toString (maxDelayFeedback cfg) ++ js "), reverb (max "
  ++ toString (maxRoomSize cfg) ++ js "), or gain (max 2.0)".

Definition extremeEffects : list jsstring :=
  when (hasExtremeEffects code cfg) extremeIssue.

Definition syntaxBalance : list jsstring :=
  match getSyntaxIssue code with
  | Some issue => [issue]
  | None => []
  end.

Definition invalidMethods : list jsstring := findInvalidMethodUsage code.

Definition effectDensity : list jsstring :=
  when (checkEffectsDensity code cfg)
       (js "too many effects on a single voice (max "
        ++ toString (maxEffectsPerVoice cfg)
        ++ js ") - simplify effect chains").

Definition dangerousPatterns : list jsstring :=
  match hasDangerousPatterns code with
  | Some issue => [issue]
  | None => []
  end.

Definition all : list (list jsstring) :=
  [voiceCount; lineBudget; tempo; forbiddenSamples; randomness;
   extremeEffects; syntaxBalance; invalidMethods; effectDensity;
   dangerousPatterns].

End Rules.

(** What the syntax check can return. *)
Inductive syntaxIssueForm : jsstring -> Prop :=
| ParenForm a b :
    syntaxIssueForm (js "unbalanced parentheses: " ++ a
                     ++ js " opening '(' vs " ++ b ++ js " closing ')'")
| BracketForm a b :
    syntaxIssueForm (js "unbalanced brackets: " ++ a
                     ++ js " opening '[' vs " ++ b ++ js " closing ']'")
| BraceForm a b :
    syntaxIssueForm (js "unbalanced braces: " ++ a
                     ++ js " opening '{' vs " ++ b ++ js " closing '}'")
| MiniForm a b :
    syntaxIssueForm (js "unbalanced mini-notation: " ++ a
                     ++ js " opening '<' vs " ++ b
                     ++ js " closing '>' in pattern").

Definition isRandomnessIssue (s : jsstring) : bool :=
  startsWith (js "excessive randomness") s.
Definition isExtremeIssue (s : jsstring) : bool :=
  startsWith (js "extreme effect values detected") s.
Definition isMiniNotationIssue (s : jsstring) : bool :=
  startsWith (js "unbalanced mini-notation") s.

End Rules.

(* ================================================================== *)
(** * Statements of the specification about the extractor *)
(* ================================================================== *)

Module Stated.

Import ParseOutput.

(** A response that is empty or white space only. *)
Definition blank (response : jsstring) : bool := eqs (trim response) [].

(** How many of the five markers match. *)
Definition markersMatching (text : jsstring) : nat :=
  List.length (filter (fun pattern => test pattern text) markerPatterns).

(** The inner text of a fenced block. *)
Definition innerOf (block : rmatch) : jsstring :=
  match group 1 block with Some inner => inner | None => [] end.

(** What is done with a text taken as the artifact: the content check,
    then either its error or the normalized text. *)
Definition accept (artifact response : jsstring) : ParseResult :=
  let validation := validateCodeContent artifact in
  if negb (contentValid validation) then
    {| success := false; code := None; error := contentError validation;
       rawResponse := Some response |}
  else
    {| success := true; code := Some (cleanCode artifact); error := None;
       rawResponse := None |}.

(** Parsing fails with an error that starts with the given words. *)
Definition failsWith (words : jsstring) (r : ParseResult) : Prop :=
  success r = false /\ code r = None
  /\ exists msg, error r = Some msg /\ startsWith words msg = true.

(** The case analysis of section 4.1 on the number of fenced blocks. *)
Definition caseAnalysis (response : jsstring) : Prop :=
  let trimmed := trim response in
  let r := parseClaudeOutput response in
  match matchAll codeBlockRegex trimmed with
  | [] =>
      if Nat.leb 2 (markersMatching trimmed)
      then r = accept trimmed response
      else failsWith (js "no code block found") r
  | [block] =>
      trim (innerOf block) = [] -> failsWith (js "code block is empty") r
  | blocks =>
      success r = false /\ code r = None
      /\ error r = Some (js "found " ++ toString (ofNat (List.length blocks))
                         ++ js " code blocks, expected exactly 1")
  end.

(** The error of a response without block and without two markers, word
    for word. *)
Definition noBlockError (response : jsstring) : Prop :=
  let trimmed := trim response in
  match matchAll codeBlockRegex trimmed with
  | [] =>
      if Nat.leb 2 (markersMatching trimmed) then True
      else error (parseClaudeOutput response)
           = Some (js "no code block found in response")
  | _ :: _ => True
  end.

End Stated.

(* ================================================================== *)
(** * Lines of a text *)
(* ================================================================== *)

Module Lines.

(** White space only. *)
Definition allSpace (w : jsstring) : bool := forallb isSpace w.

(** The place between [a] and [b] is the start or the end of a line. *)
Definition atLineEdge (a b : jsstring) : bool :=
  (match rev a with [] => true | c :: _ => N.eqb c LF end
   || match b with [] => true | c :: _ => N.eqb c LF end)%bool.

(** The lines that [normalize] keeps: trimmed and not empty. *)
Definition keep (lines : list jsstring) : list jsstring :=
  filter (fun line => Nat.ltb 0 (List.length line)) (List.map trim lines).

(** A text put in front of the first of some lines. *)
Definition prepend (p : jsstring) (lines : list jsstring) : list jsstring :=
  match lines with
  | l :: ls => (p ++ l) :: ls
  | [] => [p]
  end.

End Lines.

(* ================================================================== *)
(** * Backslash pairs *)
(* ================================================================== *)

(** The three passes of [cleanCode] each rewrite pairs made of a backslash
    and one code unit of a class.  Such a pass is written here as a
    function on the text, to be compared with the pass of the pattern. *)
Module Escapes.

(** Left to right: a backslash followed by a unit [y] of the class becomes
    [f y]; everything else stays. *)
Fixpoint unescape (isEsc : cu -> bool) (f : cu -> cu) (s : jsstring)
  : jsstring :=
  match s with
  | [] => []
  | x :: t =>
      match t with
      | y :: t' =>
          if (N.eqb x BSL && isEsc y)%bool then f y :: unescape isEsc f t'
          else x :: unescape isEsc f t
      | [] => [x]
      end
  end.

(** No backslash is followed by a unit of the class. *)
Fixpoint noPair (P : cu -> bool) (s : jsstring) : bool :=
  match s with
  | [] => true
  | x :: t =>
      match t with
      | y :: _ => (negb (N.eqb x BSL && P y) && noPair P t)%bool
      | [] => true
      end
  end.

(** No backslash is followed by a backslash. *)
Definition noDoubleBackslash (s : jsstring) : bool := noPair (N.eqb BSL) s.

(** What a pattern for such pairs finds at a position. *)
Definition pairAt (isEsc : cu -> bool) (captures : cu -> list (nat * jsstring))
  (s : jsstring) : option rmatch :=
  match s with
  | x :: y :: _ =>
      if (N.eqb x BSL && isEsc y)%bool
      then Some (RMatch [x; y] (captures y)) else None
  | _ => None
  end.

Definition isLetterEscape (y : cu) : bool := existsb (N.eqb y) (js "nrt").

Definition controlOf (y : cu) : cu :=
  if N.eqb y 110 then LF
  else if N.eqb y 116 then TAB
  else if N.eqb y 114 then CR
  else y.

(** The text of the pieces of a pass, under a replacer. *)
Definition rebuilt (f : rmatch -> jsstring) (l : list piece) : jsstring :=
  flat_map (fun x => match x with
                     | Unmatched c => [c]
                     | Matched m => f m
                     end) l.

End Escapes.

(* ================================================================== *)
(** * Statements of the specification about the balance of angle brackets *)
(* ================================================================== *)

Module StatedSyntax.

Import ValidateOutput.

Definition isQuote (c : cu) : bool := existsb (N.eqb c) quotes3.

(** The quoted segments of a text, read left to right: a segment opens at
    a quote character (double quote, single quote or backtick) and closes
    at the next quote character of any of the three kinds; [inside] holds
    the open segment. *)
Fixpoint segments (inside : option jsstring) (s : jsstring)
  : list jsstring :=
  match s with
  | [] => []
  | c :: t =>
      match inside with
      | None => if isQuote c then segments (Some [c]) t else segments None t
      | Some open =>
          if isQuote c then (open ++ [c]) :: segments None t
          else segments (Some (open ++ [c])) t
      end
  end.

(** From the unit after an opening quote: the text up to the next quote,
    that quote included, and what follows it. *)
Fixpoint closing (t : jsstring) : option (jsstring * jsstring) :=
  match t with
  | [] => None
  | c :: t' =>
      if isQuote c then Some ([c], t')
      else match closing t' with
           | Some (body, after) => Some (c :: body, after)
           | None => None
           end
  end.

(** Where a match stands and what it captured. *)
Definition restAndCaps (f : mstate) : jsstring * list (nat * jsstring) :=
  (rest f, caps f).

(** What the syntax check takes for the quoted literals. *)
Definition quotedSegments (code : jsstring) : list jsstring :=
  matchG reStringContents code.

Definition angleBalanced (segment : jsstring) : bool :=
  Nat.eqb (countCu 60%N segment) (countCu 62%N segment).

(** As many opening as closing parentheses, square brackets and braces. *)
Definition bracketsBalanced (code : jsstring) : bool :=
  (Nat.eqb (countCu 40%N code) (countCu 41%N code)
   && Nat.eqb (countCu 91%N code) (countCu 93%N code)
   && Nat.eqb (countCu 123%N code) (countCu 125%N code))%bool.

Definition miniNotationIssue (segment : jsstring) : jsstring :=
  js "unbalanced mini-notation: " ++ toString (ofNat (countCu 60%N segment))
  ++ js " opening '<' vs " ++ toString (ofNat (countCu 62%N segment))
  ++ js " closing '>' in pattern".

(** The mini-notation issues of a text: one, for the first segment out of
    balance, when the brackets of the whole text are balanced. *)
Definition miniNotationIssues (code : jsstring) : list jsstring :=
  if bracketsBalanced code then
    match find (fun segment => negb (angleBalanced segment))
               (quotedSegments code) with
    | Some segment => [miniNotationIssue segment]
    | None => []
    end
  else [].

(** The second half of the statement on the scope of the check: a text
    with a quoted literal out of balance is reported with the issue. *)
Definition unbalancedLiteralIsReported (code : jsstring) : Prop :=
  (exists segment,
      In segment (quotedSegments code) /\ angleBalanced segment = false) ->
  exists issue,
    In issue (issues (validateStrudelCode code noOverrides))
    /\ Rules.isMiniNotationIssue issue = true.

End StatedSyntax.

(* ================================================================== *)
(** * Artifacts used as examples *)
(* ================================================================== *)

Module Samples.

(** The artifact of the repository's test of the room ceiling, with the
    value of its [.room] call left open. *)
Definition roomArtifact (value : string) : jsstring :=
  jsq "setcpm(120)|$: note(~c4~).s(~piano~).room(" ++ js value
  ++ jsq ")|$: s(~bd sd bd sd bd sd~)".

(** The artifact of the repository's test of the randomness limit: sixteen
    calls of [rand]. *)
Definition random16 : jsstring :=
  jsq "setcpm(120)|$: s(~bd~).gain(rand()).delay(rand()).room(rand()).hpf(rand()).lpf(rand()).lpq(rand()).pan(rand()).shape(rand())|$: note(~c4~).s(~piano~).gain(rand()).delay(rand()).room(rand()).crush(rand()).coarse(rand()).shape(rand()).pan(rand()).lpf(rand())".

(** Nine randomness operations of all three forms: four [rand], two
    [irand], one [perlin], two probability transforms. *)
Definition random9 : jsstring :=
  jsq "setcpm(120)|$: s(~bd~).gain(rand()).pan(rand()).lpf(perlin.range(200, 900))|$: note(~c4 e4~).s(~piano~).gain(rand()).delay(rand ())|$: n(irand(8)).s(~sine~).sometimes(x => x.fast(2))|$: n(irand(4)).s(~triangle~).rarely(x => x.rev())|$: s(~hh*8~).gain(0.2)".

(** Three rules fail at once: no tempo call, a remote sample source and an
    unsupported method (and the artifact is short). *)
Definition threeFailures : jsstring :=
  jsq "samples(~https://example.com/samples~)|$: s(~bd~).euclidean(5, 8)|$: s(~hh~)".

(** A quoted literal with an opening angle bracket and no closing one, in
    a call whose parenthesis is not closed. *)
Definition openCall : jsstring := jsq "note(~<c4 e4~".

(** Angle brackets out of balance outside of the quoted literals only. *)
Definition comparison : jsstring :=
  jsq "setcpm(120)|$: note(~<c4 e4>~).gain(0.5)|$: s(~bd~).gain(0.3 < 1 ? 0.2 : 0.4)".

End Samples.

(* ================================================================== *)
(** * The request before the stream: more of [route.ts] *)
(* ================================================================== *)

Module Preflight.

Import Route.

(** The fields of a [ChatMessage] that [route.ts] reads; [code] is [None]
    when the property is absent. *)
Record ChatMessage := {
  role : jsstring;
  content : jsstring;
  code : option jsstring
}.

(** [l.slice(start)] *)
Definition slice {A} (start : Z) (l : list A) : list A :=
  let len := Z.of_nat (List.length l) in
  let from := if (start <? 0)%Z then Z.max (len + start) 0
              else Z.min start len in
  skipn (Z.to_nat from) l.

(* truncate chat history intelligently (keep recent + first message for
   context) *)
Definition truncateChatHistory (chat : list ChatMessage) (maxMessages : nat)
  : list ChatMessage :=
  if Nat.leb (List.length chat) maxMessages then chat
  else
    (* keep first message and last (maxMessages - 1) messages *)
    match chat with
    | first :: _ => first :: slice (- (Z.of_nat maxMessages - 1)) chat
    | [] => []
    end.

Definition truthy (o : option jsstring) : bool :=
  match o with Some (_ :: _) => true | _ => false end.

(** One line of the formatted history. *)
Definition formatMessage (msg : ChatMessage) : jsstring :=
  let role_ := if eqs (role msg) (js "user") then js "user"
               else js "assistant" in
  (* for assistant messages, only include short summary, not full code *)
  let content_ :=
    if (eqs (role msg) (js "assistant") && truthy (code msg))%bool
    then js "[generated strudel code]"
    else content msg in
  role_ ++ js ": " ++ content_.

(* format chat history for context *)
Definition formatChatHistory (chat : list ChatMessage) : jsstring :=
  match chat with
  | [] => []
  | _ :: _ =>
      let formatted := join [LF] (List.map formatMessage chat) in
      [LF] ++ js "previous conversation:" ++ [LF] ++ formatted ++ [LF]
  end.

(* Helper to determine provider from model ID *)
Definition getProviderFromModel (model : jsstring) : providerName :=
  if (startsWith (js "gpt-") model || startsWith (js "o1") model
      || startsWith (js "o3") model)%bool
  then openai else anthropic.

Inductive keyProvider := KeyAnthropic | KeyOpenai | KeyUnknown.

(* Helper to detect API key type *)
Definition detectApiKeyProvider (apiKey : jsstring) : keyProvider :=
  if startsWith (js "sk-ant-") apiKey then KeyAnthropic
  else if (startsWith (js "sk-") apiKey
           || startsWith (js "sk-proj-") apiKey)%bool then KeyOpenai
  else KeyUnknown.

(** The variables of the environment that [getEnvApiKey] reads. *)
Record environment := {
  AUDIAL_OPENAI_API_KEY : option jsstring;
  OPENAI_API_KEY : option jsstring;
  AUDIAL_ANTHROPIC_API_KEY : option jsstring;
  ANTHROPIC_API_KEY : option jsstring;
  AUDIAL_API_KEY : option jsstring
}.

(** [a || b] on strings that may be undefined. *)
Definition firstTruthy (a b : option jsstring) : option jsstring :=
  if truthy a then a else b.

Definition getEnvApiKey (env : environment) (provider : providerName)
  : option jsstring :=
  match provider with
  | openai =>
      firstTruthy (AUDIAL_OPENAI_API_KEY env)
                  (firstTruthy (OPENAI_API_KEY env) (AUDIAL_API_KEY env))
  | anthropic =>
      firstTruthy (AUDIAL_ANTHROPIC_API_KEY env)
                  (firstTruthy (ANTHROPIC_API_KEY env) (AUDIAL_API_KEY env))
  end.

(** The body of a request, as far as the checks read it. *)
Record body := {
  prompt : option jsstring;
  requestModel : option jsstring;
  requestApiKey : option jsstring
}.

Definition providerLabel (p : providerName) : jsstring :=
  match p with openai => js "OpenAI" | anthropic => js "Anthropic" end.

Definition sameProvider (k : keyProvider) (p : providerName) : bool :=
  match k, p with
  | KeyOpenai, openai | KeyAnthropic, anthropic => true
  | _, _ => false
  end.

Definition providerOfKey (k : keyProvider) : providerName :=
  match k with KeyOpenai => openai | _ => anthropic end.

Definition isUnknown (k : keyProvider) : bool :=
  match k with KeyUnknown => true | _ => false end.

(** What the checks at the head of [POST] end in: a response with a status
    and an error, or the provider, the key and the model to stream with. *)
Inductive checked :=
| Refused (status : nat) (error : jsstring)
| Passed (provider : providerName) (apiKey model : jsstring).

Definition checks (env : environment) (b : body) : checked :=
  (* Use client-provided model if available, otherwise default *)
  let model := match requestModel b with
               | Some (c :: t) => c :: t
               | _ => js "claude-sonnet-4-20250514"
               end in
  let provider := getProviderFromModel model in
  let envApiKey := getEnvApiKey env provider in
  match firstTruthy (requestApiKey b) envApiKey with
  | Some (c :: t) =>
      let apiKey := c :: t in
      (* Detect API key type and validate it matches the selected provider *)
      let keyProvider_ := detectApiKeyProvider apiKey in
      if (negb (isUnknown keyProvider_)
          && negb (sameProvider keyProvider_ provider))%bool then
        Refused 400
          (js "You selected an " ++ providerLabel provider
           ++ js " model but provided an "
           ++ providerLabel (providerOfKey keyProvider_)
           ++ js " API key. Please update your API key in Settings to match the selected model.")
      else if negb (truthy (prompt b)) then
        Refused 400 (js "missing prompt")
      else Passed provider apiKey model
  | _ =>
      (* API key must be provided by the client via Settings or server env *)
      Refused 401
        (js "No API key configured. Add one in Settings or set AUDIAL_API_KEY (or provider-specific env var).")
  end.

(** The user prompt of the first attempt, as [POST] builds it; in edit mode
    the history is cut to six messages.  [buildUserPrompt] is the parameter
    of [Route]. *)
Definition firstUserPrompt (buildUserPrompt : jsstring -> jsstring)
  (mode : generationMode) (currentCode : option jsstring)
  (chatHistory : list ChatMessage) (prompt : jsstring) : jsstring :=
  match editing mode currentCode with
  | Some c =>
      (* edit mode: include current code context *)
      let chatContext :=
        formatChatHistory (truncateChatHistory chatHistory 6) in
      buildEditContext c prompt ++ chatContext
  | None =>
      (* new mode: no previous code context *)
      buildUserPrompt prompt
  end.

(** A message without what [formatChatHistory] leaves out: what an
    assistant message with code says, and its code. *)
Definition redact (msg : ChatMessage) : ChatMessage :=
  if (eqs (role msg) (js "assistant") && truthy (code msg))%bool
  then {| role := role msg; content := []; code := Some (js "-") |}
  else msg.

End Preflight.

(* ================================================================== *)
(** * Texts without a given code unit *)
(* ================================================================== *)

Module Texts.

(** No unit of the text is [c]. *)
Definition without (c : cu) (s : jsstring) : bool :=
  forallb (fun x => negb (N.eqb x c)) s.

End Texts.

(* ================================================================== *)
(** * The saved songs: the second part of [src/app/api/claude/route.ts] *)
(* ================================================================== *)

Module Songs.

Definition SONG_EXTENSION : jsstring := js ".md".

(** [s.padStart(n, fill)] for a pad string of one code unit. *)
Definition padStart (n : nat) (fill : cu) (s : jsstring) : jsstring :=
  repeat fill (n - List.length s) ++ s.

Definition pad2 (value : jsnum) : jsstring :=
  padStart 2 48%N (toString value).

(* /\s+/g *)
Definition reSpaces : re := plus space.

Definition normalizePrompt (prompt : option jsstring) : option jsstring :=
  match prompt with
  | Some (c :: t) =>
      let cleaned := trim (replaceG reSpaces (fun _ => js " ") (c :: t)) in
      if Nat.ltb 0 (List.length cleaned) then Some cleaned else None
  | _ => None
  end.

Record SongParams := {
  title : jsstring;
  createdAt : jsstring;
  prompt : option jsstring;             (* [None] is null *)
  code : jsstring
}.

Definition buildSongContent (params : SongParams) : jsstring :=
  let lines := [js "# " ++ title params; js "created: " ++ createdAt params] in
  let lines :=
    match prompt params with
    | Some (c :: t) => lines ++ [js "prompt: " ++ c :: t]
    | _ => lines
    end in
  let lines :=
    lines ++ [[]; js "```strudel"; trim (code params); js "```"; []] in
  join [LF] lines.

(* /\r?\n/ *)
Definition reNewline : re := Cat (opt (chr CR)) (chr LF).

(** The texts between the matches of a pass. *)
Fixpoint between (current : jsstring) (l : list piece) : list jsstring :=
  match l with
  | [] => [current]
  | Unmatched c :: l' => between (current ++ [c]) l'
  | Matched _ :: l' => current :: between [] l'
  end.

(** [s.split(r)] for a pattern without capturing group that matches no
    empty text. *)
Definition split (r : re) (s : jsstring) : list jsstring :=
  between [] (scan r None 0 s).

(** A pattern that begins with [^], without the m flag, matches at the
    start of the text or nowhere: [r] is the pattern after the [^]. *)
Definition testAtStart (r : re) (s : jsstring) : bool :=
  match execAt r None s with Some _ => true | None => false end.

(** [s.replace(r, empty)] for such a pattern. *)
Definition removeAtStart (r : re) (s : jsstring) : jsstring :=
  match execAt r None s with
  | Some m => skipn (List.length (mtext m)) s
  | None => s
  end.

(* /^created:/i and /^created:\s*/i *)
Definition reCreated : re := strI "created:".
Definition reCreatedHead : re := Cat (strI "created:") (star space).
(* /^prompt:/i and /^prompt:\s*/i *)
Definition rePrompt : re := strI "prompt:".
Definition rePromptHead : re := Cat (strI "prompt:") (star space).
(* /```(?:strudel)?\s*([\s\S]*?)```/i *)
Definition reSongBlock : re :=
  cat [str "```"; opt (strI "strudel"); star space;
       Group 1 (lazyStar anything); str "```"].

(** [s.match(r)] for a pattern without the g flag: the first match. *)
Fixpoint matchFrom (r : re) (p : option cu) (s : jsstring) : option rmatch :=
  match execAt r p s with
  | Some m => Some m
  | None =>
      match s with
      | [] => None
      | c :: t => matchFrom r (Some c) t
      end
  end.

(** What [parseSongContent] returns; the empty name and date are the
    empty strings of the source. *)
Record ParsedSong := {
  name : jsstring;
  createdAt' : jsstring;
  prompt' : option jsstring;            (* [None] is null *)
  code' : jsstring
}.

(** The three variables of the loop over the first lines. *)
Record header := {
  hName : jsstring;
  hCreatedAt : jsstring;
  hPrompt : option jsstring
}.

(** The body of the loop, for one line. *)
Definition readLine (h : header) (line : jsstring) : header :=
  if (Nat.eqb (List.length (hName h)) 0
      && startsWith (js "# ") line)%bool then
    {| hName := trim (skipn 2 line); hCreatedAt := hCreatedAt h;
       hPrompt := hPrompt h |}
  else if (Nat.eqb (List.length (hCreatedAt h)) 0
           && testAtStart reCreated line)%bool then
    {| hName := hName h;
       hCreatedAt := trim (removeAtStart reCreatedHead line);
       hPrompt := hPrompt h |}
  else if (match hPrompt h with Some (_ :: _) => false | _ => true end
           && testAtStart rePrompt line)%bool then
    let value := trim (removeAtStart rePromptHead line) in
    {| hName := hName h; hCreatedAt := hCreatedAt h;
       hPrompt := if Nat.ltb 0 (List.length value) then Some value
                  else None |}
  else h.

Definition parseSongContent (content : jsstring) : ParsedSong :=
  let lines := split reNewline content in
  let h := fold_left readLine (firstn 8 lines)
                     {| hName := []; hCreatedAt := []; hPrompt := None |} in
  let codeMatch := matchFrom reSongBlock None content in
  let code_ :=
    match codeMatch with
    | Some m => trim match group 1 m with Some inner => inner | None => [] end
    | None => trim content
    end in
  {| name := hName h; createdAt' := hCreatedAt h; prompt' := hPrompt h;
     code' := code_ |}.

(** The name of the attempt-th candidate. *)
Definition candidate (base : jsstring) (attempt : nat) : jsstring :=
  let suffix :=
    if Nat.eqb attempt 0 then []
    else js "-" ++ toString (ofNat (attempt + 1)) in
  base ++ suffix ++ SONG_EXTENSION.

(** The loop of [getAvailableFilename] from an attempt on; [fileExists]
    answers for the songs directory, which is taken not to change during
    the loop, and [fuel] bounds the number of rounds. *)
Fixpoint getAvailableFilenameFrom (fileExists : jsstring -> bool)
  (fuel : nat) (base : jsstring) (attempt : nat) : option jsstring :=
  match fuel with
  | O => None
  | S fuel' =>
      let filename := candidate base attempt in
      let exists_ := fileExists filename in
      if negb exists_ then Some filename
      else getAvailableFilenameFrom fileExists fuel' base (attempt + 1)
  end.

Definition getAvailableFilename (fileExists : jsstring -> bool)
  (fuel : nat) (base : jsstring) : option jsstring :=
  getAvailableFilenameFrom fileExists fuel base 0.

(** A text that a line of the head of a song file gives back: trimmed, not
    empty, on one line and without backtick. *)
Definition headerField (f : jsstring) : bool :=
  (eqs (trim f) f && Nat.ltb 0 (List.length f)
   && Texts.without LF f && Texts.without BQ f)%bool.

(** What follows the head in the text of a song file. *)
Definition bodyOf (code : jsstring) : jsstring :=
  LF :: js "```strudel" ++ LF :: trim code ++ LF :: js "```" ++ [LF].

(** A song whose title holds a fenced text. *)
Definition fencedTitle : SongParams :=
  {| title := js "my ```x``` song";
     createdAt := js "2026-01-10T04:21:16.761Z";
     prompt := Some (js "a beat");
     code := js "setcpm(90)" |}.

(** A song of the repository. *)
Definition stringsAndRocks : SongParams :=
  {| title := js "strings-and-rocks";
     createdAt := js "2026-01-10T04:21:16.761Z";
     prompt := Some (js "Make the strings be a bit slower");
     code := jsq "setcpm(85)||// Primary ascending melody|$: note(~g4 a4 c5 d5~).slow(3)|  .s(~sawtooth~)|" |}.

End Songs.

(* ================================================================== *)
(** * The name of a song from its prompt: the chat panel *)
(* ================================================================== *)

Module Panel.

(** [a-zA-Z0-9 ] *)
Definition isNameUnit (c : cu) : bool :=
  (isLower c || isUpper c || isDigit c || N.eqb c 32)%bool.

(* /[^a-zA-Z0-9 ]+/g *)
Definition reNotName : re := plus (Cls (fun c => negb (isNameUnit c))).

Definition extractNameFromPrompt (prompt : option jsstring)
  : option jsstring :=
  match prompt with
  | Some (c :: t) =>
      let cleaned := trim (replaceG reNotName (fun _ => js " ") (c :: t)) in
      if Nat.ltb (List.length cleaned) 3 then None
      else Some (if Nat.ltb 40 (List.length cleaned)
                 then trim (firstn 40 cleaned) else cleaned)
  | _ => None
  end.

End Panel.

(* ================================================================== *)
(** * Runs of code units of a class *)
(* ================================================================== *)

Module Runs.

(** Every maximal run of units of the class becomes one [fill]; [inside]
    tells that the unit before was of the class. *)
Fixpoint squeeze (C : cu -> bool) (fill : cu) (inside : bool) (s : jsstring)
  : jsstring :=
  match s with
  | [] => []
  | c :: t =>
      if C c then
        if inside then squeeze C fill true t
        else fill :: squeeze C fill true t
      else c :: squeeze C fill false t
  end.

(** What is left after the units of the class at the start. *)
Fixpoint dropRun (C : cu -> bool) (s : jsstring) : jsstring :=
  match s with
  | c :: t => if C c then dropRun C t else s
  | [] => []
  end.

(** The only unit of the class is [fill]. *)
Definition onlyFill (C : cu -> bool) (fill : cu) (s : jsstring) : bool :=
  forallb (fun x => (negb (C x) || N.eqb x fill)%bool) s.

(** No two units of the class follow each other. *)
Fixpoint noRun (C : cu -> bool) (s : jsstring) : bool :=
  match s with
  | [] => true
  | c :: t =>
      match t with
      | d :: _ => (negb (C c && C d) && noRun C t)%bool
      | [] => true
      end
  end.

End Runs.

(* ================================================================== *)
(** * Fenced blocks *)
(* ================================================================== *)

Module Fences.

(** The language tags that [codeBlockRegex] reads after the opening fence;
    the empty tag is no tag. *)
Definition fenceTags : list jsstring :=
  [[]; js "javascript"; js "js"; js "strudel"].

Definition isFenceTag (tag : jsstring) : bool := existsb (eqs tag) fenceTags.

(** A block: the opening fence, the tag, a line feed, the inner text and
    the closing fence. *)
Definition fenced (tag inner : jsstring) : jsstring :=
  js "```" ++ tag ++ [LF] ++ inner ++ js "```".

End Fences.

(* ================================================================== *)
(** * What every request ends in *)
(* ================================================================== *)

Module Ending.

Import Route.

(** The terminal marker and the error event end a stream. *)
Definition isTerminal (e : event) : bool :=
  match e with Done | Error _ => true | _ => false end.

Definition count (f : event -> bool) (l : list event) : nat :=
  List.length (filter f l).

(** A provider whose answer is a fenced artifact that the validator
    accepts. *)
Definition calmArtifact : jsstring :=
  jsq "setcpm(90)|$: s(~bd sd~)|$: s(~hh*4~).gain(0.4)|$: note(~c2 e2~).s(~sawtooth~)|$: s(~cp~).room(0.3)".

Definition calmAnswer : jsstring :=
  jsq "here you go:|```javascript|" ++ calmArtifact ++ jsq "|```".

Definition calmClient : client claudeEvent :=
  fun _ _ _ =>
    {| delivered := [BlockDelta true (Some calmAnswer)]; failure := None |}.

(** A provider whose stream breaks after it delivered an artifact without
    fences. *)
Definition brokenClient (message : jsstring) : client openaiChunk :=
  fun _ _ _ =>
    {| delivered := [Some StatedFlow.rawArtifact; None];
       failure := Some (ErrorObject message) |}.

End Ending.

(* ================================================================== *)
(** * Properties *)
(* ================================================================== *)

(** ** The pass of a pattern over a text *)

Module RegexFacts.

Lemma two_more (n : nat) : (S (S n) - n = 2)%nat.
Proof. lia. Qed.

Lemma one_more (n : nat) : (S n - n = 1)%nat.
Proof. lia. Qed.

Lemma scan_here (r : re) (p : option cu) (c : cu) (t : jsstring) :
  scan r p 0 (c :: t)
  = match execAt r p (c :: t) with
    | Some m =>
        Matched m ::
        match List.length (mtext m) with
        | O => Unmatched c :: scan r (Some c) 0 t
        | S n => scan r (Some c) n t
        end
    | None => Unmatched c :: scan r (Some c) 0 t
    end.
Proof. reflexivity. Qed.

Lemma scan_skip (r : re) (p : option cu) (n : nat) (c : cu) (t : jsstring) :
  scan r p (S n) (c :: t) = scan r (Some c) n t.
Proof. reflexivity. Qed.

Lemma scan_end (r : re) (p : option cu) :
  scan r p 0 []
  = match execAt r p [] with Some m => [Matched m] | None => [] end.
Proof. reflexivity. Qed.

End RegexFacts.

(** ** The validator aggregates its ten rules *)

Module ValidatorFacts.

Import ValidateOutput.

Lemma push_if (c : bool) (l : list jsstring) (x : jsstring) :
  (if c then push l x else l) = l ++ Rules.when c x.
Proof. destruct c; simpl; [reflexivity | now rewrite app_nil_r]. Qed.

Lemma syntax_nonempty code s :
  getSyntaxIssue code = Some s -> Nat.eqb (List.length s) 0 = false.
Proof.
  unfold getSyntaxIssue.
  repeat match goal with
         | |- (if ?c then _ else _) = _ -> _ => destruct c
         end;
    try (intros H; injection H as <-; reflexivity).
  generalize (matchG reStringContents code).
  induction l as [|x l IH]; [discriminate|].
  destruct (negb _); [|exact IH].
  intros H; injection H as <-; reflexivity.
Qed.

Lemma dangerous_nonempty code s :
  hasDangerousPatterns code = Some s -> Nat.eqb (List.length s) 0 = false.
Proof.
  unfold hasDangerousPatterns.
  repeat match goal with
         | |- (if ?c then _ else _) = _ -> _ => destruct c
         end;
    try (intros H; injection H as <-; reflexivity).
  discriminate.
Qed.

Lemma push_option (o : option jsstring) (l : list jsstring) :
  (forall s, o = Some s -> Nat.eqb (List.length s) 0 = false) ->
  match o with
  | Some s => if negb (Nat.eqb (List.length s) 0) then push l s else l
  | None => l
  end = l ++ match o with Some s => [s] | None => [] end.
Proof.
  destruct o as [s|]; intros H.
  - now rewrite (H s eq_refl).
  - now rewrite app_nil_r.
Qed.

(** The issues of a call are the issues of the ten rules, in their order. *)
Lemma issues_concat code config :
  issues (validateStrudelCode code config)
  = List.concat (Rules.all code (merge DEFAULT_CONFIG config)).
Proof.
  unfold validateStrudelCode; cbv zeta; cbn [issues].
  rewrite (push_option _ (dangerous_nonempty code)).
  rewrite push_if.
  rewrite (push_option _ (syntax_nonempty code)).
  rewrite !push_if.
  unfold Rules.all, List.concat.
  rewrite app_nil_r; cbn [app].
  unfold Rules.voiceCount, Rules.lineBudget, Rules.tempo,
    Rules.forbiddenSamples, Rules.randomness, Rules.randomnessIssue,
    Rules.extremeEffects, Rules.extremeIssue,
    Rules.syntaxBalance, Rules.invalidMethods, Rules.effectDensity,
    Rules.dangerousPatterns.
  rewrite <- !app_assoc. reflexivity.
Qed.

Lemma valid_iff code config :
  valid (validateStrudelCode code config) = true
  <-> issues (validateStrudelCode code config) = [].
Proof.
  unfold validateStrudelCode; cbv zeta; cbn [valid issues].
  match goal with |- Nat.eqb (List.length ?l) 0 = true <-> _ =>
    generalize l end.
  intros [|x l]; simpl; split; congruence.
Qed.

End ValidatorFacts.

(** ** Which rule an issue comes from *)

Module IssueKinds.

Import ValidateOutput ValidatorFacts.

Lemma syntax_form code s :
  getSyntaxIssue code = Some s -> Rules.syntaxIssueForm s.
Proof.
  unfold getSyntaxIssue.
  repeat match goal with
         | |- (if ?c then _ else _) = _ -> _ => destruct c
         end;
    try (intros H; injection H as <-; constructor).
  generalize (matchG reStringContents code).
  induction l as [|x l IH]; [discriminate|].
  destruct (negb _); [|exact IH].
  intros H; injection H as <-; constructor.
Qed.

Section OneKind.

(** A test on issues that tells by a prefix. *)
Variable kind : jsstring -> bool.

Lemma filter_when (b : bool) (x : jsstring) :
  kind x = false -> filter kind (Rules.when b x) = [].
Proof. intros H; destruct b; simpl; [now rewrite H | reflexivity]. Qed.

Lemma filter_when_hit (b : bool) (x : jsstring) :
  kind x = true -> filter kind (Rules.when b x) = Rules.when b x.
Proof. intros H; destruct b; simpl; [now rewrite H | reflexivity]. Qed.

End OneKind.

Ltac other_rule :=
  unfold Rules.voiceCount, Rules.lineBudget, Rules.tempo,
    Rules.forbiddenSamples, Rules.randomness, Rules.extremeEffects,
    Rules.effectDensity;
  match goal with
  | |- filter _ (Rules.when _ _ ++ _) = _ =>
      rewrite filter_app; rewrite !filter_when by reflexivity; reflexivity
  | |- filter _ (Rules.when _ _) = _ => apply filter_when; reflexivity
  end.

Lemma invalid_methods_cases code x :
  In x (findInvalidMethodUsage code) ->
  x = js "invalid method .note(...) - use note(...) or .detune(...) instead"
  \/ x = js "invalid method .resonance(...) - use .lpq(...) instead"
  \/ x = js "invalid method .euclidean(...) - not available in this build"
  \/ x = js "string literal method call detected - apply transforms to patterns, not strings".
Proof.
  unfold findInvalidMethodUsage; cbv zeta.
  rewrite !push_if. rewrite !in_app_iff. cbn [app].
  unfold Rules.when.
  repeat match goal with
         | |- context [if ?c then _ else _] => destruct c
         end; simpl; intuition.
Qed.

Lemma dangerous_cases code x :
  hasDangerousPatterns code = Some x ->
  x = js "extremely fast pattern detected (>64x) - may cause audio glitches"
  \/ x = js "extremely high note values detected - may cause issues".
Proof.
  unfold hasDangerousPatterns.
  repeat match goal with
         | |- (if ?c then _ else _) = _ -> _ => destruct c
         end; intros H; inversion H; auto.
Qed.

Lemma filter_none {A} (f : A -> bool) (l : list A) :
  (forall x, In x l -> f x = false) -> filter f l = [].
Proof.
  induction l as [|a l IH]; simpl; intros H; [reflexivity|].
  rewrite (H a) by auto. apply IH; auto.
Qed.

Section Kinds.

Variable code : jsstring.
Variable cfg : ValidationConfig.

Lemma invalid_filter (kind : jsstring -> bool) :
  kind (js "invalid method .note(...) - use note(...) or .detune(...) instead") = false ->
  kind (js "invalid method .resonance(...) - use .lpq(...) instead") = false ->
  kind (js "invalid method .euclidean(...) - not available in this build") = false ->
  kind (js "string literal method call detected - apply transforms to patterns, not strings") = false ->
  filter kind (Rules.invalidMethods code) = [].
Proof.
  intros H1 H2 H3 H4. apply filter_none. intros x Hx.
  apply invalid_methods_cases in Hx.
  destruct Hx as [->|[->|[->| ->]]]; assumption.
Qed.

Lemma dangerous_filter (kind : jsstring -> bool) :
  kind (js "extremely fast pattern detected (>64x) - may cause audio glitches") = false ->
  kind (js "extremely high note values detected - may cause issues") = false ->
  filter kind (Rules.dangerousPatterns code) = [].
Proof.
  intros H1 H2. unfold Rules.dangerousPatterns.
  destruct (hasDangerousPatterns code) as [x|] eqn:E; [|reflexivity].
  apply dangerous_cases in E. destruct E as [-> | ->]; simpl.
  - now rewrite H1.
  - now rewrite H2.
Qed.

Lemma syntax_filter (kind : jsstring -> bool) :
  (forall s, Rules.syntaxIssueForm s -> kind s = false) ->
  filter kind (Rules.syntaxBalance code) = [].
Proof.
  intros H. unfold Rules.syntaxBalance.
  destruct (getSyntaxIssue code) as [x|] eqn:E; [|reflexivity].
  simpl. now rewrite (H x (syntax_form _ E)).
Qed.

(** Only the randomness rule reports a randomness issue. *)
Lemma randomness_only :
  filter Rules.isRandomnessIssue (List.concat (Rules.all code cfg))
  = Rules.randomness code cfg.
Proof.
  unfold Rules.all, List.concat. rewrite !filter_app, app_nil_r.
  replace (filter Rules.isRandomnessIssue (Rules.voiceCount code cfg))
    with (@nil jsstring) by (symmetry; other_rule).
  replace (filter Rules.isRandomnessIssue (Rules.lineBudget code cfg))
    with (@nil jsstring) by (symmetry; other_rule).
  replace (filter Rules.isRandomnessIssue (Rules.tempo code cfg))
    with (@nil jsstring) by (symmetry; other_rule).
  replace (filter Rules.isRandomnessIssue (Rules.forbiddenSamples code cfg))
    with (@nil jsstring) by (symmetry; other_rule).
  replace (filter Rules.isRandomnessIssue (Rules.extremeEffects code cfg))
    with (@nil jsstring) by (symmetry; other_rule).
  replace (filter Rules.isRandomnessIssue (Rules.effectDensity code cfg))
    with (@nil jsstring) by (symmetry; other_rule).
  rewrite invalid_filter by reflexivity.
  rewrite dangerous_filter by reflexivity.
  rewrite syntax_filter by (intros s []; reflexivity).
  cbn [app]. rewrite app_nil_r.
  apply filter_when_hit. reflexivity.
Qed.

(** Only the rule of the effect magnitudes reports an extreme-effect
    issue. *)
Lemma extreme_only :
  filter Rules.isExtremeIssue (List.concat (Rules.all code cfg))
  = Rules.extremeEffects code cfg.
Proof.
  unfold Rules.all, List.concat. rewrite !filter_app, app_nil_r.
  replace (filter Rules.isExtremeIssue (Rules.voiceCount code cfg))
    with (@nil jsstring) by (symmetry; other_rule).
  replace (filter Rules.isExtremeIssue (Rules.lineBudget code cfg))
    with (@nil jsstring) by (symmetry; other_rule).
  replace (filter Rules.isExtremeIssue (Rules.tempo code cfg))
    with (@nil jsstring) by (symmetry; other_rule).
  replace (filter Rules.isExtremeIssue (Rules.forbiddenSamples code cfg))
    with (@nil jsstring) by (symmetry; other_rule).
  replace (filter Rules.isExtremeIssue (Rules.randomness code cfg))
    with (@nil jsstring) by (symmetry; other_rule).
  replace (filter Rules.isExtremeIssue (Rules.effectDensity code cfg))
    with (@nil jsstring) by (symmetry; other_rule).
  rewrite invalid_filter by reflexivity.
  rewrite dangerous_filter by reflexivity.
  rewrite syntax_filter by (intros s []; reflexivity).
  cbn [app]. rewrite app_nil_r.
  apply filter_when_hit. reflexivity.
Qed.

(** Only the syntax rule reports an unbalanced mini-notation. *)
Lemma mini_only :
  filter Rules.isMiniNotationIssue (List.concat (Rules.all code cfg))
  = filter Rules.isMiniNotationIssue (Rules.syntaxBalance code).
Proof.
  unfold Rules.all, List.concat. rewrite !filter_app, app_nil_r.
  replace (filter Rules.isMiniNotationIssue (Rules.voiceCount code cfg))
    with (@nil jsstring) by (symmetry; other_rule).
  replace (filter Rules.isMiniNotationIssue (Rules.lineBudget code cfg))
    with (@nil jsstring) by (symmetry; other_rule).
  replace (filter Rules.isMiniNotationIssue (Rules.tempo code cfg))
    with (@nil jsstring) by (symmetry; other_rule).
  replace (filter Rules.isMiniNotationIssue (Rules.forbiddenSamples code cfg))
    with (@nil jsstring) by (symmetry; other_rule).
  replace (filter Rules.isMiniNotationIssue (Rules.randomness code cfg))
    with (@nil jsstring) by (symmetry; other_rule).
  replace (filter Rules.isMiniNotationIssue (Rules.extremeEffects code cfg))
    with (@nil jsstring) by (symmetry; other_rule).
  replace (filter Rules.isMiniNotationIssue (Rules.effectDensity code cfg))
    with (@nil jsstring) by (symmetry; other_rule).
  rewrite invalid_filter by reflexivity.
  rewrite dangerous_filter by reflexivity.
  cbn [app]. now rewrite app_nil_r.
Qed.

End Kinds.

End IssueKinds.

(** ** C3 and C7 *)

Module ValidatorClaims.

Import ValidateOutput ValidatorFacts IssueKinds.

(** C3.  [validateStrudelCode] is a function of its two arguments.  On every
    call the list of issues is the concatenation, in the fixed order, of
    what each of the ten rules reports on its own (voice count, line budget
    and minimum, tempo, forbidden samples, randomness budget, extreme effect
    magnitudes, syntax balance, invalid method usage, effect density,
    dangerous patterns): no rule is skipped because an earlier one failed,
    and [valid] is true exactly when the list is empty.  On an artifact on
    which the tempo rule, the sample rule and the method rule fail together
    (and which is too short), all their issues are in the one result. *)
Theorem validateStrudelCode_aggregates_all_rules
  (code : jsstring) (config : PartialConfig) :
  let cfg := merge DEFAULT_CONFIG config in
  let r := validateStrudelCode code config in
  issues r
  = Rules.voiceCount code cfg ++ Rules.lineBudget code cfg
    ++ Rules.tempo code cfg ++ Rules.forbiddenSamples code cfg
    ++ Rules.randomness code cfg ++ Rules.extremeEffects code cfg
    ++ Rules.syntaxBalance code ++ Rules.invalidMethods code
    ++ Rules.effectDensity code cfg ++ Rules.dangerousPatterns code
  /\ valid r = match issues r with [] => true | _ :: _ => false end
  /\ issues (validateStrudelCode Samples.threeFailures noOverrides)
     = [ js "code too short - add more content";
         js "missing setcpm() - set tempo at the start";
         js "uses external/localhost samples - only use built-in samples";
         js "invalid method .euclidean(...) - not available in this build" ].
Proof.
  intros cfg r. split; [|split].
  - unfold r, cfg. rewrite issues_concat.
    unfold Rules.all, List.concat. now rewrite app_nil_r.
  - unfold r, validateStrudelCode; cbv zeta; cbn [valid issues].
    match goal with |- Nat.eqb (List.length ?l) 0 = _ => generalize l end.
    intros [|x l]; reflexivity.
  - vm_compute. reflexivity.
Qed.

(** C7.  The randomness count is the sum of the numbers of [rand]/[irand]
    calls, of [perlin] references and of calls of the probability
    transforms ([sometimesBy], [sometimes], [rarely], [almostNever],
    [almostAlways], [choose], [chooseCycles]) in the whole artifact.  The
    randomness issues of a result are: the one issue citing the count over
    the maximum when the count exceeds [maxRandomUsage], and none
    otherwise.  An artifact with 9 such operations gets no randomness issue
    under the maximum of 15; the artifact with 16 gets the one containing
    16/15. *)
Theorem randomness_budget (code : jsstring) (config : PartialConfig) :
  let cfg := merge DEFAULT_CONFIG config in
  let count := countRandomUsage code in
  (count
   = List.length (matchG reRand code) + List.length (matchG rePerlin code)
     + List.length (matchG reProb code))%nat
  /\ filter Rules.isRandomnessIssue (issues (validateStrudelCode code config))
     = (if gt (ofNat count) (maxRandomUsage cfg)
        then [js "excessive randomness (" ++ toString (ofNat count) ++ js "/"
              ++ toString (maxRandomUsage cfg)
              ++ js " max) - reduce variation techniques"]
        else [])
  /\ (countRandomUsage Samples.random9 = 9%nat
      /\ maxRandomUsage (merge DEFAULT_CONFIG noOverrides) = ofZ 15
      /\ filter Rules.isRandomnessIssue
           (issues (validateStrudelCode Samples.random9 noOverrides)) = [])
  /\ (countRandomUsage Samples.random16 = 16%nat
      /\ List.map (includes (js "16/15"))
           (filter Rules.isRandomnessIssue
              (issues (validateStrudelCode Samples.random16 noOverrides)))
         = [true]).
Proof.
  intros cfg count. split; [|split; [|split]].
  - reflexivity.
  - rewrite issues_concat. fold cfg. rewrite randomness_only. reflexivity.
  - vm_compute. auto.
  - vm_compute. auto.
Qed.

End ValidatorClaims.

(** ** The extractor: C5 and C6 *)

Module ExtractorClaims.

Import ParseOutput Stated.

Lemma count_fold (text : jsstring) (l : list re) (n : nat) :
  fold_left (fun matches pattern =>
               if test pattern text then S matches else matches) l n
  = (n + List.length (filter (fun pattern => test pattern text) l))%nat.
Proof.
  revert n; induction l as [|p l IH]; intros n; simpl.
  - lia.
  - rewrite IH. destruct (test p text); simpl; lia.
Qed.

Lemma looks_like_markers (text : jsstring) :
  looksLikeStrudelCode text = Nat.leb 2 (markersMatching text).
Proof. unfold looksLikeStrudelCode. now rewrite count_fold. Qed.

Lemma not_blank_guard (response : jsstring) :
  blank response = false ->
  (Nat.eqb (List.length response) 0
   || Nat.eqb (List.length (trim response)) 0)%bool = false.
Proof.
  unfold blank. intros H.
  destruct response as [|c t]; [discriminate|].
  destruct (trim (c :: t)); [discriminate | reflexivity].
Qed.

Lemma content_error_present (artifact : jsstring) :
  contentValid (validateCodeContent artifact) = false ->
  exists msg, contentError (validateCodeContent artifact) = Some msg.
Proof.
  unfold validateCodeContent.
  repeat match goal with
         | |- context [if ?c then _ else _] => destruct c
         end; cbn [contentValid contentError]; intros H;
    solve [eexists; reflexivity | discriminate].
Qed.

(** The blank response: no fenced block, no marker, and yet another
    error than the one the case analysis gives. *)
Lemma caseAnalysis_fails_on_empty_response : ~ caseAnalysis [].
Proof.
  unfold caseAnalysis. vm_compute.
  intros (_ & _ & msg & E & H). injection E as <-. discriminate.
Qed.

(** C5, amended.  For every response that is not empty or white space
    only, [parseClaudeOutput] goes by the number of fenced blocks of the
    trimmed response: with none, the trimmed text is taken as the artifact
    when at least two of the five markers match it, and parsing fails with
    the error [no code block found in response] otherwise; with more than
    one, parsing fails with an error naming the number found; with exactly
    one whose inner text trims to nothing, parsing fails with
    [code block is empty]. *)
Theorem parseClaudeOutput_case_analysis (response : jsstring)
  (Hnonblank : blank response = false) :
  caseAnalysis response /\ noBlockError response.
Proof.
  split.
  2: { unfold noBlockError, parseClaudeOutput.
       rewrite (not_blank_guard _ Hnonblank).
       destruct (matchAll codeBlockRegex (trim response)); [|exact I].
       rewrite looks_like_markers.
       destruct (Nat.leb 2 (markersMatching (trim response)));
         [exact I | reflexivity]. }
  unfold caseAnalysis, parseClaudeOutput.
  rewrite (not_blank_guard _ Hnonblank).
  destruct (matchAll codeBlockRegex (trim response)) as [|m [|m' l]] eqn:E.
  - rewrite looks_like_markers.
    destruct (Nat.leb 2 (markersMatching (trim response))).
    + reflexivity.
    + repeat split. eexists; split; reflexivity.
  - intros Hempty. cbn [List.length Nat.ltb Nat.leb].
    replace (match group 1 m with Some inner => trim inner | None => [] end)
      with (trim (innerOf m))
      by (unfold innerOf; destruct (group 1 m); reflexivity).
    rewrite Hempty. repeat split. eexists; split; reflexivity.
  - repeat split.
Qed.

Lemma parseClaudeOutput_case_analysis_witness :
  blank (js "make it slower") = false
  /\ caseAnalysis (js "make it slower")
  /\ noBlockError (js "make it slower").
Proof.
  split; [reflexivity|].
  apply (parseClaudeOutput_case_analysis (js "make it slower")). reflexivity.
Defined.

(** C6.  Whatever the response, the result of [parseClaudeOutput] has
    exactly one of [code] and [error] set: either it is a success with a
    code and no error, or a failure with an error and no code. *)
Theorem parseClaudeOutput_code_xor_error (response : jsstring) :
  let r := parseClaudeOutput response in
  (success r = true /\ (exists c, code r = Some c) /\ error r = None)
  \/ (success r = false /\ code r = None /\ exists msg, error r = Some msg).
Proof.
  unfold parseClaudeOutput.
  destruct (_ || _)%bool.
  { right; cbn; repeat split; eexists; reflexivity. }
  destruct (matchAll codeBlockRegex (trim response)) as [|m l].
  - destruct (looksLikeStrudelCode (trim response)).
    + destruct (contentValid (validateCodeContent (trim response))) eqn:V;
        cbn [negb].
      * left; cbn; repeat split; eexists; reflexivity.
      * right; cbn; repeat split. now apply content_error_present.
    + right; cbn; repeat split; eexists; reflexivity.
  - destruct (Nat.ltb 1 (List.length (m :: l))).
    { right; cbn; repeat split; eexists; reflexivity. }
    destruct (Nat.eqb _ 0).
    { right; cbn; repeat split; eexists; reflexivity. }
    match goal with
    | |- context [validateCodeContent ?a] =>
        destruct (contentValid (validateCodeContent a)) eqn:V
    end; cbn [negb].
    + left; cbn; repeat split; eexists; reflexivity.
    + right; cbn; repeat split. now apply content_error_present.
Qed.

End ExtractorClaims.

(** ** The unchanged test: C10 *)

Module UnchangedClaims.

Import ParseOutput Lines.

Lemma eqs_eq (a b : jsstring) : eqs a b = true <-> a = b.
Proof.
  revert b; induction a as [|x a IH]; intros [|y b]; simpl;
    try (split; congruence).
  rewrite andb_true_iff, N.eqb_eq, IH. split.
  - intros [-> ->]; reflexivity.
  - intros H; injection H; auto.
Qed.

Lemma eqs_refl (a : jsstring) : eqs a a = true.
Proof. now apply eqs_eq. Qed.

Lemma eqs_sym (a b : jsstring) : eqs a b = eqs b a.
Proof.
  destruct (eqs a b) eqn:E.
  - apply eqs_eq in E; subst. symmetry; apply eqs_refl.
  - destruct (eqs b a) eqn:E'; [|reflexivity].
    apply eqs_eq in E'; subst. now rewrite eqs_refl in E.
Qed.

Lemma splitLF_cons (c : cu) (s : jsstring) :
  splitLF (c :: s)
  = if N.eqb c LF then [] :: splitLF s else prepend [c] (splitLF s).
Proof.
  simpl. destruct (N.eqb c LF); [reflexivity|].
  destruct (splitLF s); reflexivity.
Qed.

Lemma splitLF_not_nil (s : jsstring) : splitLF s <> [].
Proof.
  destruct s as [|c s]; simpl; [discriminate|].
  destruct (N.eqb c LF); [discriminate|].
  destruct (splitLF s); discriminate.
Qed.

Lemma splitLF_app_LF (a b : jsstring) :
  splitLF (a ++ LF :: b) = splitLF a ++ splitLF b.
Proof.
  induction a as [|c a IH].
  - reflexivity.
  - cbn [app]. rewrite !splitLF_cons, IH.
    destruct (N.eqb c LF); [reflexivity|].
    destruct (splitLF a) eqn:E; [|reflexivity].
    now destruct (splitLF_not_nil _ E).
Qed.

Lemma keep_app (l1 l2 : list jsstring) : keep (l1 ++ l2) = keep l1 ++ keep l2.
Proof. unfold keep. now rewrite map_app, filter_app. Qed.

Lemma keep_cons (l : jsstring) (ls : list jsstring) :
  keep (l :: ls) = keep [l] ++ keep ls.
Proof. apply (keep_app [l] ls). Qed.

Lemma trimStart_allSpace (w : jsstring) :
  allSpace w = true -> trimStart w = [].
Proof.
  induction w as [|c w IH]; simpl; [reflexivity|].
  rewrite andb_true_iff. intros [-> H]. auto.
Qed.

Lemma trimStart_space_app (w l : jsstring) :
  allSpace w = true -> trimStart (w ++ l) = trimStart l.
Proof.
  induction w as [|c w IH]; simpl; [reflexivity|].
  rewrite andb_true_iff. intros [-> H]. auto.
Qed.

Lemma trimStart_app_space (l w : jsstring) :
  allSpace w = true ->
  trimStart (l ++ w)
  = match trimStart l with [] => [] | _ :: _ => trimStart l ++ w end.
Proof.
  intros Hw. induction l as [|c l IH]; simpl.
  - now apply trimStart_allSpace.
  - destruct (isSpace c); [exact IH | reflexivity].
Qed.

Lemma allSpace_rev (w : jsstring) : allSpace (rev w) = allSpace w.
Proof.
  unfold allSpace. induction w as [|c w IH]; simpl; [reflexivity|].
  rewrite forallb_app, IH. simpl. rewrite andb_true_r. apply andb_comm.
Qed.

Lemma trimEnd_app_space (t w : jsstring) :
  allSpace w = true -> trimEnd (t ++ w) = trimEnd t.
Proof.
  intros Hw. unfold trimEnd. rewrite rev_app_distr.
  rewrite trimStart_space_app; [reflexivity|]. now rewrite allSpace_rev.
Qed.

Lemma trim_space_l (w l : jsstring) :
  allSpace w = true -> trim (w ++ l) = trim l.
Proof. intros Hw. unfold trim. now rewrite trimStart_space_app. Qed.

Lemma trim_space_r (l w : jsstring) :
  allSpace w = true -> trim (l ++ w) = trim l.
Proof.
  intros Hw. unfold trim. rewrite trimStart_app_space by assumption.
  destruct (trimStart l) eqn:E; [reflexivity|].
  now apply trimEnd_app_space.
Qed.

Lemma keep_one_space_r (p w : jsstring) :
  allSpace w = true -> keep [p ++ w] = keep [p].
Proof. intros Hw. unfold keep; simpl. now rewrite trim_space_r. Qed.

Lemma prepend_prepend (p q : jsstring) (ls : list jsstring) :
  prepend p (prepend q ls) = prepend (p ++ q) ls.
Proof. destruct ls; simpl; now rewrite <- ?app_assoc. Qed.

Lemma prepend_nil (ls : list jsstring) : ls <> [] -> prepend [] ls = ls.
Proof. destruct ls; [congruence | reflexivity]. Qed.

Lemma keep_prepend_LF (p : jsstring) (ls : list jsstring) :
  keep (prepend p ([] :: ls)) = keep [p] ++ keep ls.
Proof. simpl. rewrite app_nil_r. apply keep_cons. Qed.

(** The lines of white space are all dropped. *)
Lemma keep_space (w p : jsstring) :
  allSpace w = true -> keep (prepend p (splitLF w)) = keep [p].
Proof.
  revert p. induction w as [|c w IH]; intros p Hw.
  - simpl. now rewrite app_nil_r.
  - simpl in Hw. apply andb_true_iff in Hw as [Hc Hw].
    rewrite splitLF_cons. destruct (N.eqb c LF).
    + rewrite keep_prepend_LF.
      rewrite <- (prepend_nil (splitLF_not_nil w)), IH by assumption.
      now rewrite app_nil_r.
    + rewrite prepend_prepend, IH by assumption.
      apply keep_one_space_r. simpl. now rewrite Hc.
Qed.

(** White space at the end of a text. *)
Lemma keep_space_after (a w p : jsstring) :
  allSpace w = true ->
  keep (prepend p (splitLF (a ++ w))) = keep (prepend p (splitLF a)).
Proof.
  intros Hw. revert p. induction a as [|c a IH]; intros p.
  - cbn [app]. rewrite keep_space by assumption.
    simpl. now rewrite app_nil_r.
  - cbn [app]. rewrite !splitLF_cons. destruct (N.eqb c LF).
    + rewrite !keep_prepend_LF.
      rewrite <- (prepend_nil (splitLF_not_nil (a ++ w))), IH.
      now rewrite (prepend_nil (splitLF_not_nil a)).
    + rewrite !prepend_prepend. apply IH.
Qed.

(** White space at the start of a text. *)
Lemma keep_space_before (w b : jsstring) :
  allSpace w = true -> keep (splitLF (w ++ b)) = keep (splitLF b).
Proof.
  induction w as [|c w IH]; intros Hw; [reflexivity|].
  simpl in Hw. apply andb_true_iff in Hw as [Hc Hw].
  cbn [app]. rewrite splitLF_cons. destruct (N.eqb c LF).
  - rewrite keep_cons. simpl. now apply IH.
  - rewrite <- IH by assumption.
    destruct (splitLF (w ++ b)) as [|l ls] eqn:E.
    + now destruct (splitLF_not_nil _ E).
    + cbn [prepend]. rewrite keep_cons, (keep_cons l ls). f_equal.
      unfold keep; cbn [List.map].
      rewrite (trim_space_l [c] l); [reflexivity|].
      simpl. now rewrite Hc.
Qed.

Lemma keep_insert (a w b : jsstring) :
  allSpace w = true -> atLineEdge a b = true ->
  keep (splitLF (a ++ w ++ b)) = keep (splitLF (a ++ b)).
Proof.
  intros Hw He. unfold atLineEdge in He. apply orb_true_iff in He.
  destruct He as [He|He].
  - destruct (rev a) as [|c ra] eqn:E.
    + apply (f_equal (@rev cu)) in E. rewrite rev_involutive in E.
      subst a. simpl. now apply keep_space_before.
    + apply N.eqb_eq in He. subst c.
      apply (f_equal (@rev cu)) in E. rewrite rev_involutive in E.
      subst a. simpl. rewrite <- !app_assoc. cbn [app].
      rewrite !splitLF_app_LF, !keep_app.
      now rewrite keep_space_before.
  - destruct b as [|c b].
    + rewrite !app_nil_r.
      rewrite <- (prepend_nil (splitLF_not_nil (a ++ w))).
      rewrite keep_space_after by assumption.
      now rewrite (prepend_nil (splitLF_not_nil a)).
    + apply N.eqb_eq in He. subst c.
      rewrite app_assoc, !splitLF_app_LF, !keep_app. f_equal.
      rewrite <- (prepend_nil (splitLF_not_nil (a ++ w))).
      rewrite keep_space_after by assumption.
      now rewrite (prepend_nil (splitLF_not_nil a)).
Qed.

Lemma normalize_insert (a w b : jsstring) :
  allSpace w = true -> atLineEdge a b = true ->
  normalize (a ++ w ++ b) = normalize (a ++ b).
Proof.
  intros Hw He. unfold normalize.
  change (join [LF] (keep (splitLF (a ++ w ++ b)))
          = join [LF] (keep (splitLF (a ++ b)))).
  now rewrite keep_insert.
Qed.

(** C10.  The comparison of [isCodeUnchanged] holds of every text with
    itself and is symmetric; and white space [w] (blank lines included: a
    line feed is white space) put in, or taken out, at the start or the end
    of a line of either argument does not change its result. *)
Theorem isCodeUnchanged_ignores_blank_lines_and_edge_space
  (a w b : jsstring)
  (Hspace : allSpace w = true) (Hedge : atLineEdge a b = true) :
  (forall x, isCodeUnchanged x x = true)
  /\ (forall x y, isCodeUnchanged x y = isCodeUnchanged y x)
  /\ (forall y,
        isCodeUnchanged (a ++ w ++ b) y = isCodeUnchanged (a ++ b) y
        /\ isCodeUnchanged y (a ++ w ++ b) = isCodeUnchanged y (a ++ b)).
Proof.
  split; [|split].
  - intros x. apply eqs_refl.
  - intros x y. apply eqs_sym.
  - intros y. unfold isCodeUnchanged.
    now rewrite normalize_insert.
Qed.

Lemma isCodeUnchanged_witness :
  allSpace (jsq " | ") = true
  /\ atLineEdge (jsq "setcpm(60)|") (jsq "$: s(~bd~) ") = true
  /\ isCodeUnchanged (jsq "setcpm(60)|" ++ jsq " | " ++ jsq "$: s(~bd~) ")
                     (jsq "setcpm(60)|$: s(~bd~)") = true.
Proof.
  split; [reflexivity | split; [reflexivity|]].
  destruct (isCodeUnchanged_ignores_blank_lines_and_edge_space
              (jsq "setcpm(60)|") (jsq " | ") (jsq "$: s(~bd~) ")
              eq_refl eq_refl) as (_ & _ & H).
  rewrite (proj1 (H _)). reflexivity.
Defined.

End UnchangedClaims.

(** ** The orchestrator: C1 and C2 *)

Module FlowClaims.

Import Route StatedFlow.

Lemma forward_run (texts : list (option jsstring)) (fullText : jsstring)
  (s : ostate) :
  forward texts fullText s
  = ({| out := out s ++ deltas (present texts); closed := closed s;
        streams := streams s; validations := validations s |},
     inl (fullText ++ List.concat (present texts))).
Proof.
  revert fullText s. induction texts as [|[text|] more IH]; intros fullText s.
  - simpl. rewrite !app_nil_r. now destruct s.
  - cbn [forward]. unfold bind, enqueue. rewrite IH. cbn.
    now rewrite <- !app_assoc.
  - cbn [forward]. apply IH.
Qed.

Lemma streamClaude_run (c : client claudeEvent) (sys p : jsstring)
  (s : ostate) :
  let st := c (streams s) sys p in
  let view := {| delivered := present (List.map claudeText (delivered st));
                 failure := failure st |} in
  streamClaude c sys p s = (after s (delivered view), ended view).
Proof.
  unfold streamClaude, bind, startStream. rewrite forward_run.
  unfold endOf, ended, after, throw, ret. cbn.
  destruct (failure _); reflexivity.
Qed.

Lemma streamOpenAI_run (c : client openaiChunk) (sys p : jsstring)
  (s : ostate) :
  let st := c (streams s) sys p in
  let view := {| delivered := present (List.map nonEmpty (delivered st));
                 failure := failure st |} in
  streamOpenAI c sys p s = (after s (delivered view), ended view).
Proof.
  unfold streamOpenAI, bind, startStream. rewrite forward_run.
  unfold endOf, ended, after, throw, ret. cbn.
  destruct (failure _); reflexivity.
Qed.

(** The caller's loop over forwarded texts. *)
Lemma accumulate_deltas (texts : list jsstring) (more : list event)
  (accumulated : jsstring) :
  Client.accumulate (deltas texts ++ more) accumulated
  = Client.accumulate more (accumulated ++ List.concat texts).
Proof.
  revert accumulated. induction texts as [|t texts IH]; intros accumulated.
  - simpl. now rewrite app_nil_r.
  - cbn [deltas List.map app Client.accumulate List.concat].
    fold (deltas texts). destruct t as [|c t].
    + rewrite IH. reflexivity.
    + rewrite IH. now rewrite <- app_assoc.
Qed.

Lemma filter_deltas (f : event -> bool) (texts : list jsstring) :
  (forall t, f (ContentBlockDelta t) = false) ->
  filter f (deltas texts) = [].
Proof.
  intros H. induction texts as [|t texts IH]; simpl; [reflexivity|].
  now rewrite H.
Qed.

Section Flow.

Variable buildUserPrompt : jsstring -> jsstring.
Variable provider : providerName.
Variable openaiClient : option (client openaiChunk).
Variable anthropicClient : option (client claudeEvent).
Variable systemPrompt userPrompt : jsstring.
Variable prompt : jsstring.
Variable mode : generationMode.
Variable currentCode : option jsstring.
Variable config : CreativeDirectives.ConfigValues.

(** A call of the provider, as the first attempt makes it. *)
Lemma first_call_run (fallback : M jsstring)
  (p : jsstring) (s : ostate) (st : stream jsstring) :
  answer provider openaiClient anthropicClient systemPrompt (streams s) p
  = Some st ->
  match isOpenai provider, openaiClient, anthropicClient with
  | true, Some c, _ => streamOpenAI c systemPrompt p
  | _, _, Some c => streamClaude c systemPrompt p
  | _, _, None => fallback
  end s
  = (after s (delivered st), ended st).
Proof.
  unfold answer.
  destruct (isOpenai provider), openaiClient as [oc|], anthropicClient as [ac|];
    intros H; try discriminate; injection H as <-;
    rewrite ?streamOpenAI_run, ?streamClaude_run; reflexivity.
Qed.

(** A call of the provider, as the second attempt makes it. *)
Lemma second_call_run (fallback : M unit)
  (p : jsstring) (s : ostate) (st : stream jsstring) :
  answer provider openaiClient anthropicClient systemPrompt (streams s) p
  = Some st ->
  match isOpenai provider, openaiClient, anthropicClient with
  | true, Some c, _ => streamOpenAI c systemPrompt p ;;; ret tt
  | _, _, Some c => streamClaude c systemPrompt p ;;; ret tt
  | _, _, None => fallback
  end s
  = (after s (delivered st),
     match failure st with Some e => inr e | None => inl tt end).
Proof.
  unfold answer.
  destruct (isOpenai provider), openaiClient as [oc|], anthropicClient as [ac|];
    intros H; try discriminate; injection H as <-;
    unfold bind;
    rewrite ?streamOpenAI_run, ?streamClaude_run; cbn zeta;
    unfold ended; cbn [failure delivered];
    destruct (failure _); reflexivity.
Qed.

Lemma answer_again (n m : nat) (p q : jsstring) (st : stream jsstring) :
  answer provider openaiClient anthropicClient systemPrompt n p = Some st ->
  exists st',
    answer provider openaiClient anthropicClient systemPrompt m q = Some st'.
Proof.
  unfold answer.
  destruct (isOpenai provider), openaiClient, anthropicClient;
    intros H; try discriminate; eexists; reflexivity.
Qed.

(** The run of a request whose first attempt is rejected by the
    validator. *)
Lemma run_retry (st1 st2 : stream jsstring) (code : jsstring) :
  let validation :=
    ValidateOutput.validateStrudelCode code (policy config) in
  let retry :=
    retryUserPromptFor buildUserPrompt prompt mode currentCode
                       (ValidateOutput.issues validation) in
  firstAnswer provider openaiClient anthropicClient systemPrompt userPrompt
  = Some st1 ->
  failure st1 = None ->
  extractCodeForValidation (List.concat (delivered st1)) = Some code ->
  ValidateOutput.valid validation = false ->
  answer provider openaiClient anthropicClient systemPrompt 1 retry
  = Some st2 ->
  final buildUserPrompt provider openaiClient anthropicClient systemPrompt
        userPrompt prompt mode currentCode config
  = {| out := deltas (delivered st1)
              ++ [Status (js "simplifying..."); Clear]
              ++ deltas (delivered st2) ++ [lastEvent st2];
       closed := true; streams := 2; validations := 1 |}.
Proof.
  intros validation retry H1 Hend Hex Hbad H2.
  unfold final, run, start, tryCatch, attempt.
  unfold bind at 1.
  rewrite (first_call_run _ _ initial H1).
  unfold ended. rewrite Hend, Hex.
  unfold bind at 1. unfold bind at 1. unfold validate at 1.
  cbn [fst snd]. fold validation. rewrite Hbad. cbn [negb].
  unfold bind at 1. unfold enqueue at 1.
  unfold bind at 1. unfold enqueue at 1.
  fold (retryUserPromptFor buildUserPrompt prompt mode currentCode
          (ValidateOutput.issues validation)).
  fold retry.
  erewrite second_call_run; [|exact H2].
  unfold lastEvent. destruct (failure st2) as [e|];
    cbn; rewrite <- ?app_assoc; reflexivity.
Qed.

(** The run of a request whose first attempt yields nothing to
    validate. *)
Lemma run_no_artifact (st1 : stream jsstring) :
  firstAnswer provider openaiClient anthropicClient systemPrompt userPrompt
  = Some st1 ->
  failure st1 = None ->
  extractCodeForValidation (List.concat (delivered st1)) = None ->
  final buildUserPrompt provider openaiClient anthropicClient systemPrompt
        userPrompt prompt mode currentCode config
  = {| out := deltas (delivered st1) ++ [Done];
       closed := true; streams := 1; validations := 0 |}.
Proof.
  intros H1 Hend Hex.
  unfold final, run, start, tryCatch, attempt.
  unfold bind at 1.
  rewrite (first_call_run _ _ initial H1).
  unfold ended. rewrite Hend, Hex. reflexivity.
Qed.



End Flow.




End FlowClaims.

(** ** The normalizer: C4 *)

Module NormalizerClaims.

Import ParseOutput Escapes RegexFacts.

(** The pattern of a backslash and a given unit. *)
Lemma exec_quote_pair (c : cu) (p : option cu) (s : jsstring) :
  execAt (lit [BSL; c]) p s = pairAt (N.eqb c) (fun _ => []) s.
Proof.
  unfold execAt, pairAt. destruct s as [|x [|y t]]; cbn -[N.eqb Nat.sub].
  - reflexivity.
  - destruct (N.eqb BSL x); reflexivity.
  - rewrite (N.eqb_sym x BSL).
    destruct (N.eqb BSL x) eqn:E; [|reflexivity].
    destruct (N.eqb c y); [|reflexivity].
    cbn -[N.eqb Nat.sub]. now rewrite two_more.
Qed.

(** The pattern of a backslash and a captured letter. *)
Lemma exec_letter_pair (p : option cu) (s : jsstring) :
  execAt (Cat (chr BSL) (Group 1 (anyOf (js "nrt")))) p s
  = pairAt isLetterEscape (fun y => [(1%nat, [y])]) s.
Proof.
  unfold execAt, pairAt. destruct s as [|x [|y t]]; cbn -[N.eqb existsb Nat.sub].
  - reflexivity.
  - destruct (N.eqb BSL x); reflexivity.
  - rewrite (N.eqb_sym x BSL).
    destruct (N.eqb BSL x) eqn:E; [|reflexivity].
    change (existsb (N.eqb y) _) with (isLetterEscape y).
    destruct (isLetterEscape y); [|reflexivity].
    cbn -[N.eqb Nat.sub]. now rewrite two_more, one_more.
Qed.

Lemma unescape_two (isEsc : cu -> bool) (f : cu -> cu) (x y : cu)
  (t : jsstring) :
  unescape isEsc f (x :: y :: t)
  = if (N.eqb x BSL && isEsc y)%bool then f y :: unescape isEsc f t
    else x :: unescape isEsc f (y :: t).
Proof. reflexivity. Qed.

Section Pass.

Variable r : re.
Variable isEsc : cu -> bool.
Variable captures : cu -> list (nat * jsstring).
Variable replacer : rmatch -> jsstring.
Variable f : cu -> cu.

Hypothesis exec_pair : forall p s, execAt r p s = pairAt isEsc captures s.
Hypothesis replacer_pair :
  forall x y, replacer (RMatch [x; y] (captures y)) = [f y].

Lemma scan_pairs (n : nat) :
  forall s p, (List.length s <= n)%nat ->
              rebuilt replacer (scan r p 0 s) = unescape isEsc f s.
Proof.
  induction n as [|n IH]; intros s p Hn.
  - destruct s; [|simpl in Hn; lia].
    rewrite scan_end, exec_pair. reflexivity.
  - destruct s as [|x [|y t]].
    + rewrite scan_end, exec_pair. reflexivity.
    + rewrite scan_here, scan_end, !exec_pair. reflexivity.
    + rewrite scan_here, exec_pair, unescape_two. unfold pairAt.
      destruct (N.eqb x BSL && isEsc y)%bool.
      * cbn [mtext List.length]. rewrite scan_skip.
        unfold rebuilt. cbn [flat_map]. rewrite replacer_pair.
        cbn [app]. f_equal. apply IH. simpl in Hn. lia.
      * unfold rebuilt. cbn [flat_map app]. f_equal.
        apply IH. simpl in Hn |- *. lia.
Qed.

Lemma replaceG_pairs (s : jsstring) :
  replaceG r replacer s = unescape isEsc f s.
Proof. apply (scan_pairs (n := List.length s)). lia. Qed.

End Pass.

(** [cleanCode] is three passes over backslash pairs. *)
Lemma cleanCode_passes (s : jsstring) :
  cleanCode s
  = unescape isLetterEscape controlOf
      (unescape (N.eqb SQ) (fun _ => SQ)
         (unescape (N.eqb DQ) (fun _ => DQ) s)).
Proof.
  unfold cleanCode.
  rewrite (@replaceG_pairs (lit [BSL; DQ]) (N.eqb DQ) (fun _ => [])
             (fun _ => [DQ]) (fun _ => DQ)
             (exec_quote_pair DQ) (fun _ _ => eq_refl)).
  rewrite (@replaceG_pairs (lit [BSL; SQ]) (N.eqb SQ) (fun _ => [])
             (fun _ => [SQ]) (fun _ => SQ)
             (exec_quote_pair SQ) (fun _ _ => eq_refl)).
  apply (@replaceG_pairs _ isLetterEscape (fun y => [(1%nat, [y])])).
  - apply exec_letter_pair.
  - intros x y. unfold group, controlOf. cbn -[N.eqb].
    rewrite !andb_true_r.
    destruct (N.eqb y 110); [reflexivity|].
    destruct (N.eqb y 116); [reflexivity|].
    destruct (N.eqb y 114); reflexivity.
Qed.

Lemma unescape_head (isEsc : cu -> bool) (f : cu -> cu) (x : cu)
  (t : jsstring) :
  N.eqb x BSL = false ->
  unescape isEsc f (x :: t) = x :: unescape isEsc f t.
Proof. intros H. destruct t; simpl; [reflexivity | now rewrite H]. Qed.

Lemma noPair_two (P : cu -> bool) (x y : cu) (t : jsstring) :
  noPair P (x :: y :: t)
  = (negb (N.eqb x BSL && P y) && noPair P (y :: t))%bool.
Proof. reflexivity. Qed.

Lemma noPair_cons (P : cu -> bool) (x : cu) (l : jsstring) :
  N.eqb x BSL = false -> noPair P (x :: l) = noPair P l.
Proof. intros H. destruct l; simpl; [reflexivity | now rewrite H]. Qed.

Lemma noPair_tail (P : cu -> bool) (x : cu) (l : jsstring) :
  noPair P (x :: l) = true -> noPair P l = true.
Proof.
  destruct l; [reflexivity|]. rewrite noPair_two.
  intros H. now apply andb_true_iff in H.
Qed.

(** A pass does nothing where it finds no pair. *)
Lemma unescape_nothing (isEsc : cu -> bool) (f : cu -> cu) (s : jsstring) :
  noPair isEsc s = true -> unescape isEsc f s = s.
Proof.
  induction s as [|x t IH]; [reflexivity|].
  destruct t as [|y t]; [reflexivity|].
  rewrite noPair_two, unescape_two. intros H.
  apply andb_true_iff in H as [H1 H2].
  apply negb_true_iff in H1. rewrite H1. f_equal. now apply IH.
Qed.

Lemma noPair_weaken (P Q : cu -> bool) (s : jsstring) :
  (forall y, P y = true -> Q y = true) ->
  noPair Q s = true -> noPair P s = true.
Proof.
  intros HPQ. induction s as [|x t IH]; [reflexivity|].
  destruct t as [|y t]; [reflexivity|].
  rewrite !noPair_two. intros H.
  apply andb_true_iff in H as [H1 H2].
  rewrite (IH H2), andb_true_r.
  apply negb_true_iff in H1. apply negb_true_iff.
  destruct (N.eqb x BSL); [|reflexivity].
  destruct (P y) eqn:E; [|reflexivity].
  now rewrite (HPQ y E) in H1.
Qed.

Section PassKeeps.

Variable P isEsc : cu -> bool.
Variable f : cu -> cu.

Hypothesis image_no_backslash :
  forall y, isEsc y = true -> N.eqb (f y) BSL = false.
Hypothesis backslash_known : P BSL = true.

(** After a pass no backslash is followed by a unit of its class, in a
    text where no backslash was followed by a backslash. *)
Lemma unescape_clears (n : nat) :
  forall s, (List.length s <= n)%nat ->
            noPair P s = true ->
            noPair (fun y => P y || isEsc y)%bool (unescape isEsc f s) = true.
Proof.
  induction n as [|n IH]; intros s Hn Hs.
  - destruct s; [reflexivity | simpl in Hn; lia].
  - destruct s as [|x [|y t]]; [reflexivity | reflexivity |].
    rewrite unescape_two. rewrite noPair_two in Hs.
    apply andb_true_iff in Hs as [Hxy Hs].
    destruct (N.eqb x BSL && isEsc y)%bool eqn:E.
    + apply andb_true_iff in E as [Ex Ey].
      rewrite noPair_cons by (apply image_no_backslash; exact Ey).
      apply IH; [simpl in Hn; lia | exact (@noPair_tail P y t Hs)].
    + destruct (N.eqb x BSL) eqn:Ex.
      * cbn [andb] in E, Hxy. apply negb_true_iff in Hxy.
        assert (Ey : N.eqb y BSL = false).
        { destruct (N.eqb y BSL) eqn:Ey; [|reflexivity].
          apply N.eqb_eq in Ey. subst y. congruence. }
        rewrite (@unescape_head isEsc f y t Ey), noPair_two, Ex, Hxy, E.
        cbn [andb orb negb].
        rewrite <- (@unescape_head isEsc f y t Ey).
        apply IH; [simpl in Hn |- *; lia | exact Hs].
      * rewrite noPair_cons by exact Ex.
        apply IH; [simpl in Hn |- *; lia | exact Hs].
Qed.

End PassKeeps.




End NormalizerClaims.

(** ** The balance of angle brackets: C9 *)

Module SyntaxClaims.

Import ValidateOutput ValidatorFacts IssueKinds StatedSyntax RegexFacts.

Lemma exec_chr (c : cu) (p : option cu) (s : jsstring) :
  execAt (chr c) p s
  = match s with
    | x :: _ => if N.eqb c x then Some (RMatch [x] []) else None
    | [] => None
    end.
Proof.
  unfold execAt. destruct s as [|x t]; cbn -[N.eqb Nat.sub]; [reflexivity|].
  destruct (N.eqb c x); [|reflexivity].
  cbn -[N.eqb Nat.sub]. now rewrite one_more.
Qed.

Lemma scan_chr (c : cu) (s : jsstring) :
  forall p, List.length (matchesOf (scan (chr c) p 0 s)) = countCu c s.
Proof.
  unfold countCu. induction s as [|x t IH]; intros p.
  - rewrite scan_end, exec_chr. reflexivity.
  - rewrite scan_here, exec_chr. cbn [filter].
    destruct (N.eqb c x); cbn [mtext List.length matchesOf]; now rewrite IH.
Qed.

(** The number of matches of a one-character pattern is the number of
    occurrences of the character. *)
Lemma count_chr (c : cu) (s : jsstring) :
  List.length (matchG (chr c) s) = countCu c s.
Proof. unfold matchG, matchAll. rewrite length_map. apply scan_chr. Qed.

Lemma angle_loop (l : list jsstring) :
  (fix loop (l : list jsstring) : option jsstring :=
     match l with
     | [] => None
     | str_ :: l' =>
         let openAngles := List.length (matchG (str "<") str_) in
         let closeAngles := List.length (matchG (str ">") str_) in
         if negb (Nat.eqb openAngles closeAngles) then
           Some (js "unbalanced mini-notation: " ++ showNat openAngles
                 ++ js " opening '<' vs " ++ showNat closeAngles
                 ++ js " closing '>' in pattern")
         else loop l'
     end) l
  = option_map miniNotationIssue
      (find (fun segment => negb (angleBalanced segment)) l).
Proof.
  induction l as [|x l IH]; [reflexivity|].
  cbn zeta. change (str "<") with (chr 60%N). change (str ">") with (chr 62%N).
  rewrite !count_chr. cbn [find]. unfold angleBalanced at 1.
  destruct (negb _); [reflexivity | exact IH].
Qed.

(** The syntax check, in terms of counts and segments. *)
Lemma getSyntaxIssue_mini (code : jsstring) :
  filter Rules.isMiniNotationIssue (Rules.syntaxBalance code)
  = miniNotationIssues code.
Proof.
  unfold Rules.syntaxBalance, getSyntaxIssue, miniNotationIssues,
    bracketsBalanced.
  cbn zeta.
  change (str "(") with (chr 40%N). change (str ")") with (chr 41%N).
  change (str "[") with (chr 91%N). change (str "]") with (chr 93%N).
  change (str "{") with (chr 123%N). change (str "}") with (chr 125%N).
  rewrite !count_chr.
  destruct (Nat.eqb (countCu 40%N code) (countCu 41%N code)); [|reflexivity].
  destruct (Nat.eqb (countCu 91%N code) (countCu 93%N code)); [|reflexivity].
  destruct (Nat.eqb (countCu 123%N code) (countCu 125%N code)); [|reflexivity].
  cbn [negb andb]. rewrite angle_loop. fold (quotedSegments code).
  destruct (find _ (quotedSegments code)); reflexivity.
Qed.

(** *** The segments the pattern finds *)

Lemma star_class_nil (C : cu -> bool) (k : mstate -> option mstate)
  (p : option cu) (caps : list (nat * jsstring)) :
  run (Star true (Cls C)) k (MState p [] caps) = k (MState p [] caps).
Proof. reflexivity. Qed.

Lemma star_class_cons (C : cu -> bool) (k : mstate -> option mstate)
  (p : option cu) (c : cu) (t : jsstring) (caps : list (nat * jsstring)) :
  run (Star true (Cls C)) k (MState p (c :: t) caps)
  = if C c then
      match run (Star true (Cls C)) k (MState (Some c) t caps) with
      | Some x => Some x
      | None => k (MState p (c :: t) caps)
      end
    else k (MState p (c :: t) caps).
Proof.
  cbn -[Nat.ltb]. destruct (C c); [|reflexivity].
  assert (H : Nat.ltb (List.length t) (S (List.length t)) = true)
    by (apply Nat.ltb_lt; lia).
  rewrite H. reflexivity.
Qed.

Lemma run_body (t : jsstring) :
  forall p caps,
    option_map restAndCaps
      (run (Cat (star (noneOf quotes3)) (anyOf quotes3)) (fun x => Some x)
           (MState p t caps))
    = option_map (fun br => (snd br, caps)) (closing t).
Proof.
  induction t as [|c t IH]; intros p caps.
  - reflexivity.
  - change (run (Cat (star (noneOf quotes3)) (anyOf quotes3))
                (fun x => Some x) (MState p (c :: t) caps))
      with (run (Star true (Cls (fun x => negb (isQuote x))))
                (run (anyOf quotes3) (fun x => Some x))
                (MState p (c :: t) caps)).
    rewrite star_class_cons. cbn [closing].
    change (run (Star true (Cls (fun x => negb (isQuote x))))
                (run (anyOf quotes3) (fun x => Some x))
                (MState (Some c) t caps))
      with (run (Cat (star (noneOf quotes3)) (anyOf quotes3))
                (fun x => Some x) (MState (Some c) t caps)).
    specialize (IH (Some c) caps).
    change (run (anyOf quotes3) (fun x => Some x) (MState p (c :: t) caps))
      with (if isQuote c then Some (MState (Some c) t caps) else None).
    destruct (isQuote c); cbn [negb]; [reflexivity|].
    destruct (run (Cat (star (noneOf quotes3)) (anyOf quotes3))
                  (fun x => Some x) (MState (Some c) t caps)) as [f|];
      destruct (closing t) as [[body after]|]; cbn in IH |- *;
      congruence.
Qed.

Lemma closing_app (t body after : jsstring) :
  closing t = Some (body, after) -> t = body ++ after.
Proof.
  revert body after. induction t as [|c t IH]; intros body after;
    [discriminate|].
  cbn [closing]. destruct (isQuote c).
  - intros H; injection H as <- <-. reflexivity.
  - destruct (closing t) as [[b r]|]; [|discriminate].
    intros H; injection H as <- <-. cbn. f_equal. now apply IH.
Qed.

Lemma firstn_body (c : cu) (body after : jsstring) :
  firstn (List.length (c :: body ++ after) - List.length after)
         (c :: body ++ after) = c :: body.
Proof.
  replace (List.length (c :: body ++ after) - List.length after)%nat
    with (List.length (c :: body))
    by (cbn [List.length]; rewrite length_app; lia).
  cbn [List.length firstn]. f_equal.
  rewrite firstn_app, Nat.sub_diag, firstn_all. cbn. apply app_nil_r.
Qed.

(** What the pattern of the quoted literals finds at a position. *)
Lemma exec_contents (p : option cu) (s : jsstring) :
  execAt reStringContents p s
  = match s with
    | c :: t =>
        if isQuote c then
          option_map (fun br => RMatch (c :: fst br) []) (closing t)
        else None
    | [] => None
    end.
Proof.
  unfold execAt. destruct s as [|c t]; [reflexivity|].
  change (run reStringContents (fun x => Some x) (MState p (c :: t) []))
    with (if isQuote c
          then run (Cat (star (noneOf quotes3)) (anyOf quotes3))
                   (fun x => Some x) (MState (Some c) t [])
          else None).
  destruct (isQuote c); [|reflexivity].
  pose proof (run_body t (Some c) []) as H.
  destruct (run (Cat (star (noneOf quotes3)) (anyOf quotes3))
                (fun x => Some x) (MState (Some c) t [])) as [f|];
    destruct (closing t) as [[body after]|] eqn:E; cbn in H;
    try discriminate; [|reflexivity].
  injection H as Hr Hc. destruct f as [fp fr fc]; cbn in Hr, Hc. subst.
  cbn [option_map fst rest caps].
  apply closing_app in E. subst t. now rewrite firstn_body.
Qed.

Lemma scan_over (r : re) (body after : jsstring) :
  forall p, exists q,
    scan r p (List.length body) (body ++ after) = scan r q 0 after.
Proof.
  induction body as [|x body IH]; intros p.
  - exists p. reflexivity.
  - cbn [List.length app]. rewrite scan_skip. apply IH.
Qed.

Lemma segments_closing (t : jsstring) :
  forall open,
    segments (Some open) t
    = match closing t with
      | Some (body, after) => (open ++ body) :: segments None after
      | None => []
      end.
Proof.
  induction t as [|c t IH]; intros open; [reflexivity|].
  cbn [segments closing]. destruct (isQuote c); [reflexivity|].
  rewrite IH. destruct (closing t) as [[body after]|]; [|reflexivity].
  now rewrite <- app_assoc.
Qed.

Lemma segments_none (t : jsstring) :
  closing t = None -> segments None t = [].
Proof.
  induction t as [|c t IH]; [reflexivity|].
  cbn [segments closing]. destruct (isQuote c); [discriminate|].
  destruct (closing t) as [[b r]|]; [discriminate|]. intros _. now apply IH.
Qed.

Lemma scan_segments (n : nat) :
  forall s p, (List.length s <= n)%nat ->
              List.map mtext (matchesOf (scan reStringContents p 0 s))
              = segments None s.
Proof.
  induction n as [|n IH]; intros s p Hn.
  - destruct s; [reflexivity | simpl in Hn; lia].
  - destruct s as [|c t]; [reflexivity|].
    rewrite scan_here, exec_contents. cbn [segments].
    destruct (isQuote c).
    + rewrite segments_closing.
      destruct (closing t) as [[body after]|] eqn:E; cbn [option_map].
      * cbn [mtext fst List.length matchesOf List.map].
        apply closing_app in E. subst t.
        destruct (scan_over reStringContents body after (Some c))
          as [q ->].
        f_equal. apply IH. simpl in Hn. rewrite length_app in Hn. lia.
      * cbn [matchesOf]. rewrite IH by (simpl in Hn; lia).
        now apply segments_none.
    + cbn [matchesOf]. apply IH. simpl in Hn. lia.
Qed.

(** The quoted literals of the syntax check are the segments from a
    quote character to the next one. *)
Lemma quotedSegments_segments (code : jsstring) :
  quotedSegments code = segments None code.
Proof.
  unfold quotedSegments, matchG, matchAll.
  apply (scan_segments (n := List.length code)). lia.
Qed.

(** A literal out of balance inside a call that is not closed: the
    parentheses are reported, the mini-notation is not. *)
Lemma open_call_literal_not_reported :
  ~ unbalancedLiteralIsReported Samples.openCall.
Proof.
  unfold unbalancedLiteralIsReported. intros H.
  destruct H as (issue & Hin & Hmini).
  - exists (jsq "~<c4 e4~"). split; vm_compute; auto.
  - vm_compute in Hin.
    repeat match goal with
           | H : _ \/ _ |- _ => destruct H
           | H : False |- _ => destruct H
           end; subst issue; vm_compute in Hmini; discriminate.
Qed.

(** The segments are not the literals of the language: a double-quoted
    literal that holds an apostrophe is cut at the apostrophe, and is
    reported although its own angle brackets are balanced. *)
Lemma segment_cut_at_apostrophe :
  quotedSegments (jsq "note(~<a's>~)") = [jsq "~<a'"]
  /\ miniNotationIssues (jsq "note(~<a's>~)")
     = [js "unbalanced mini-notation: 1 opening '<' vs 0 closing '>' in pattern"].
Proof. vm_compute. auto. Qed.

(** C9, amended.  The balance of angle brackets is checked inside quoted
    segments only, a segment running from a quote character (double quote,
    single quote or backtick) to the next quote character of any of the
    three kinds.  [validateStrudelCode] reports the unbalanced
    mini-notation exactly when the parentheses, the square brackets and the
    braces of the whole input are each balanced in number and some segment
    has unequal counts of the two angle brackets; the issue is then the one
    of the first such segment.  Angle brackets outside of the segments do
    not count: an artifact with a comparison outside of its literals is
    not reported. *)
Theorem angle_balance_scoped_to_segments
  (code : jsstring) (config : PartialConfig) :
  let reported :=
    filter Rules.isMiniNotationIssue
           (issues (validateStrudelCode code config)) in
  quotedSegments code = segments None code
  /\ reported = miniNotationIssues code
  /\ (forallb angleBalanced (quotedSegments code) = true -> reported = [])
  /\ (bracketsBalanced code = true ->
      forallb angleBalanced (quotedSegments code) = false ->
      exists segment,
        In segment (quotedSegments code)
        /\ angleBalanced segment = false
        /\ reported = [miniNotationIssue segment])
  /\ (countCu 60%N Samples.comparison = 2%nat
      /\ countCu 62%N Samples.comparison = 1%nat
      /\ filter Rules.isMiniNotationIssue
                (issues (validateStrudelCode Samples.comparison noOverrides))
         = []).
Proof.
  intros reported.
  assert (Hreported : reported = miniNotationIssues code).
  { unfold reported. rewrite issues_concat, mini_only.
    apply getSyntaxIssue_mini. }
  split; [apply quotedSegments_segments|].
  split; [exact Hreported|]. split; [|split].
  - intros Hall. rewrite Hreported. unfold miniNotationIssues.
    destruct (bracketsBalanced code); [|reflexivity].
    destruct (find _ (quotedSegments code)) as [segment|] eqn:E;
      [|reflexivity].
    apply find_some in E as [Hin Hbad].
    rewrite forallb_forall in Hall. rewrite (Hall _ Hin) in Hbad.
    discriminate.
  - intros Hbrackets Hsome. rewrite Hreported. unfold miniNotationIssues.
    rewrite Hbrackets.
    destruct (find _ (quotedSegments code)) as [segment|] eqn:E.
    + apply find_some in E as [Hin Hbad]. exists segment.
      apply negb_true_iff in Hbad. auto.
    + assert (Hall : forallb angleBalanced (quotedSegments code) = true).
      { apply forallb_forall. intros x Hx.
        apply (find_none _ _ E) in Hx. now apply negb_false_iff in Hx. }
      congruence.
  - vm_compute. auto.
Qed.

Lemma angle_balance_witness :
  forallb angleBalanced (quotedSegments Samples.comparison) = true
  /\ filter Rules.isMiniNotationIssue
            (issues (validateStrudelCode Samples.comparison noOverrides))
     = []
  /\ bracketsBalanced (jsq "note(~<c4 e4~)") = true
  /\ forallb angleBalanced (quotedSegments (jsq "note(~<c4 e4~)")) = false
  /\ exists segment,
       filter Rules.isMiniNotationIssue
              (issues (validateStrudelCode (jsq "note(~<c4 e4~)")
                                           noOverrides))
       = [miniNotationIssue segment].
Proof.
  destruct (angle_balance_scoped_to_segments Samples.comparison noOverrides)
    as (_ & _ & Hnone & _).
  destruct (angle_balance_scoped_to_segments (jsq "note(~<c4 e4~)")
                                             noOverrides)
    as (_ & _ & _ & Hsome & _).
  split; [reflexivity|]. split; [exact (Hnone eq_refl)|].
  split; [reflexivity|]. split; [reflexivity|].
  destruct (Hsome eq_refl eq_refl) as (segment & _ & _ & H).
  exists segment. exact H.
Defined.

End SyntaxClaims.

(** ** The room ceiling: C8 *)

Module EffectClaims.

Import ValidateOutput ValidatorFacts IssueKinds.

Lemma hasExtremeEffects_or (code : jsstring) (cfg : ValidationConfig) :
  hasExtremeEffects code cfg
  = (existsb (fun value => gt value (maxDelayFeedback cfg))
             (callValues "delayfeedback" code)
     || existsb (fun value => gt value (maxRoomSize cfg))
                (callValues "room" code)
     || existsb (fun value => gt value (ofZ 2)) (callValues "gain" code))%bool.
Proof.
  unfold hasExtremeEffects.
  repeat match goal with
         | |- context [if ?c then _ else _] => destruct c
         end; reflexivity.
Qed.

Lemma existsb_all_same {A} (f : A -> bool) (x : A) (l : list A) :
  f x = false -> (forall y, In y l -> y = x) -> existsb f l = false.
Proof.
  intros Hx Hall. induction l as [|y l IH]; [reflexivity|].
  cbn [existsb]. rewrite (Hall y (or_introl eq_refl)), Hx.
  apply IH. intros z Hz. apply Hall. now right.
Qed.

(** C8.  Without overrides the policy is the default one, whose room
    ceiling is 0.95.  The extreme-effect issue is reported exactly when
    some [.delayfeedback] value is over 0.7, some [.room] value is over the
    ceiling or some [.gain] value is over 2.  The value of [.room(0.95)] is
    not over the ceiling and the value of [.room(0.96)] is.  So an
    artifact in which the validator finds a call [.room(0.96)] gets the
    extreme-effect issue, and one in which the effect calls it finds are
    calls [.room(0.95)] gets none; thus the artifact of the repository's
    test with [.room(0.95)] and the same artifact with [.room(0.96)]. *)
Theorem room_ceiling_boundary (code : jsstring) :
  let cfg := merge DEFAULT_CONFIG noOverrides in
  let issue :=
    js "extreme effect values detected - reduce delay feedback (max 0.7), reverb (max 0.95), or gain (max 2.0)" in
  let reported (artifact : jsstring) :=
    filter Rules.isExtremeIssue
           (issues (validateStrudelCode artifact noOverrides)) in
  cfg = DEFAULT_CONFIG
  /\ maxRoomSize cfg = parseFloat (js "0.95")
  /\ reported code
     = Rules.when
         (existsb (fun value => gt value (maxDelayFeedback cfg))
                  (callValues "delayfeedback" code)
          || existsb (fun value => gt value (maxRoomSize cfg))
                     (callValues "room" code)
          || existsb (fun value => gt value (ofZ 2))
                     (callValues "gain" code))
         issue
  /\ (In (js ".room(0.96") (matchG (reNumCall "room") code) ->
      reported code = [issue])
  /\ (matchG (reNumCall "delayfeedback") code = [] ->
      matchG (reNumCall "gain") code = [] ->
      (forall call, In call (matchG (reNumCall "room") code) ->
                    call = js ".room(0.95") ->
      reported code = [])
  /\ reported (Samples.roomArtifact "0.95") = []
  /\ reported (Samples.roomArtifact "0.96") = [issue].
Proof.
  intros cfg issue reported.
  assert (Hreported : forall artifact,
             reported artifact
             = Rules.when
                 (existsb (fun value => gt value (maxDelayFeedback cfg))
                          (callValues "delayfeedback" artifact)
                  || existsb (fun value => gt value (maxRoomSize cfg))
                             (callValues "room" artifact)
                  || existsb (fun value => gt value (ofZ 2))
                             (callValues "gain" artifact))
                 issue).
  { intros artifact. unfold reported.
    rewrite issues_concat, extreme_only.
    unfold Rules.extremeEffects. rewrite hasExtremeEffects_or.
    fold cfg. f_equal. }
  split; [reflexivity|]. split; [reflexivity|].
  split; [apply Hreported|]. split; [|split].
  - intros Hcall. rewrite Hreported.
    assert (H : existsb (fun value => gt value (maxRoomSize cfg))
                        (callValues "room" code) = true).
    { apply existsb_exists.
      exists (parseFloat (replaceFirst (reCallHead "room") (fun _ => [])
                                       (js ".room(0.96"))).
      split; [|vm_compute; reflexivity].
      unfold callValues.
      apply (in_map (fun m => parseFloat (replaceFirst (reCallHead "room")
                                                       (fun _ => []) m))).
      exact Hcall. }
    rewrite H, orb_true_r. reflexivity.
  - intros Hfeedback Hgain Hroom. rewrite Hreported.
    replace (callValues "delayfeedback" code) with (@nil jsnum)
      by (unfold callValues; now rewrite Hfeedback).
    replace (callValues "gain" code) with (@nil jsnum)
      by (unfold callValues; now rewrite Hgain).
    rewrite (@existsb_all_same _ (fun value => gt value (maxRoomSize cfg))
               (parseFloat (js "0.95")) (callValues "room" code)).
    + reflexivity.
    + vm_compute. reflexivity.
    + intros y Hy. unfold callValues in Hy.
      apply in_map_iff in Hy as (m & <- & Hm).
      rewrite (Hroom m Hm). vm_compute. reflexivity.
  - split; vm_compute; reflexivity.
Qed.

Lemma room_ceiling_boundary_witness :
  In (js ".room(0.96")
     (matchG (reNumCall "room") (Samples.roomArtifact "0.96"))
  /\ filter Rules.isExtremeIssue
            (issues (validateStrudelCode (Samples.roomArtifact "0.96")
                                         noOverrides))
     = [js "extreme effect values detected - reduce delay feedback (max 0.7), reverb (max 0.95), or gain (max 2.0)"]
  /\ filter Rules.isExtremeIssue
            (issues (validateStrudelCode (Samples.roomArtifact "0.95")
                                         noOverrides))
     = [].
Proof.
  assert (Hcall : In (js ".room(0.96")
                     (matchG (reNumCall "room") (Samples.roomArtifact "0.96")))
    by (vm_compute; auto).
  split; [exact Hcall|].
  destruct (room_ceiling_boundary (Samples.roomArtifact "0.96"))
    as (_ & _ & _ & Hover & _).
  destruct (room_ceiling_boundary (Samples.roomArtifact "0.95"))
    as (_ & _ & _ & _ & Hunder & _).
  split; [exact (Hover Hcall)|].
  apply Hunder; try (vm_compute; reflexivity).
  vm_compute. intros call [<-|[]]. reflexivity.
Defined.

End EffectClaims.

(* ================================================================== *)
(** * Further properties of the code *)
(* ================================================================== *)

Module StringFacts.

Lemma startsWith_app (p b : jsstring) : startsWith p (p ++ b) = true.
Proof.
  induction p as [|c p IH]; [reflexivity|].
  cbn [app startsWith]. now rewrite N.eqb_refl, IH.
Qed.

Lemma startsWith_app_l (p s b : jsstring) :
  startsWith p s = true -> startsWith p (s ++ b) = true.
Proof.
  revert s. induction p as [|c p IH]; intros s H; [reflexivity|].
  destruct s as [|d s]; [discriminate|].
  cbn [app startsWith] in *. apply andb_prop in H as [H1 H2].
  now rewrite H1, IH.
Qed.

Lemma includes_here (p s : jsstring) :
  startsWith p s = true -> includes p s = true.
Proof. intros H. destruct s; cbn [includes]; now rewrite H. Qed.

Lemma includes_skip (p a s : jsstring) :
  includes p s = true -> includes p (a ++ s) = true.
Proof.
  intros H. induction a as [|c a IH]; [exact H|].
  cbn [app includes]. rewrite IH. apply orb_true_r.
Qed.

Lemma includes_app_l (p s b : jsstring) :
  includes p s = true -> includes p (s ++ b) = true.
Proof.
  induction s as [|c s IH]; intros H.
  - cbn [includes] in H. rewrite orb_false_r in H.
    destruct p; [|discriminate]. destruct b; reflexivity.
  - cbn [app includes] in *. apply orb_prop in H as [H|H].
    + change (c :: s ++ b) with ((c :: s) ++ b).
      now rewrite startsWith_app_l.
    + rewrite IH by exact H. apply orb_true_r.
Qed.

Lemma includes_mid (p a b : jsstring) : includes p (a ++ p ++ b) = true.
Proof. apply includes_skip, includes_here, startsWith_app. Qed.

Lemma includes_join (sep x : jsstring) (l : list jsstring) :
  In x l -> includes x (join sep l) = true.
Proof.
  induction l as [|y l IH]; intros H; [destruct H|].
  destruct l as [|z l].
  - destruct H as [->|[]]. cbn [join].
    rewrite <- (app_nil_r x) at 2. apply includes_here, startsWith_app.
  - change (join sep (y :: z :: l)) with (y ++ sep ++ join sep (z :: l)).
    destruct H as [->|H].
    + apply includes_here, startsWith_app.
    + rewrite app_assoc. apply includes_skip, IH, H.
Qed.

End StringFacts.

Module PreflightFacts.

Import Route Preflight StringFacts.

Lemma slice_last {A} (n : nat) (l : list A) :
  (0 < n)%nat ->
  slice (- Z.of_nat n) l = skipn (List.length l - n) l.
Proof.
  intros H. unfold slice.
  replace (- Z.of_nat n <? 0)%Z with true by (symmetry; apply Z.ltb_lt; lia).
  f_equal. lia.
Qed.

Lemma slice_from {A} (n : nat) (l : list A) :
  slice (Z.of_nat n) l = skipn n l.
Proof.
  unfold slice.
  replace (Z.of_nat n <? 0)%Z with false by (symmetry; apply Z.ltb_ge; lia).
  destruct (Nat.le_gt_cases n (List.length l)) as [H|H].
  - f_equal. lia.
  - rewrite (skipn_all2 l (n := n)) by lia.
    apply skipn_all2. lia.
Qed.

Lemma truncate_long (chat : list ChatMessage) (maxMessages : nat) :
  (2 <= maxMessages)%nat ->
  (maxMessages < List.length chat)%nat ->
  truncateChatHistory chat maxMessages
  = firstn 1 chat ++ skipn (List.length chat - (maxMessages - 1)) chat.
Proof.
  intros Hlimit Hlong. unfold truncateChatHistory.
  replace (Nat.leb (List.length chat) maxMessages) with false
    by (symmetry; apply Nat.leb_gt; lia).
  destruct chat as [|first rest]; [cbn in Hlong; lia|].
  replace (- (Z.of_nat maxMessages - 1))%Z
    with (- Z.of_nat (maxMessages - 1))%Z by lia.
  rewrite slice_last by lia. reflexivity.
Qed.

(** X8.  For a limit of at least two, [truncateChatHistory] returns at most
    [maxMessages] messages: the whole history when it is short enough, and
    otherwise the first message followed by the last [maxMessages - 1]. *)
Theorem truncateChatHistory_keeps_first_and_latest
  (chat : list ChatMessage) (maxMessages : nat)
  (Hlimit : (2 <= maxMessages)%nat) :
  List.length (truncateChatHistory chat maxMessages)
  = Nat.min (List.length chat) maxMessages
  /\ ((maxMessages < List.length chat)%nat ->
      truncateChatHistory chat maxMessages
      = firstn 1 chat
        ++ skipn (List.length chat - (maxMessages - 1)) chat).
Proof.
  split; [|now apply truncate_long].
  destruct (Nat.le_gt_cases (List.length chat) maxMessages) as [Hle|Hgt].
  - unfold truncateChatHistory.
    replace (Nat.leb (List.length chat) maxMessages) with true
      by (symmetry; apply Nat.leb_le; lia).
    lia.
  - rewrite truncate_long by assumption.
    rewrite length_app, length_firstn, length_skipn. lia.
Qed.

Lemma truncateChatHistory_witness :
  let m n := {| role := js "user"; content := toString (ofNat n);
                code := None |} in
  truncateChatHistory (List.map m (seq 0 9)) 6
  = List.map m [0; 4; 5; 6; 7; 8]%nat.
Proof.
  intros m.
  destruct (@truncateChatHistory_keeps_first_and_latest
              (List.map m (seq 0 9)) 6 ltac:(lia)) as [_ H].
  rewrite H by (simpl; lia). reflexivity.
Defined.

(** X9.  Below a limit of two [truncateChatHistory] does not truncate: with
    the limit 1 a history of more than one message comes back whole with
    its first message repeated in front, and with the limit 0 every history
    comes back unchanged. *)
Theorem truncateChatHistory_limit_below_two (chat : list ChatMessage)
  (Hlong : (1 < List.length chat)%nat) :
  truncateChatHistory chat 1 = firstn 1 chat ++ chat
  /\ truncateChatHistory chat 0 = chat.
Proof.
  destruct chat as [|first [|second rest]]; cbn in Hlong; try lia.
  unfold truncateChatHistory. cbn [List.length Nat.leb].
  change (- (Z.of_nat 1 - 1))%Z with (Z.of_nat 0).
  change (- (Z.of_nat 0 - 1))%Z with (Z.of_nat 1).
  rewrite !slice_from. split; reflexivity.
Qed.

Lemma truncateChatHistory_limit_below_two_witness :
  let m n := {| role := js "user"; content := toString (ofNat n);
                code := None |} in
  List.length (truncateChatHistory (List.map m (seq 0 3)) 1) = 4%nat
  /\ List.length (truncateChatHistory (List.map m (seq 0 3)) 0) = 3%nat.
Proof.
  intros m.
  destruct (@truncateChatHistory_limit_below_two (List.map m (seq 0 3))
              ltac:(simpl; lia)) as [H1 H0].
  rewrite H1, H0. split; reflexivity.
Defined.

Lemma formatMessage_redact (msg : ChatMessage) :
  formatMessage (redact msg) = formatMessage msg.
Proof.
  unfold redact.
  destruct (eqs (role msg) (js "assistant") && truthy (code msg))%bool eqn:H;
    [|reflexivity].
  unfold formatMessage. cbn [role content code]. rewrite H.
  apply andb_prop in H as [H _]. now rewrite H.
Qed.

Lemma formatChatHistory_redact (chat : list ChatMessage) :
  formatChatHistory (List.map redact chat) = formatChatHistory chat.
Proof.
  destruct chat as [|msg chat]; [reflexivity|].
  cbn [List.map]. unfold formatChatHistory.
  change (redact msg :: List.map redact chat)
    with (List.map redact (msg :: chat)).
  rewrite List.map_map.
  now rewrite (List.map_ext _ _ formatMessage_redact).
Qed.

Lemma slice_map {A B} (f : A -> B) (start : Z) (l : list A) :
  slice start (List.map f l) = List.map f (slice start l).
Proof. unfold slice. now rewrite length_map, skipn_map. Qed.

Lemma truncateChatHistory_map (f : ChatMessage -> ChatMessage)
  (chat : list ChatMessage) (maxMessages : nat) :
  truncateChatHistory (List.map f chat) maxMessages
  = List.map f (truncateChatHistory chat maxMessages).
Proof.
  unfold truncateChatHistory. rewrite length_map.
  destruct (Nat.leb (List.length chat) maxMessages); [reflexivity|].
  destruct chat as [|first rest]; [reflexivity|].
  change (f first :: List.map f rest) with (List.map f (first :: rest)).
  now rewrite slice_map.
Qed.

(** X10.  The user prompt of the first attempt does not depend on what the
    assistant messages that carry code say, nor on their code: such a
    message enters the prompt as the fixed line
    [assistant: [generated strudel code]]. *)
Theorem first_prompt_leaves_generated_code_out
  (buildUserPrompt : jsstring -> jsstring) (mode : generationMode)
  (currentCode : option jsstring) (chatHistory : list ChatMessage)
  (prompt : jsstring) :
  firstUserPrompt buildUserPrompt mode currentCode
                  (List.map redact chatHistory) prompt
  = firstUserPrompt buildUserPrompt mode currentCode chatHistory prompt.
Proof.
  unfold firstUserPrompt. destruct (editing mode currentCode); [|reflexivity].
  cbn zeta. now rewrite truncateChatHistory_map, formatChatHistory_redact.
Qed.

(** X11.  In the user prompt of the first attempt only the first message of
    the history and its last five are read: the messages in between do not
    change the prompt. *)
Theorem first_prompt_reads_six_messages
  (buildUserPrompt : jsstring -> jsstring) (mode : generationMode)
  (currentCode : option jsstring) (first : ChatMessage)
  (middle latest : list ChatMessage) (prompt : jsstring)
  (Hlatest : List.length latest = 5%nat) :
  firstUserPrompt buildUserPrompt mode currentCode
                  (first :: middle ++ latest) prompt
  = firstUserPrompt buildUserPrompt mode currentCode
                    (first :: latest) prompt.
Proof.
  unfold firstUserPrompt. destruct (editing mode currentCode); [|reflexivity].
  cbn zeta. do 2 f_equal.
  destruct middle as [|m middle].
  - reflexivity.
  - change (first :: (m :: middle) ++ latest)
      with ((first :: m :: middle) ++ latest).
    rewrite truncate_long
      by (try rewrite length_app, Hlatest; cbn [List.length]; lia).
    rewrite length_app, Hlatest.
    replace (List.length (first :: m :: middle) + 5 - (6 - 1))%nat
      with (List.length (first :: m :: middle)) by lia.
    rewrite skipn_app, skipn_all, Nat.sub_diag.
    unfold truncateChatHistory.
    cbn [List.length]. rewrite Hlatest. reflexivity.
Qed.

Lemma first_prompt_reads_six_messages_witness :
  let m n := {| role := js "user"; content := toString (ofNat n);
                code := None |} in
  firstUserPrompt (fun request => request) edit (Some (js "setcpm(90)"))
                  (List.map m (seq 0 9)) (js "darker")
  = firstUserPrompt (fun request => request) edit (Some (js "setcpm(90)"))
                    (List.map m [0; 4; 5; 6; 7; 8]%nat) (js "darker").
Proof.
  intros m.
  exact (@first_prompt_reads_six_messages
           (fun request => request) edit (Some (js "setcpm(90)"))
           (m 0%nat) (List.map m [1; 2; 3]%nat)
           (List.map m [4; 5; 6; 7; 8]%nat) (js "darker") eq_refl).
Defined.

Lemma truthy_some (o : option jsstring) :
  truthy o = true -> exists c t, o = Some (c :: t).
Proof. destruct o as [[|c t]|]; try discriminate. now exists c, t. Qed.

(** X12.  A request that passes the checks at the head of [POST] has a
    prompt that is not empty, a key that is not empty and, when the key is
    of a recognised kind, a key of the provider of the model.  The model is
    the one of the request, or the default when the request names none;
    the key is the one of the request, or the one of the environment for
    that provider when the request carries none. *)
Theorem passed_request_is_consistent (env : environment) (b : body)
  (provider : providerName) (apiKey model : jsstring)
  (Hpassed : checks env b = Passed provider apiKey model) :
  provider = getProviderFromModel model
  /\ apiKey <> []
  /\ truthy (prompt b) = true
  /\ (detectApiKeyProvider apiKey = KeyUnknown
      \/ sameProvider (detectApiKeyProvider apiKey) provider = true)
  /\ (requestModel b = Some model
      \/ truthy (requestModel b) = false
         /\ model = js "claude-sonnet-4-20250514")
  /\ (requestApiKey b = Some apiKey
      \/ truthy (requestApiKey b) = false
         /\ getEnvApiKey env provider = Some apiKey).
Proof.
  unfold checks in Hpassed.
  set (model' := match requestModel b with
                 | Some (c :: t) => c :: t
                 | _ => js "claude-sonnet-4-20250514"
                 end) in *.
  destruct (firstTruthy (requestApiKey b)
                        (getEnvApiKey env (getProviderFromModel model')))
    as [[|c t]|] eqn:Hkey; try discriminate.
  destruct (negb (isUnknown (detectApiKeyProvider (c :: t)))
            && negb (sameProvider (detectApiKeyProvider (c :: t))
                                  (getProviderFromModel model')))%bool
    eqn:Hmatch; [discriminate|].
  destruct (truthy (prompt b)) eqn:Hprompt; [|discriminate].
  cbn [negb] in Hpassed. injection Hpassed as <- <- <-.
  split; [reflexivity|]. split; [discriminate|]. split; [reflexivity|].
  split; [|split].
  - apply andb_false_iff in Hmatch as [H|H]; apply negb_false_iff in H.
    + left. now destruct (detectApiKeyProvider (c :: t)).
    + now right.
  - unfold model'. destruct (requestModel b) as [[|c' t']|]; auto.
  - unfold firstTruthy in Hkey.
    destruct (truthy (requestApiKey b)) eqn:Hreq; auto.
Qed.

Lemma passed_request_witness :
  let env := {| AUDIAL_OPENAI_API_KEY := None;
                OPENAI_API_KEY := Some (js "sk-proj-abc");
                AUDIAL_ANTHROPIC_API_KEY := None;
                ANTHROPIC_API_KEY := None;
                AUDIAL_API_KEY := Some (js "sk-ant-xyz") |} in
  let b := {| prompt := Some (js "a beat");
              requestModel := Some (js "gpt-4o");
              requestApiKey := Some [] |} in
  checks env b = Passed openai (js "sk-proj-abc") (js "gpt-4o")
  /\ getEnvApiKey env openai = Some (js "sk-proj-abc").
Proof.
  intros env b.
  assert (H : checks env b = Passed openai (js "sk-proj-abc") (js "gpt-4o"))
    by (vm_compute; reflexivity).
  split; [exact H|].
  destruct (passed_request_is_consistent env b H)
    as (_ & _ & _ & _ & _ & [Hreq|[_ Henv]]).
  - discriminate Hreq.
  - exact Henv.
Defined.

(** X13.  When the request carries a key, the keys of the environment play
    no part in the checks. *)
Theorem request_key_shadows_the_environment (env env' : environment)
  (b : body) (Hkey : truthy (requestApiKey b) = true) :
  checks env b = checks env' b.
Proof.
  unfold checks, firstTruthy. now rewrite Hkey.
Qed.

Lemma request_key_witness :
  let b := {| prompt := Some (js "a beat");
              requestModel := None;
              requestApiKey := Some (js "sk-proj-abc") |} in
  let env := {| AUDIAL_OPENAI_API_KEY := None;
                OPENAI_API_KEY := None;
                AUDIAL_ANTHROPIC_API_KEY := None;
                ANTHROPIC_API_KEY := Some (js "sk-ant-xyz");
                AUDIAL_API_KEY := None |} in
  checks env b
  = Refused 400
      (js "You selected an Anthropic model but provided an OpenAI API key. Please update your API key in Settings to match the selected model.").
Proof.
  intros b env.
  rewrite (@request_key_shadows_the_environment env
             (Build_environment None None None None None) b eq_refl).
  vm_compute. reflexivity.
Defined.

Lemma startsWith_prefix (p q s : jsstring) :
  startsWith (p ++ q) s = true -> startsWith p s = true.
Proof.
  revert s. induction p as [|c p IH]; intros s H; [reflexivity|].
  destruct s as [|d s]; [discriminate|].
  cbn [app startsWith] in *. apply andb_prop in H as [H1 H2].
  now rewrite H1, IH.
Qed.

(** X14.  [detectApiKeyProvider] goes by two prefixes only: [sk-ant-] is an
    Anthropic key, any other [sk-] is an OpenAI key, everything else is
    unknown.  The test for [sk-proj-] never decides. *)
Theorem detectApiKeyProvider_by_prefix (apiKey : jsstring) :
  detectApiKeyProvider apiKey
  = if startsWith (js "sk-ant-") apiKey then KeyAnthropic
    else if startsWith (js "sk-") apiKey then KeyOpenai
    else KeyUnknown.
Proof.
  unfold detectApiKeyProvider.
  destruct (startsWith (js "sk-ant-") apiKey); [reflexivity|].
  destruct (startsWith (js "sk-") apiKey) eqn:H; [reflexivity|].
  destruct (startsWith (js "sk-proj-") apiKey) eqn:H'; [|reflexivity].
  apply (@startsWith_prefix (js "sk-") (js "proj-")) in H'. congruence.
Qed.

End PreflightFacts.

Module RetryPromptFacts.

Import Route CreativeDirectives StringFacts.

(** A line of a joined text, between what comes before and after. *)
Lemma joined_line (x : jsstring) (l : list jsstring) (t : jsstring) :
  In x l ->
  includes ([LF] ++ x ++ [LF]) ([LF] ++ join [LF] l ++ [LF] ++ t) = true.
Proof.
  induction l as [|y l IH]; intros H; [destruct H|].
  destruct l as [|z l].
  - destruct H as [->|[]]. cbn [join].
    replace ([LF] ++ x ++ [LF] ++ t) with (([LF] ++ x ++ [LF]) ++ t)
      by now rewrite <- !app_assoc.
    apply includes_here, startsWith_app.
  - change (join [LF] (y :: z :: l)) with (y ++ [LF] ++ join [LF] (z :: l)).
    destruct H as [->|H].
    + replace ([LF] ++ (x ++ [LF] ++ join [LF] (z :: l)) ++ [LF] ++ t)
        with (([LF] ++ x ++ [LF]) ++ join [LF] (z :: l) ++ [LF] ++ t)
        by now rewrite <- !app_assoc.
      apply includes_here, startsWith_app.
    + replace ([LF] ++ (y ++ [LF] ++ join [LF] (z :: l)) ++ [LF] ++ t)
        with (([LF] ++ y) ++ [LF] ++ join [LF] (z :: l) ++ [LF] ++ t)
        by now rewrite <- !app_assoc.
      apply includes_skip, IH, H.
Qed.

Lemma retry_line (a h t x : jsstring) (l : list jsstring) :
  In x l ->
  includes (LF :: x ++ [LF]) (a ++ (h ++ [LF]) ++ join [LF] l ++ LF :: t)
  = true.
Proof.
  intros H.
  replace (a ++ (h ++ [LF]) ++ join [LF] l ++ LF :: t)
    with ((a ++ h) ++ [LF] ++ join [LF] l ++ [LF] ++ t)
    by now rewrite <- !app_assoc.
  apply includes_skip. now apply joined_line.
Qed.

Lemma buildRetryPrompt_line (userRequest i : jsstring)
  (issues : list jsstring) :
  In i issues ->
  includes (LF :: (js "- " ++ i) ++ [LF])
           (buildRetryPrompt userRequest issues) = true.
Proof.
  intros H. unfold buildRetryPrompt. cbn zeta.
  match goal with
  | |- includes _ (_ ++ ?h ++ join [LF] ?l ++ ?t) = true =>
      change h with (removelast h ++ [LF]);
      change t with (LF :: tl t)
  end.
  apply retry_line. now apply (in_map (fun i => js "- " ++ i)).
Qed.

(** X15.  The retry prompt begins with the request of the user and holds
    every issue of the validator on a line of its own, after a dash. *)
Theorem retry_prompt_lists_every_issue (userRequest : jsstring)
  (issues : list jsstring) :
  startsWith userRequest (buildRetryPrompt userRequest issues) = true
  /\ Forall (fun i =>
               includes (LF :: (js "- " ++ i) ++ [LF])
                        (buildRetryPrompt userRequest issues) = true)
            issues.
Proof.
  split.
  - apply startsWith_app.
  - apply Forall_forall. intros i H. now apply buildRetryPrompt_line.
Qed.

(** X16.  In edit mode the user prompt of the second attempt holds the
    current code in a fenced block, the request of the user and every
    issue of the validator on a line of its own. *)
Theorem retry_in_edit_mode_carries_the_current_code
  (buildUserPrompt : jsstring -> jsstring) (prompt : jsstring)
  (mode : generationMode) (currentCode : option jsstring)
  (issues : list jsstring) (c : jsstring)
  (Hedit : editing mode currentCode = Some c) :
  let retry :=
    retryUserPromptFor buildUserPrompt prompt mode currentCode issues in
  mode = edit
  /\ currentCode = Some c
  /\ includes (jsq "```javascript|" ++ c ++ jsq "|```") retry = true
  /\ includes (js "user request: " ++ prompt) retry = true
  /\ Forall (fun i => includes (LF :: (js "- " ++ i) ++ [LF]) retry = true)
            issues.
Proof.
  intros retry. unfold retry, retryUserPromptFor. rewrite Hedit.
  assert (Hmode : mode = edit /\ currentCode = Some c).
  { unfold editing in Hedit. destruct mode; [discriminate|].
    destruct currentCode as [c'|]; [|discriminate].
    destruct (negb (Nat.eqb (List.length c') 0)
              && negb (Nat.eqb (List.length (trim c')) 0))%bool;
      [|discriminate].
    injection Hedit as ->. split; reflexivity. }
  destruct Hmode as [Hm Hc]. split; [exact Hm|]. split; [exact Hc|].
  unfold buildEditContext. split; [|split].
  - match goal with
    | |- includes _ (?h ++ c ++ ?t ++ ?u) = true =>
        change h with (firstn (List.length h - 14) h ++ jsq "```javascript|");
        change t with (jsq "|```" ++ skipn 4 t);
        set (h0 := firstn (List.length h - 14) h);
        set (t1 := skipn 4 t);
        replace ((h0 ++ jsq "```javascript|") ++ c ++ (jsq "|```" ++ t1) ++ u)
          with (h0 ++ (jsq "```javascript|" ++ c ++ jsq "|```") ++ t1 ++ u)
          by now rewrite <- !app_assoc
    end.
    apply includes_mid.
  - unfold buildRetryPrompt. cbn zeta.
    match goal with
    | |- includes _ (?h ++ c ++ ?t ++ (prompt ++ ?x) ++ ?u) = true =>
        change t with (firstn (List.length t - 14) t ++ js "user request: ");
        set (t0 := firstn (List.length t - 14) t);
        replace (h ++ c ++ (t0 ++ js "user request: ") ++ (prompt ++ x) ++ u)
          with ((h ++ c ++ t0) ++ (js "user request: " ++ prompt) ++ x ++ u)
          by now rewrite <- !app_assoc
    end.
    apply includes_mid.
  - apply Forall_forall. intros i H.
    apply includes_skip, includes_skip, includes_skip, includes_app_l.
    now apply buildRetryPrompt_line.
Qed.

Lemma retry_in_edit_mode_witness :
  let retry :=
    retryUserPromptFor (fun request => request) (js "darker") edit
                       (Some (js "setcpm(90)"))
                       [js "code too short - add more content"] in
  includes (jsq "```javascript|setcpm(90)|```") retry = true
  /\ includes (jsq "|- code too short - add more content|") retry = true.
Proof.
  intros retry.
  destruct (@retry_in_edit_mode_carries_the_current_code
              (fun request => request) (js "darker") edit
              (Some (js "setcpm(90)"))
              [js "code too short - add more content"] (js "setcpm(90)")
              eq_refl) as (_ & _ & Hcode & _ & Hissues).
  split; [exact Hcode|].
  exact (Forall_inv Hissues).
Defined.

End RetryPromptFacts.

Module ScanFacts.

Import Texts RegexFacts.

Lemma without_cons (c x : cu) (s : jsstring) :
  without c (x :: s) = (negb (N.eqb x c) && without c s)%bool.
Proof. reflexivity. Qed.

Lemma without_tail (c x : cu) (s : jsstring) :
  without c (x :: s) = true -> without c s = true.
Proof. rewrite without_cons. intros H. now apply andb_prop in H. Qed.

Lemma without_app (c : cu) (a b : jsstring) :
  without c (a ++ b) = (without c a && without c b)%bool.
Proof. apply forallb_app. Qed.

(** A pattern that finds nothing in the texts of a kind that is closed
    under tails finds nothing in a pass over such a text. *)
Lemma scan_none (r : re) (ok : jsstring -> bool) :
  (forall c s, ok (c :: s) = true -> ok s = true) ->
  (forall p s, ok s = true -> execAt r p s = None) ->
  forall p s, ok s = true -> scan r p 0 s = List.map Unmatched s.
Proof.
  intros Htail Hexec p s. revert p.
  induction s as [|c s IH]; intros p H.
  - rewrite scan_end, Hexec by exact H. reflexivity.
  - rewrite scan_here, Hexec by exact H. cbn [List.map]. f_equal.
    apply IH. now apply Htail with (c := c).
Qed.

Lemma matchesOf_unmatched (s : jsstring) :
  matchesOf (List.map Unmatched s) = [].
Proof. induction s; [reflexivity | exact IHs]. Qed.

(** A pattern that begins with a code unit finds nothing where that unit
    is not. *)
Lemma run_chr_miss (c : cu) (k : mstate -> option mstate) (s : mstate) :
  without c (rest s) = true -> run (chr c) k s = None.
Proof.
  intros H. cbn [run chr]. destruct (rest s) as [|x t]; [reflexivity|].
  rewrite without_cons in H. apply andb_prop in H as [H _].
  apply negb_true_iff in H. rewrite N.eqb_sym in H. now rewrite H.
Qed.

Lemma matchAll_none (r : re) (c : cu) (s : jsstring) :
  (forall p s, without c s = true -> execAt r p s = None) ->
  without c s = true -> matchAll r s = [].
Proof.
  intros Hexec H. unfold matchAll.
  rewrite (scan_none r (without c) (@without_tail c) Hexec) by exact H.
  apply matchesOf_unmatched.
Qed.

(** [test] and the first match of a pass. *)
Lemma testFrom_scan (r : re) (s : jsstring) :
  forall p, testFrom r p s = true <-> matchesOf (scan r p 0 s) <> [].
Proof.
  induction s as [|c s IH]; intros p.
  - cbn [testFrom]. rewrite scan_end.
    destruct (execAt r p []); cbn [matchesOf]; split; congruence.
  - cbn [testFrom]. rewrite scan_here.
    destruct (execAt r p (c :: s)) as [m|]; cbn [matchesOf].
    + split; congruence.
    + apply IH.
Qed.

Lemma test_matchG (r : re) (s : jsstring) :
  test r s = true <-> (1 <= List.length (matchG r s))%nat.
Proof.
  unfold test, matchG, matchAll. rewrite length_map, testFrom_scan.
  destruct (matchesOf (scan r None 0 s)); cbn [List.length]; split;
    try congruence; lia.
Qed.

(** A match at a place is found by [test] from any place before it. *)
Lemma testFrom_app (r : re) (a s : jsstring) :
  (forall p, execAt r p s <> None) ->
  forall p, testFrom r p (a ++ s) = true.
Proof.
  intros H. induction a as [|c a IH]; intros p.
  - cbn [app]. destruct s as [|c s]; cbn [testFrom];
      destruct (execAt r p _) eqn:E; try reflexivity; now destruct (H p).
  - cbn [app testFrom]. destruct (execAt r p (c :: a ++ s)); [reflexivity|].
    apply IH.
Qed.

End ScanFacts.

Module ValidatorLinks.

Import ValidateOutput ParseOutput Texts Lines StatedSyntax ScanFacts
  RegexFacts UnchangedClaims SyntaxClaims.

Lemma exec_effect (effect : string) (p : option cu) (s : jsstring) :
  without BSL s = true -> execAt (reEffect effect) p s = None.
Proof.
  intros H. unfold execAt, reEffect. cbn [cat].
  change (run (Cat (chr BSL) (Cat dot (lit (tl (js effect)))))
              (fun x => Some x) (MState p s []))
    with (run (chr BSL)
              (run (Cat dot (lit (tl (js effect)))) (fun x => Some x))
              (MState p s [])).
  now rewrite run_chr_miss.
Qed.

Lemma effects_fold (line : jsstring) (l : list string) (n : nat) :
  without BSL line = true ->
  fold_left (fun effectCount effect =>
               (effectCount + List.length (matchG (reEffect effect) line))%nat)
            l n = n.
Proof.
  intros H. revert n. induction l as [|e l IH]; intros n; [reflexivity|].
  cbn [fold_left]. unfold matchG at 2.
  rewrite (@matchAll_none (reEffect e) BSL line (exec_effect e) H).
  cbn [List.map List.length]. rewrite Nat.add_0_r. apply IH.
Qed.

Lemma effectCount_none (line : jsstring) :
  without BSL line = true -> effectCount line = 0%nat.
Proof. apply effects_fold. Qed.

Lemma without_prepend (c : cu) (a : jsstring) (ls : list jsstring) :
  without c a = true ->
  forallb (without c) ls = true ->
  forallb (without c) (prepend a ls) = true.
Proof.
  intros Ha H. destruct ls as [|l ls]; cbn [prepend forallb] in *.
  - now rewrite Ha.
  - apply andb_prop in H as [H1 H2]. now rewrite without_app, Ha, H1, H2.
Qed.

Lemma splitLF_without (c : cu) (s : jsstring) :
  without c s = true -> forallb (without c) (splitLF s) = true.
Proof.
  induction s as [|x s IH]; intros H; [reflexivity|].
  rewrite splitLF_cons. rewrite without_cons in H.
  apply andb_prop in H as [Hx Hs].
  destruct (N.eqb x LF).
  - cbn [forallb]. now rewrite IH.
  - apply without_prepend; [|now apply IH].
    cbn [without forallb]. now rewrite Hx.
Qed.

(** X17.  The pattern that [checkEffectsDensity] builds for an effect begins
    with a literal backslash, so that on a text without backslash no effect
    is counted on any line, and the rule on the number of effects of a
    voice reports nothing as long as the limit is not negative. *)
Theorem effect_density_rule_needs_a_backslash
  (code : jsstring) (cfg : ValidationConfig)
  (Hcode : without BSL code = true)
  (Hlimit : gt (ofNat 0) (maxEffectsPerVoice cfg) = false) :
  checkEffectsDensity code cfg = false
  /\ Forall (fun line => effectCount line = 0%nat) (splitLF code)
  /\ Rules.effectDensity code cfg = [].
Proof.
  assert (Hlines : Forall (fun line => effectCount line = 0%nat)
                          (splitLF code)).
  { apply Forall_forall. intros line Hin. apply effectCount_none.
    pose proof (splitLF_without BSL code Hcode) as H.
    rewrite forallb_forall in H. now apply H. }
  assert (Hcheck : checkEffectsDensity code cfg = false).
  { unfold checkEffectsDensity. induction Hlines as [|line ls Hl _ IH];
      [reflexivity|].
    cbn [existsb]. rewrite Hl, Hlimit, IH. now destruct (includes _ line). }
  split; [exact Hcheck|]. split; [exact Hlines|].
  unfold Rules.effectDensity. now rewrite Hcheck.
Qed.

Lemma effect_density_witness :
  let code :=
    jsq "setcpm(90)|$: s(~bd~).lpf(900).hpf(90).room(0.2).size(2).delay(0.2).delaytime(0.1).pan(0.4).crush(8).coarse(2).shape(0.2).distort(0.1).speed(2)" in
  checkEffectsDensity code DEFAULT_CONFIG = false
  /\ Rules.effectDensity code DEFAULT_CONFIG = [].
Proof.
  intros code.
  destruct (@effect_density_rule_needs_a_backslash code DEFAULT_CONFIG
              ltac:(vm_compute; reflexivity) ltac:(vm_compute; reflexivity))
    as (H1 & _ & H2).
  split; assumption.
Defined.

(** *** What the content check of the extractor settles for the validator *)

Lemma firstCodeLineOf_in (lines : list jsstring) :
  firstCodeLineOf lines <> [] ->
  exists line, In line lines /\ firstCodeLineOf lines = trim line.
Proof.
  induction lines as [|line lines IH]; intros H; [now destruct H|].
  cbn [firstCodeLineOf] in *.
  destruct (negb (Nat.eqb (List.length (trim line)) 0)
            && negb (startsWith (js "//") (trim line)))%bool.
  - exists line. split; [now left | reflexivity].
  - destruct (IH H) as (l & Hin & Hl). exists l. split; [now right | exact Hl].
Qed.

Lemma prepend_in (a line : jsstring) (ls : list jsstring) :
  In line (prepend a ls) ->
  (exists l, line = a ++ l /\ (ls = [] /\ l = [] \/ hd_error ls = Some l))
  \/ In line (tl ls).
Proof.
  destruct ls as [|l ls]; cbn [prepend In tl hd_error].
  - intros [<-|[]]. left. exists []. rewrite app_nil_r. auto.
  - intros [<-|H]; [|now right]. left. exists l. auto.
Qed.

Lemma splitLF_in (code line : jsstring) :
  In line (splitLF code) -> exists a b, code = a ++ line ++ b.
Proof.
  revert line. induction code as [|c code IH]; intros line H.
  - destruct H as [<-|[]]. now exists [], [].
  - rewrite splitLF_cons in H. destruct (N.eqb c LF).
    + destruct H as [<-|H].
      * now exists [], (c :: code).
      * destruct (IH line H) as (a & b & ->). now exists (c :: a), b.
    + destruct (splitLF code) as [|l ls] eqn:E;
        [now destruct (splitLF_not_nil code)|].
      cbn [prepend] in H. destruct H as [<-|H].
      * destruct (IH l (or_introl eq_refl)) as (a & b & Hc).
        (* the first line begins the text *)
        assert (Hfirst : exists b', code = l ++ b').
        { clear - E. revert l ls E.
          induction code as [|x code IHc]; intros l ls E.
          - injection E as <- <-. now exists [].
          - rewrite splitLF_cons in E. destruct (N.eqb x LF).
            + injection E as <- <-. now exists (x :: code).
            + destruct (splitLF code) as [|l' ls'] eqn:E';
                [now destruct (splitLF_not_nil code)|].
              cbn [prepend] in E. injection E as <- <-.
              destruct (IHc l' ls' eq_refl) as (b' & ->).
              now exists b'. }
        destruct Hfirst as (b' & ->). now exists [], b'.
      * destruct (IH line (or_intror H)) as (a & b & ->).
        now exists (c :: a), b.
Qed.

Lemma trimStart_split (s : jsstring) : exists w, s = w ++ trimStart s.
Proof.
  induction s as [|c s [w IH]]; [now exists []|].
  cbn [trimStart]. destruct (isSpace c).
  - exists (c :: w). cbn [app]. now f_equal.
  - now exists [].
Qed.

Lemma trim_split (s : jsstring) : exists w1 w2, s = w1 ++ trim s ++ w2.
Proof.
  destruct (trimStart_split s) as [w1 H1].
  destruct (trimStart_split (rev (trimStart s))) as [w2 H2].
  exists w1, (rev w2). unfold trim, trimEnd.
  rewrite <- rev_app_distr, <- H2, rev_involutive. exact H1.
Qed.

Lemma startsWith_split (p u : jsstring) :
  startsWith p u = true -> exists t, u = p ++ t.
Proof.
  revert u. induction p as [|c p IH]; intros u H; [now exists u|].
  destruct u as [|d u]; [discriminate|].
  cbn [startsWith] in H. apply andb_prop in H as [Hc H].
  apply N.eqb_eq in Hc as ->. destruct (IH u H) as [t ->]. now exists t.
Qed.

Lemma exec_setcpm (p : option cu) (b : jsstring) :
  execAt reSetcpm p (js "setcpm(" ++ b) <> None.
Proof.
  unfold execAt. cbn. discriminate.
Qed.

Lemma exec_setcpm_space (p : option cu) (b : jsstring) :
  execAt reSetcpm p (js "setcpm (" ++ b) <> None.
Proof.
  unfold execAt. cbn -[Nat.ltb Nat.sub].
  replace (S (List.length b) <? S (S (List.length b)))%nat with true
    by (symmetry; apply Nat.ltb_lt; lia).
  discriminate.
Qed.

Lemma content_valid_conditions (code : jsstring) :
  contentValid (validateCodeContent code) = true ->
  firstCodeLineOf (splitLF code) <> []
  /\ (startsWith (js "setcpm(") (firstCodeLineOf (splitLF code)) = true
      \/ startsWith (js "setcpm (") (firstCodeLineOf (splitLF code)) = true)
  /\ test (str "$:") code = true
  /\ bracketsBalanced code = true.
Proof.
  unfold validateCodeContent, bracketsBalanced. cbn zeta.
  change (str "(") with (chr 40%N). change (str ")") with (chr 41%N).
  change (str "[") with (chr 91%N). change (str "]") with (chr 93%N).
  change (str "{") with (chr 123%N). change (str "}") with (chr 125%N).
  rewrite !count_chr.
  destruct (firstCodeLineOf (splitLF code)) as [|c fl] eqn:Hfl;
    [discriminate|].
  cbn [List.length Nat.eqb].
  destruct (startsWith (js "setcpm(") (c :: fl)) eqn:H1;
    destruct (startsWith (js "setcpm (") (c :: fl)) eqn:H2;
    cbn [negb andb]; try discriminate;
    destruct (test (str "$:") code); cbn [negb]; try discriminate;
    destruct (Nat.eqb (countCu 40%N code) (countCu 41%N code));
    cbn [negb]; try discriminate;
    destruct (Nat.eqb (countCu 91%N code) (countCu 93%N code));
    cbn [negb]; try discriminate;
    destruct (Nat.eqb (countCu 123%N code) (countCu 125%N code));
    cbn [negb]; try discriminate;
    intros _; repeat split; auto; discriminate.
Qed.

Lemma setcpm_found (code : jsstring) :
  firstCodeLineOf (splitLF code) <> [] ->
  startsWith (js "setcpm(") (firstCodeLineOf (splitLF code)) = true
  \/ startsWith (js "setcpm (") (firstCodeLineOf (splitLF code)) = true ->
  hasSetcpm code = true.
Proof.
  intros Hfl Hstart.
  destruct (firstCodeLineOf_in _ Hfl) as (line & Hin & Htrim).
  destruct (splitLF_in _ _ Hin) as (a & b & ->).
  destruct (trim_split line) as (w1 & w2 & Hline).
  rewrite Htrim in Hstart. unfold hasSetcpm, test.
  rewrite Hline.
  destruct Hstart as [H|H]; apply startsWith_split in H as [t ->].
  - replace (a ++ (w1 ++ (js "setcpm(" ++ t) ++ w2) ++ b)
      with ((a ++ w1) ++ js "setcpm(" ++ (t ++ w2 ++ b))
      by now rewrite <- !app_assoc.
    apply testFrom_app. intros p. apply exec_setcpm.
  - replace (a ++ (w1 ++ (js "setcpm (" ++ t) ++ w2) ++ b)
      with ((a ++ w1) ++ js "setcpm (" ++ (t ++ w2 ++ b))
      by now rewrite <- !app_assoc.
    apply testFrom_app. intros p. apply exec_setcpm_space.
Qed.

Lemma syntaxBalance_balanced (code : jsstring) :
  bracketsBalanced code = true ->
  Rules.syntaxBalance code = miniNotationIssues code.
Proof.
  intros H. unfold miniNotationIssues. rewrite H.
  unfold bracketsBalanced in H.
  apply andb_prop in H as [H H3]. apply andb_prop in H as [H1 H2].
  unfold Rules.syntaxBalance, getSyntaxIssue. cbn zeta.
  change (str "(") with (chr 40%N). change (str ")") with (chr 41%N).
  change (str "[") with (chr 91%N). change (str "]") with (chr 93%N).
  change (str "{") with (chr 123%N). change (str "}") with (chr 125%N).
  rewrite !count_chr, H1, H2, H3. cbn [negb].
  rewrite angle_loop. fold (quotedSegments code).
  destruct (find _ (quotedSegments code)); reflexivity.
Qed.

(** X18.  A text that passes the content check of the extractor has a tempo
    call that the validator finds, at least one voice, and as many opening
    as closing parentheses, square brackets and braces: the validator's
    rule on the tempo reports nothing on it, under any configuration, and
    its syntax rule can only report the mini-notation. *)
Theorem content_check_settles_tempo_voices_and_brackets (code : jsstring)
  (Hvalid : contentValid (validateCodeContent code) = true) :
  hasSetcpm code = true
  /\ (1 <= countVoices code)%nat
  /\ bracketsBalanced code = true
  /\ (forall cfg, Rules.tempo code cfg = [])
  /\ Rules.syntaxBalance code = miniNotationIssues code.
Proof.
  destruct (content_valid_conditions code Hvalid) as (Hfl & Hstart & Hv & Hb).
  assert (Hs : hasSetcpm code = true) by now apply setcpm_found.
  split; [exact Hs|]. split; [now apply test_matchG|].
  split; [exact Hb|]. split.
  - intros cfg. unfold Rules.tempo. rewrite Hs.
    now destruct (requireSetcpm cfg).
  - now apply syntaxBalance_balanced.
Qed.

Lemma content_check_witness :
  hasSetcpm Ending.calmArtifact = true
  /\ countVoices Ending.calmArtifact = 4%nat.
Proof.
  destruct (@content_check_settles_tempo_voices_and_brackets
              Ending.calmArtifact ltac:(vm_compute; reflexivity))
    as (H & _).
  split; [exact H | vm_compute; reflexivity].
Defined.

End ValidatorLinks.

Module FenceFacts.

Import ParseOutput Texts Fences Stated Lines ScanFacts RegexFacts
  UnchangedClaims SyntaxClaims ValidatorLinks.

(** The pattern of the fenced blocks finds nothing where no backtick is. *)
Lemma exec_fence_miss (p : option cu) (s : jsstring) :
  hd_error s <> Some BQ -> execAt codeBlockRegex p s = None.
Proof.
  intros H. unfold execAt, codeBlockRegex.
  destruct s as [|c s]; [reflexivity|].
  assert (Hc : N.eqb BQ c = false).
  { apply N.eqb_neq. intros <-. now apply H. }
  cbn -[N.eqb]. change 96%N with BQ. now rewrite Hc.
Qed.

Lemma without_hd (c : cu) (s t : jsstring) :
  without c s = true -> s <> [] -> hd_error (s ++ t) <> Some c.
Proof.
  destruct s as [|x s]; [congruence|]. intros H _.
  rewrite without_cons in H. apply andb_prop in H as [H _].
  apply negb_true_iff, N.eqb_neq in H. cbn. congruence.
Qed.

(** A pass over a prefix without backticks. *)
Lemma scan_fence_prefix (pre s : jsstring) :
  without BQ pre = true ->
  forall p, exists q,
    scan codeBlockRegex p 0 (pre ++ s)
    = List.map Unmatched pre ++ scan codeBlockRegex q 0 s.
Proof.
  induction pre as [|c pre IH]; intros H p.
  - exists p. reflexivity.
  - cbn [app]. rewrite scan_here, exec_fence_miss.
    + destruct (IH (without_tail _ _ _ H) (Some c)) as [q Hq].
      exists q. cbn [List.map app]. now rewrite Hq.
    + change (c :: pre ++ s) with ((c :: pre) ++ s).
      apply without_hd; [exact H | discriminate].
Qed.

Lemma scan_fence_rest (post : jsstring) :
  without BQ post = true ->
  forall p, scan codeBlockRegex p 0 post = List.map Unmatched post.
Proof.
  intros H p. revert p H. induction post as [|c post IH]; intros p H.
  - rewrite scan_end, exec_fence_miss; [reflexivity | discriminate].
  - rewrite scan_here, exec_fence_miss.
    + cbn [List.map]. f_equal. apply IH. now apply without_tail in H.
    + rewrite <- (app_nil_r (c :: post)).
      apply without_hd; [exact H | discriminate].
Qed.

(** The first step of a lazy star is to go on with what follows. *)
Lemma lazy_stop (a : re) (k : mstate -> option mstate) (s x : mstate) :
  k s = Some x -> run (Star false a) k s = Some x.
Proof. intros H. cbn. now rewrite H. Qed.

Lemma lazy_any_step (k : mstate -> option mstate) (p : option cu) (c : cu)
  (t : jsstring) (caps : list (nat * jsstring)) :
  k (MState p (c :: t) caps) = None ->
  run (Star false anything) k (MState p (c :: t) caps)
  = run (Star false anything) k (MState (Some c) t caps).
Proof.
  intros H. cbn -[Nat.ltb]. rewrite H.
  assert (Hlt : Nat.ltb (List.length t) (S (List.length t)) = true)
    by (apply Nat.ltb_lt; lia).
  rewrite Hlt. reflexivity.
Qed.

(** A lazy star of any unit stops at the first place where what follows
    matches. *)
Lemma lazy_until (k : mstate -> option mstate) (inner after : jsstring)
  (caps : list (nat * jsstring)) (x : mstate) :
  (forall p c t, In c inner -> k (MState p (c :: t) caps) = None) ->
  forall p,
    k (MState (lastOr p inner) after caps) = Some x ->
    run (Star false anything) k (MState p (inner ++ after) caps) = Some x.
Proof.
  induction inner as [|c inner IH]; intros Hk p Hx.
  - now apply lazy_stop.
  - cbn [app]. rewrite lazy_any_step by (apply Hk; now left).
    apply IH.
    + intros p' c' t' Hin. apply Hk. now right.
    + replace (lastOr (Some c) inner) with (lastOr p (c :: inner)); [exact Hx|].
      unfold lastOr. cbn [rev].
      destruct (rev inner) as [|y r] eqn:E; reflexivity.
Qed.

Lemma firstn_front {A} (a b : list A) :
  firstn (List.length (a ++ b) - List.length b) (a ++ b) = a.
Proof.
  rewrite length_app, Nat.add_sub, firstn_app, Nat.sub_diag, firstn_all.
  cbn. apply app_nil_r.
Qed.

Lemma without_in (c x : cu) (s : jsstring) :
  without c s = true -> In x s -> x <> c.
Proof.
  unfold without. rewrite forallb_forall. intros H Hin.
  apply H in Hin. now apply negb_true_iff, N.eqb_neq in Hin.
Qed.

(** From the inner text on: the group and the closing fence. *)
Lemma run_inner (q : option cu) (inner post : jsstring) :
  without BQ inner = true ->
  Regex.run (Cat (Group 1 (lazyStar anything)) (str "```"))
            (fun x => Some x) (MState q (inner ++ js "```" ++ post) [])
  = Some (MState (Some BQ) post [(1%nat, inner)]).
Proof.
  intros H.
  set (s0 := MState q (inner ++ js "```" ++ post) []).
  set (G := fun s' : mstate =>
              Regex.run (str "```") (fun x => Some x)
                (MState (prev s') (rest s')
                   ((1%nat,
                     firstn (List.length (rest s0) - List.length (rest s'))
                            (rest s0)) :: caps s'))).
  change (Regex.run (Star false anything) G s0
          = Some (MState (Some BQ) post [(1%nat, inner)])).
  unfold s0 at 1. apply lazy_until.
  - intros p c t Hin. unfold G. cbn -[N.eqb Nat.sub firstn].
    apply (@without_in BQ c inner H) in Hin. change 96%N with BQ.
    apply not_eq_sym, N.eqb_neq in Hin. now rewrite Hin.
  - unfold G. cbn [prev rest caps]. unfold s0. cbn [rest].
    rewrite firstn_front. reflexivity.
Qed.

(** The opening fence, the tag and the line feed, before any tail. *)
Lemma run_opening (tail : re) (k : mstate -> option mstate)
  (p : option cu) (tag text : jsstring) (x : mstate) :
  isFenceTag tag = true ->
  Regex.run tail k (MState (Some LF) text []) = Some x ->
  Regex.run
    (Cat (str "```")
       (Cat (opt (alt [str "javascript"; str "js"; str "strudel"]))
          (Cat (opt (chr LF)) tail)))
    k (MState p (js "```" ++ tag ++ [LF] ++ text) [])
  = Some x.
Proof.
  intros Htag Hx. unfold isFenceTag, fenceTags in Htag.
  cbn [existsb] in Htag. rewrite !orb_true_iff in Htag.
  destruct Htag as [H|[H|[H|[H|H]]]]; try discriminate;
    apply eqs_eq in H; subst tag; cbn; change 10%N with LF;
    now rewrite Hx.
Qed.

(** What the pattern finds at a block. *)
Lemma exec_fenced (p : option cu) (tag inner post : jsstring) :
  isFenceTag tag = true ->
  without BQ inner = true ->
  execAt codeBlockRegex p (fenced tag inner ++ post)
  = Some (RMatch (fenced tag inner) [(1%nat, inner)]).
Proof.
  intros Htag Hinner. unfold execAt.
  assert (Hrun : Regex.run codeBlockRegex (fun x => Some x)
                   (MState p (fenced tag inner ++ post) [])
                 = Some (MState (Some BQ) post [(1%nat, inner)])).
  { unfold fenced. rewrite <- !app_assoc.
    apply (run_opening _ _ p tag _ Htag). now apply run_inner. }
  rewrite Hrun. cbn [rest caps]. now rewrite firstn_front.
Qed.

Lemma matchesOf_app (a b : list piece) :
  matchesOf (a ++ b) = matchesOf a ++ matchesOf b.
Proof.
  induction a as [|[c|m] a IH]; cbn [app matchesOf]; [reflexivity|exact IH|].
  now rewrite IH.
Qed.

(** The blocks of a text with one block and no other backtick. *)
Lemma matchAll_fenced (pre tag inner post : jsstring) :
  isFenceTag tag = true ->
  without BQ pre = true ->
  without BQ inner = true ->
  without BQ post = true ->
  matchAll codeBlockRegex (pre ++ fenced tag inner ++ post)
  = [RMatch (fenced tag inner) [(1%nat, inner)]].
Proof.
  intros Htag Hpre Hinner Hpost. unfold matchAll.
  destruct (@scan_fence_prefix pre (fenced tag inner ++ post) Hpre None)
    as [q ->].
  rewrite matchesOf_app, matchesOf_unmatched. cbn [app].
  pose proof (@exec_fenced q tag inner post Htag Hinner) as E.
  assert (Hf : exists t, fenced tag inner = BQ :: t)
    by (unfold fenced; eexists; reflexivity).
  destruct Hf as [t Hf]. rewrite Hf in E |- *. cbn [app] in E |- *.
  rewrite scan_here, E. cbn [mtext List.length matchesOf]. f_equal.
  destruct (scan_over codeBlockRegex t post (Some BQ)) as [q' ->].
  rewrite scan_fence_rest by exact Hpost. apply matchesOf_unmatched.
Qed.

Lemma trimStart_before (pre : jsstring) (b : cu) (s : jsstring) :
  isSpace b = false -> trimStart (pre ++ b :: s) = trimStart pre ++ b :: s.
Proof.
  intros Hb. induction pre as [|c pre IH].
  - cbn [app trimStart]. now rewrite Hb.
  - cbn [app trimStart]. destruct (isSpace c); [exact IH | reflexivity].
Qed.

Lemma trimEnd_after (s : jsstring) (b : cu) (post : jsstring) :
  isSpace b = false -> trimEnd (s ++ b :: post) = s ++ b :: trimEnd post.
Proof.
  intros Hb. unfold trimEnd.
  rewrite rev_app_distr. cbn [rev]. rewrite <- app_assoc. cbn [app].
  rewrite trimStart_before by exact Hb.
  rewrite rev_app_distr. cbn [rev]. rewrite rev_involutive.
  now rewrite <- app_assoc.
Qed.

Lemma without_trimStart (c : cu) (s : jsstring) :
  without c s = true -> without c (trimStart s) = true.
Proof.
  intros H. destruct (trimStart_split s) as [w Hw].
  rewrite Hw, without_app in H. now apply andb_prop in H.
Qed.

Lemma without_rev (c : cu) (s : jsstring) :
  without c (rev s) = without c s.
Proof.
  induction s as [|x s IH]; [reflexivity|].
  cbn [rev]. rewrite without_app, IH, without_cons.
  cbn [without forallb]. rewrite andb_true_r. apply andb_comm.
Qed.

Lemma without_trimEnd (c : cu) (s : jsstring) :
  without c s = true -> without c (trimEnd s) = true.
Proof.
  intros H. unfold trimEnd. rewrite without_rev.
  apply without_trimStart. now rewrite without_rev.
Qed.

(** The trimmed text of a response with a block. *)
Lemma trim_fenced (pre tag inner post : jsstring) :
  trim (pre ++ fenced tag inner ++ post)
  = trimStart pre ++ fenced tag inner ++ trimEnd post.
Proof.
  unfold trim.
  assert (Hf : exists t, fenced tag inner = BQ :: t)
    by (unfold fenced; eexists; reflexivity).
  assert (Hl : exists t, fenced tag inner = t ++ [BQ]).
  { unfold fenced. exists (js "```" ++ tag ++ [LF] ++ inner ++ js "``").
    now rewrite <- !app_assoc. }
  destruct Hf as [t Hf]. destruct Hl as [t' Hl].
  replace (trimStart (pre ++ fenced tag inner ++ post))
    with (trimStart pre ++ fenced tag inner ++ post)
    by (rewrite Hf; cbn [app]; now rewrite trimStart_before).
  rewrite Hl.
  replace (trimStart pre ++ (t' ++ [BQ]) ++ post)
    with ((trimStart pre ++ t') ++ BQ :: post)
    by now rewrite <- !app_assoc.
  rewrite trimEnd_after by reflexivity.
  now rewrite <- !app_assoc.
Qed.

(** What the extractor reads in a response with one block. *)
Lemma parse_fenced (pre tag inner post : jsstring) :
  isFenceTag tag = true ->
  without BQ pre = true ->
  without BQ inner = true ->
  without BQ post = true ->
  let response := pre ++ fenced tag inner ++ post in
  parseClaudeOutput response
  = (if Nat.eqb (List.length (trim inner)) 0
     then ParseOutput.failure (js "code block is empty") response
     else accept (trim inner) response).
Proof.
  intros Htag Hpre Hinner Hpost response.
  assert (Htrim : trim response
                  = trimStart pre ++ fenced tag inner ++ trimEnd post)
    by apply trim_fenced.
  assert (Hm : matchAll codeBlockRegex (trim response)
               = [RMatch (fenced tag inner) [(1%nat, inner)]]).
  { rewrite Htrim. apply matchAll_fenced; try assumption.
    - now apply without_trimStart.
    - now apply without_trimEnd. }
  assert (Hguard : (Nat.eqb (List.length response) 0
                    || Nat.eqb (List.length (trim response)) 0)%bool
                   = false).
  { rewrite Htrim. unfold response, fenced. rewrite !length_app.
    cbn [List.length js List.map list_ascii_of_string].
    apply orb_false_iff. split; apply Nat.eqb_neq; lia. }
  unfold parseClaudeOutput. rewrite Hguard, Hm.
  cbn [List.length Nat.ltb Nat.leb group mcaps lookupCap Nat.eqb].
  unfold accept, ParseOutput.failure.
  destruct (Nat.eqb (List.length (trim inner)) 0); reflexivity.
Qed.

(** What the orchestrator reads in it. *)
Lemma extract_fenced (pre tag inner post : jsstring) :
  isFenceTag tag = true ->
  without BQ pre = true ->
  without BQ inner = true ->
  without BQ post = true ->
  Route.extractCodeForValidation (pre ++ fenced tag inner ++ post)
  = (if Nat.ltb 30 (List.length (trim inner))
     then Some (trim inner) else None).
Proof.
  intros Htag Hpre Hinner Hpost.
  unfold Route.extractCodeForValidation.
  rewrite (@matchAll_fenced pre tag inner post Htag Hpre Hinner Hpost).
  cbn [group mcaps lookupCap Nat.eqb].
  destruct (Nat.ltb 30 (List.length (trim inner))) eqn:Hlen.
  - apply Nat.ltb_lt in Hlen.
    destruct (List.length (trim inner)) eqn:E; [lia|]. reflexivity.
  - now rewrite andb_false_r.
Qed.

(** X20.  On a response with one fenced block (with or without one of the
    three language tags, and a line feed after the opening fence) and no
    other backtick, the extractor and the orchestrator read the same
    artifact, the trimmed inner text of the block, whatever prose surrounds
    it: the extractor rejects it when it is empty and puts it to the content
    check otherwise, the orchestrator validates it when it is longer than
    30 code units. *)
Theorem single_fenced_block_is_read_alike
  (pre tag inner post : jsstring)
  (Htag : isFenceTag tag = true)
  (Hpre : without BQ pre = true)
  (Hinner : without BQ inner = true)
  (Hpost : without BQ post = true) :
  let response := pre ++ fenced tag inner ++ post in
  parseClaudeOutput response
  = (if Nat.eqb (List.length (trim inner)) 0
     then ParseOutput.failure (js "code block is empty") response
     else accept (trim inner) response)
  /\ Route.extractCodeForValidation response
     = (if Nat.ltb 30 (List.length (trim inner))
        then Some (trim inner) else None).
Proof.
  intros response. split.
  - now apply parse_fenced.
  - now apply extract_fenced.
Qed.

Lemma single_fenced_block_witness :
  Ending.calmAnswer
  = jsq "here you go:|"
    ++ fenced (js "javascript") (Ending.calmArtifact ++ [LF]) ++ []
  /\ parseClaudeOutput Ending.calmAnswer
     = accept Ending.calmArtifact Ending.calmAnswer
  /\ Route.extractCodeForValidation Ending.calmAnswer
     = Some Ending.calmArtifact.
Proof.
  split; [vm_compute; reflexivity|].
  exact (@single_fenced_block_is_read_alike
           (jsq "here you go:|") (js "javascript")
           (Ending.calmArtifact ++ [LF]) []
           eq_refl eq_refl eq_refl eq_refl).
Defined.

End FenceFacts.

Module NormalFacts.

Import ParseOutput Texts Lines Escapes ScanFacts UnchangedClaims
  NormalizerClaims ValidatorLinks FenceFacts.

Lemma trimStart_trimStart (s : jsstring) :
  trimStart (trimStart s) = trimStart s.
Proof.
  induction s as [|c s IH]; [reflexivity|].
  cbn [trimStart]. destruct (isSpace c) eqn:E; [exact IH|].
  cbn [trimStart]. now rewrite E.
Qed.

Lemma trimEnd_trimEnd (s : jsstring) : trimEnd (trimEnd s) = trimEnd s.
Proof.
  unfold trimEnd. now rewrite rev_involutive, trimStart_trimStart.
Qed.

Lemma trimStart_trimEnd (s : jsstring) :
  trimStart (trimEnd (trimStart s)) = trimEnd (trimStart s).
Proof.
  induction s as [|c s IH]; [reflexivity|].
  cbn [trimStart]. destruct (isSpace c) eqn:E; [exact IH|].
  change (c :: s) with ([] ++ c :: s).
  rewrite (@trimEnd_after [] c s E). cbn [app trimStart]. now rewrite E.
Qed.

Lemma trim_trim (s : jsstring) : trim (trim s) = trim s.
Proof.
  unfold trim at 1. unfold trim. now rewrite trimStart_trimEnd, trimEnd_trimEnd.
Qed.

Lemma splitLF_one (s : jsstring) :
  without LF s = true -> splitLF s = [s].
Proof.
  induction s as [|c s IH]; intros H; [reflexivity|].
  rewrite without_cons in H. apply andb_prop in H as [Hc Hs].
  apply negb_true_iff in Hc. rewrite splitLF_cons, Hc, IH by exact Hs.
  reflexivity.
Qed.

Lemma splitLF_join (ls : list jsstring) :
  ls <> [] ->
  forallb (without LF) ls = true ->
  splitLF (join [LF] ls) = ls.
Proof.
  induction ls as [|l ls IH]; intros Hne H; [congruence|].
  cbn [forallb] in H. apply andb_prop in H as [Hl Hls].
  destruct ls as [|l' ls].
  - cbn [join]. now apply splitLF_one.
  - change (join [LF] (l :: l' :: ls)) with (l ++ LF :: join [LF] (l' :: ls)).
    rewrite splitLF_app_LF, splitLF_one, IH by (assumption || discriminate).
    reflexivity.
Qed.

Lemma without_trim (c : cu) (s : jsstring) :
  without c s = true -> without c (trim s) = true.
Proof. intros H. now apply without_trimEnd, without_trimStart. Qed.

Lemma keep_one (l : jsstring) :
  keep [l] = if Nat.ltb 0 (List.length (trim l)) then [trim l] else [].
Proof. reflexivity. Qed.

(** The lines that are kept: trimmed, not empty, without line feed. *)
Lemma keep_lines (lines : list jsstring) :
  forallb (without LF) lines = true ->
  forallb (without LF) (keep lines) = true
  /\ keep (keep lines) = keep lines.
Proof.
  induction lines as [|l lines IH]; intros H; [split; reflexivity|].
  cbn [forallb] in H. apply andb_prop in H as [Hl Hls].
  destruct (IH Hls) as [IH1 IH2].
  rewrite keep_cons, keep_one.
  destruct (Nat.ltb 0 (List.length (trim l))) eqn:E.
  - cbn [app forallb]. rewrite without_trim, IH1 by exact Hl.
    split; [reflexivity|].
    rewrite keep_cons, keep_one, trim_trim, E, IH2. reflexivity.
  - cbn [app]. split; assumption.
Qed.

Lemma splitLF_lines (s : jsstring) :
  forallb (without LF) (splitLF s) = true.
Proof.
  induction s as [|c s IH]; [reflexivity|].
  rewrite splitLF_cons. destruct (N.eqb c LF) eqn:E.
  - cbn [forallb]. now rewrite IH.
  - apply without_prepend; [|exact IH].
    cbn [without forallb]. now rewrite E.
Qed.

Lemma normalize_normalize (code : jsstring) :
  normalize (normalize code) = normalize code.
Proof.
  unfold normalize. fold (keep (splitLF code)).
  destruct (keep_lines (splitLF code) (splitLF_lines code))
    as [Hfree Hkeep].
  destruct (keep (splitLF code)) as [|l ls] eqn:E; [reflexivity|].
  rewrite splitLF_join by (discriminate || exact Hfree).
  fold (keep (l :: ls)). now rewrite Hkeep.
Qed.

(** X22.  The normalization behind [isCodeUnchanged] is idempotent: a
    normalized text is its own normal form, and every text is unchanged
    with respect to its normal form. *)
Theorem normalize_is_idempotent (code : jsstring) :
  normalize (normalize code) = normalize code
  /\ isCodeUnchanged code (normalize code) = true
  /\ isCodeUnchanged (normalize code) code = true.
Proof.
  split; [apply normalize_normalize|].
  unfold isCodeUnchanged. rewrite normalize_normalize.
  split; apply eqs_refl.
Qed.

Lemma without_noPair (P : cu -> bool) (s : jsstring) :
  without BSL s = true -> noPair P s = true.
Proof.
  induction s as [|x s IH]; intros H; [reflexivity|].
  rewrite without_cons in H. apply andb_prop in H as [Hx Hs].
  destruct s as [|y s]; [reflexivity|].
  rewrite noPair_two. apply negb_true_iff in Hx.
  rewrite Hx. cbn [andb negb]. now apply IH.
Qed.

Lemma unescape_length (isEsc : cu -> bool) (f : cu -> cu) (s : jsstring) :
  (List.length (unescape isEsc f s) <= List.length s)%nat.
Proof.
  assert (H : forall n s, (List.length s <= n)%nat ->
                (List.length (unescape isEsc f s) <= List.length s)%nat).
  { induction n as [|n IH]; intros t Hn.
    - destruct t; [cbn; lia | cbn in Hn; lia].
    - destruct t as [|x [|y t]]; [cbn; lia | cbn; lia |].
      rewrite unescape_two.
      destruct (N.eqb x BSL && isEsc y)%bool.
      + cbn [List.length] in *. specialize (IH t ltac:(lia)). lia.
      + cbn [List.length] in *. specialize (IH (y :: t) ltac:(cbn; lia)).
        cbn [List.length] in IH. lia. }
  now apply (H (List.length s)).
Qed.

Lemma unescape_same (isEsc : cu -> bool) (f : cu -> cu) (s : jsstring) :
  List.length (unescape isEsc f s) = List.length s ->
  unescape isEsc f s = s.
Proof.
  assert (H : forall n s, (List.length s <= n)%nat ->
                List.length (unescape isEsc f s) = List.length s ->
                unescape isEsc f s = s).
  { induction n as [|n IH]; intros t Hn.
    - destruct t; [reflexivity | cbn in Hn; lia].
    - destruct t as [|x [|y t]]; [reflexivity | reflexivity |].
      rewrite unescape_two.
      destruct (N.eqb x BSL && isEsc y)%bool.
      + cbn [List.length]. pose proof (unescape_length isEsc f t). lia.
      + cbn [List.length] in *. intros E. f_equal.
        apply IH; [cbn [List.length]; lia|]. cbn [List.length]. lia. }
  now apply (H (List.length s)).
Qed.

(** X23.  [cleanCode] never makes a text longer, and it leaves unchanged every
    text that it does not make shorter. *)
Theorem cleanCode_shortens_or_keeps (code : jsstring) :
  (List.length (cleanCode code) < List.length code)%nat
  \/ cleanCode code = code.
Proof.
  rewrite cleanCode_passes.
  set (a := unescape (N.eqb DQ) (fun _ => DQ) code).
  set (b := unescape (N.eqb SQ) (fun _ => SQ) a).
  pose proof (unescape_length (N.eqb DQ) (fun _ => DQ) code) as Ha.
  pose proof (unescape_length (N.eqb SQ) (fun _ => SQ) a) as Hb.
  pose proof (unescape_length isLetterEscape controlOf b) as Hc.
  fold a in Ha. fold b in Hb.
  destruct (Nat.eq_dec (List.length (unescape isLetterEscape controlOf b))
                       (List.length code)) as [E|E]; [right | left; lia].
  rewrite (@unescape_same isLetterEscape controlOf b) by lia.
  unfold b. rewrite (@unescape_same (N.eqb SQ) (fun _ => SQ) a) by (fold b; lia).
  unfold a. apply unescape_same. fold a. lia.
Qed.

(** X24.  [cleanCode] leaves a text without backslash unchanged. *)
Theorem cleanCode_keeps_text_without_backslash (code : jsstring)
  (Hcode : without BSL code = true) :
  cleanCode code = code.
Proof.
  rewrite cleanCode_passes.
  rewrite (@unescape_nothing (N.eqb DQ) (fun _ => DQ) code)
    by now apply without_noPair.
  rewrite (@unescape_nothing (N.eqb SQ) (fun _ => SQ) code)
    by now apply without_noPair.
  now apply unescape_nothing, without_noPair.
Qed.

Lemma cleanCode_keeps_witness :
  cleanCode Ending.calmArtifact = Ending.calmArtifact.
Proof.
  exact (@cleanCode_keeps_text_without_backslash Ending.calmArtifact eq_refl).
Defined.

End NormalFacts.

Module MatcherFacts.

(** A pattern that matches before one continuation matches before every
    continuation that accepts at least as much. *)
Lemma run_weaken (r : re) :
  forall (k k' : mstate -> option mstate) (s : mstate),
    (forall t, k t <> None -> k' t <> None) ->
    Regex.run r k s <> None -> Regex.run r k' s <> None.
Proof.
  induction r as [|C|a IHa b IHb|a IHa b IHb|g a IHa|n a IHa|n|a IHa| |];
    intros k k' s Hk.
  - cbn [Regex.run]. apply Hk.
  - cbn [Regex.run]. destruct (rest s) as [|c t]; [congruence|].
    destruct (C c); [apply Hk | congruence].
  - cbn [Regex.run]. apply IHa. intros t. now apply IHb.
  - cbn [Regex.run]. intros H.
    destruct (Regex.run a k s) eqn:Ea.
    + assert (Ha : Regex.run a k' s <> None)
        by (apply (IHa k k' s Hk); congruence).
      destruct (Regex.run a k' s); congruence.
    + destruct (Regex.run a k' s); [congruence|]. now apply (IHb k k' s Hk).
  - set (loop := fix loop (fuel : nat) (s : mstate) {struct fuel} :=
           match fuel with
           | O => k s
           | S fuel' =>
               let next := fun s' =>
                 if Nat.ltb (List.length (rest s')) (List.length (rest s))
                 then loop fuel' s' else None in
               if g then
                 match Regex.run a next s with Some x => Some x | None => k s end
               else
                 match k s with Some x => Some x | None => Regex.run a next s end
           end).
    set (loop' := fix loop (fuel : nat) (s : mstate) {struct fuel} :=
           match fuel with
           | O => k' s
           | S fuel' =>
               let next := fun s' =>
                 if Nat.ltb (List.length (rest s')) (List.length (rest s))
                 then loop fuel' s' else None in
               if g then
                 match Regex.run a next s with Some x => Some x | None => k' s end
               else
                 match k' s with Some x => Some x | None => Regex.run a next s end
           end).
    assert (Hloop : forall fuel t, loop fuel t <> None -> loop' fuel t <> None).
    { induction fuel as [|fuel IHf]; intros t; [apply Hk|].
      set (next := fun s' =>
             if Nat.ltb (List.length (rest s')) (List.length (rest t))
             then loop fuel s' else None).
      set (next' := fun s' =>
             if Nat.ltb (List.length (rest s')) (List.length (rest t))
             then loop' fuel s' else None).
      assert (Hnext : forall u, next u <> None -> next' u <> None).
      { intros u. unfold next, next'.
        destruct (Nat.ltb _ _); [apply IHf | congruence]. }
      change (loop (S fuel) t)
        with (if g then
                match Regex.run a next t with
                | Some x => Some x | None => k t end
              else
                match k t with
                | Some x => Some x | None => Regex.run a next t end).
      change (loop' (S fuel) t)
        with (if g then
                match Regex.run a next' t with
                | Some x => Some x | None => k' t end
              else
                match k' t with
                | Some x => Some x | None => Regex.run a next' t end).
      destruct g.
      + intros H. destruct (Regex.run a next t) eqn:Ea.
        * assert (Ha : Regex.run a next' t <> None)
            by (apply (IHa next next' t Hnext); congruence).
          destruct (Regex.run a next' t); congruence.
        * destruct (Regex.run a next' t); [congruence|]. now apply Hk.
      + intros H. destruct (k t) eqn:Ek.
        * assert (Hk' : k' t <> None) by (apply Hk; congruence).
          destruct (k' t); congruence.
        * destruct (k' t); [congruence|].
          now apply (IHa next next' t Hnext). }
    exact (Hloop (S (List.length (rest s))) s).
  - cbn [Regex.run]. apply IHa. intros t. apply Hk.
  - cbn [Regex.run]. destruct (lookupCap n (caps s)); [|apply Hk].
    destruct (startsWith _ _); [apply Hk | congruence].
  - cbn [Regex.run]. destruct (Regex.run a _ s); [congruence | apply Hk].
  - cbn [Regex.run]. destruct (xorb _ _); [apply Hk | congruence].
  - cbn [Regex.run]. destruct (rest s); [apply Hk | congruence].
Qed.

Lemma execAt_run (r : re) (p : option cu) (s : jsstring) :
  execAt r p s <> None
  <-> Regex.run r (fun x => Some x) (MState p s []) <> None.
Proof.
  unfold execAt. destruct (Regex.run r _ _); split; congruence.
Qed.

(** A pattern matches wherever a pattern that continues it matches. *)
Lemma execAt_shorter (a b : re) (p : option cu) (s : jsstring) :
  execAt (Cat a b) p s <> None -> execAt a p s <> None.
Proof.
  rewrite !execAt_run. cbn [Regex.run]. apply run_weaken. congruence.
Qed.

Lemma testFrom_weaken (r r' : re) :
  (forall p s, execAt r p s <> None -> execAt r' p s <> None) ->
  forall s p, testFrom r p s = true -> testFrom r' p s = true.
Proof.
  intros H. induction s as [|c s IH]; intros p; cbn [testFrom].
  - destruct (execAt r p []) eqn:E; [|discriminate].
    assert (E' : execAt r' p [] <> None) by (apply H; congruence).
    now destruct (execAt r' p []).
  - destruct (execAt r p (c :: s)) eqn:E.
    + assert (E' : execAt r' p (c :: s) <> None) by (apply H; congruence).
      now destruct (execAt r' p (c :: s)).
    + intros Ht. destruct (execAt r' p (c :: s)); [reflexivity|].
      now apply IH.
Qed.

End MatcherFacts.

Module SamplesFacts.

Import ValidateOutput MatcherFacts.

Lemma localhost_is_remote (p : option cu) (s : jsstring) :
  execAt reLocalhostSamples p s <> None ->
  execAt reRemoteSamples p s <> None.
Proof.
  rewrite !execAt_run. unfold reLocalhostSamples, reRemoteSamples.
  set (head := cat [strI "sample"; opt (chrI 115%N); star space; chr LPAR;
                    star space; anyOf [SQ; DQ; BQ]; strI "http";
                    opt (chrI 115%N)]).
  change (Regex.run head
            (Regex.run (Cat (str "://") (strI "localhost")) (fun x => Some x))
            (MState p s []) <> None ->
          Regex.run head (Regex.run (str "://") (fun x => Some x))
            (MState p s []) <> None).
  apply run_weaken. intros t.
  change (Regex.run (str "://") (Regex.run (strI "localhost") (fun x => Some x)) t
          <> None ->
          Regex.run (str "://") (fun x => Some x) t <> None).
  apply run_weaken. congruence.
Qed.

(** X19.  In [hasForbiddenSamples] the test for a local sample source never
    decides: every text it matches is matched by the test for a remote
    source, so that the function is the disjunction of the other two
    tests. *)
Theorem hasForbiddenSamples_without_the_localhost_test (code : jsstring) :
  hasForbiddenSamples code
  = (test reRemoteSamples code || test reAwaitSamples code)%bool.
Proof.
  unfold hasForbiddenSamples.
  destruct (test reLocalhostSamples code) eqn:E.
  - apply (@testFrom_weaken _ _ localhost_is_remote) in E.
    unfold test. now rewrite E.
  - destruct (test reRemoteSamples code); [reflexivity|].
    now destruct (test reAwaitSamples code).
Qed.

End SamplesFacts.

Module RawFacts.

Import ValidateOutput ParseOutput Texts Stated ScanFacts ValidatorLinks
  FenceFacts ExtractorClaims.

Lemma content_valid_not_empty (text : jsstring) :
  contentValid (validateCodeContent text) = true -> text <> [].
Proof. intros H ->. discriminate H. Qed.

Lemma markers_of_valid_content (text : jsstring) :
  contentValid (validateCodeContent text) = true ->
  looksLikeStrudelCode text = true.
Proof.
  intros H.
  destruct (@content_valid_conditions text H) as (Hfl & Hstart & Hv & _).
  pose proof (@setcpm_found text Hfl Hstart) as Hs.
  unfold hasSetcpm in Hs. unfold looksLikeStrudelCode, markerPatterns.
  cbn [fold_left].
  change (cat [strI "setcpm"; star space; chr 40%N]) with reSetcpm.
  rewrite Hs, Hv.
  repeat match goal with
         | |- context [if ?c then _ else _] => destruct c
         end; reflexivity.
Qed.

Lemma countLines_first (lines : list jsstring) :
  firstCodeLineOf lines <> [] ->
  (1 <= List.length
          (filter (fun line =>
                     let trimmed := trim line in
                     (Nat.ltb 0 (List.length trimmed)
                      && negb (startsWith (js "//") trimmed))%bool)
                  lines))%nat.
Proof.
  induction lines as [|line lines IH]; intros H; [now destruct H|].
  cbn [firstCodeLineOf filter] in *. cbn zeta.
  destruct (trim line) as [|c t] eqn:E.
  - cbn [List.length Nat.eqb Nat.ltb Nat.leb negb andb] in *. now apply IH.
  - cbn [List.length Nat.eqb Nat.ltb Nat.leb negb andb] in *.
    destruct (negb (startsWith (js "//") (c :: t))).
    + cbn [List.length]. lia.
    + now apply IH.
Qed.

(** X21.  A response without a backtick whose trimmed text passes the content
    check is a success with that text, normalized: the marker heuristic
    never rejects a text that passes the content check.  Such a text has at
    least one line that the validator counts. *)
Theorem unfenced_answer_is_accepted_on_the_content_check
  (response : jsstring)
  (Hraw : without BQ response = true)
  (Hvalid : contentValid (validateCodeContent (trim response)) = true) :
  parseClaudeOutput response
  = {| success := true; code := Some (cleanCode (trim response));
       error := None; rawResponse := None |}
  /\ (1 <= countLines (trim response))%nat.
Proof.
  split.
  - unfold parseClaudeOutput.
    pose proof (@content_valid_not_empty _ Hvalid) as Hne.
    assert (Hguard : (Nat.eqb (List.length response) 0
                      || Nat.eqb (List.length (trim response)) 0)%bool
                     = false).
    { destruct response as [|c t]; [now destruct Hne|].
      destruct (trim (c :: t)); [now destruct Hne | reflexivity]. }
    rewrite Hguard.
    rewrite (@matchAll_none codeBlockRegex BQ (trim response)).
    + rewrite (@markers_of_valid_content _ Hvalid), Hvalid. reflexivity.
    + intros p s Hs. apply exec_fence_miss.
      destruct s as [|c s]; [discriminate|].
      rewrite without_cons in Hs. apply andb_prop in Hs as [Hc _].
      apply negb_true_iff, N.eqb_neq in Hc. cbn. congruence.
    + now apply without_trimEnd, without_trimStart.
  - destruct (@content_valid_conditions _ Hvalid) as (Hfl & _).
    now apply countLines_first.
Qed.

Lemma unfenced_answer_witness :
  parseClaudeOutput StatedFlow.rawArtifact
  = {| success := true; code := Some StatedFlow.rawArtifact;
       error := None; rawResponse := None |}.
Proof.
  destruct (@unfenced_answer_is_accepted_on_the_content_check
              StatedFlow.rawArtifact ltac:(vm_compute; reflexivity)
              ltac:(vm_compute; reflexivity)) as [H _].
  rewrite H. vm_compute. reflexivity.
Defined.

End RawFacts.

Module RunFacts.

Import Route StatedFlow Texts Ending FlowClaims ScanFacts FenceFacts.

Lemma count_app (f : event -> bool) (a b : list event) :
  count f (a ++ b) = (count f a + count f b)%nat.
Proof. unfold count. now rewrite filter_app, length_app. Qed.

Lemma count_deltas (f : event -> bool) (texts : list jsstring) :
  (forall t, f (ContentBlockDelta t) = false) ->
  count f (deltas texts) = 0%nat.
Proof. intros H. unfold count. now rewrite filter_deltas. Qed.

Lemma lastEvent_terminal (st : stream jsstring) :
  isTerminal (lastEvent st) = true
  /\ isStatus (lastEvent st) = false /\ isClear (lastEvent st) = false.
Proof. unfold lastEvent. destruct (failure st); repeat split. Qed.

Lemma accumulate_app (pre post : list event) (accumulated : jsstring) :
  filter isError pre = [] ->
  exists text,
    Client.accumulate pre accumulated = inl text
    /\ Client.accumulate (pre ++ post) accumulated
       = Client.accumulate post text.
Proof.
  revert accumulated. induction pre as [|e pre IH]; intros accumulated H.
  - exists accumulated. split; reflexivity.
  - destruct e as [text| | | |]; try discriminate H;
      cbn [app]; cbn [filter isError] in H.
    + destruct text; cbn [Client.accumulate]; apply IH; exact H.
    + cbn [Client.accumulate]. apply IH; exact H.
    + cbn [Client.accumulate]. apply IH; exact H.
    + cbn [Client.accumulate]. apply IH; exact H.
Qed.

Lemma extract_needs_backtick (text : jsstring) :
  without BQ text = true -> extractCodeForValidation text = None.
Proof.
  intros H. unfold extractCodeForValidation.
  rewrite (@matchAll_none ParseOutput.codeBlockRegex BQ text);
    [reflexivity | | exact H].
  intros p s Hs. apply exec_fence_miss.
  destruct s as [|c s]; [discriminate|].
  rewrite without_cons in Hs. apply andb_prop in Hs as [Hc _].
  apply negb_true_iff, N.eqb_neq in Hc. cbn. congruence.
Qed.

Lemma extract_long (l : list rmatch) (code : jsstring) :
  (fix loop (l : list rmatch) : option jsstring :=
     match l with
     | [] => None
     | m :: l' =>
         let code := match group 1 m with
                     | Some inner => trim inner
                     | None => []
                     end in
         if (negb (Nat.eqb (List.length code) 0)
             && Nat.ltb 30 (List.length code))%bool
         then Some code else loop l'
     end) l = Some code ->
  (30 < List.length code)%nat
  /\ exists m inner,
       In m l /\ group 1 m = Some inner /\ code = trim inner.
Proof.
  induction l as [|m l IH]; intros H; [discriminate|].
  cbn -[trim Nat.ltb Nat.eqb List.length group] in H.
  match type of H with
  | (if ?c then _ else _) = _ => destruct c eqn:Hc
  end.
  - injection H as <-. apply andb_prop in Hc as [_ Hc].
    apply Nat.ltb_lt in Hc. split; [exact Hc|].
    destruct (group 1 m) as [inner|] eqn:Hg; [|cbn in Hc; lia].
    exists m, inner. repeat split; [now left | exact Hg].
  - destruct (IH H) as (Hlen & m' & inner' & Hin & Hg' & ->).
    split; [exact Hlen|].
    exists m', inner'. repeat split; [now right|exact Hg'].
Qed.

Section Runs.

Variable buildUserPrompt : jsstring -> jsstring.
Variable provider : providerName.
Variable openaiClient : option (client openaiChunk).
Variable anthropicClient : option (client claudeEvent).
Variable systemPrompt userPrompt : jsstring.
Variable prompt : jsstring.
Variable mode : generationMode.
Variable currentCode : option jsstring.
Variable config : CreativeDirectives.ConfigValues.

Lemma run_no_client :
  firstAnswer provider openaiClient anthropicClient systemPrompt userPrompt
  = None ->
  final buildUserPrompt provider openaiClient anthropicClient systemPrompt
        userPrompt prompt mode currentCode config
  = {| out := [Error (js "No valid API client configured")];
       closed := true; streams := 0; validations := 0 |}.
Proof.
  unfold firstAnswer, answer, final, run, start, tryCatch, attempt.
  unfold bind at 1.
  destruct (isOpenai provider), openaiClient, anthropicClient;
    intros H; try discriminate; reflexivity.
Qed.

Lemma run_broken (st1 : stream jsstring) (e : thrown) :
  firstAnswer provider openaiClient anthropicClient systemPrompt userPrompt
  = Some st1 ->
  failure st1 = Some e ->
  final buildUserPrompt provider openaiClient anthropicClient systemPrompt
        userPrompt prompt mode currentCode config
  = {| out := deltas (delivered st1) ++ [Error (errorMessageOf e)];
       closed := true; streams := 1; validations := 0 |}.
Proof.
  intros H1 Hend.
  unfold final, run, start, tryCatch, attempt.
  unfold bind at 1.
  erewrite (@first_call_run _ _ _ _ _ _ initial); [|exact H1].
  unfold ended. rewrite Hend. reflexivity.
Qed.

Lemma run_accepted (st1 : stream jsstring) (code : jsstring) :
  firstAnswer provider openaiClient anthropicClient systemPrompt userPrompt
  = Some st1 ->
  failure st1 = None ->
  extractCodeForValidation (List.concat (delivered st1)) = Some code ->
  ValidateOutput.valid
    (ValidateOutput.validateStrudelCode code (policy config)) = true ->
  final buildUserPrompt provider openaiClient anthropicClient systemPrompt
        userPrompt prompt mode currentCode config
  = {| out := deltas (delivered st1) ++ [Done];
       closed := true; streams := 1; validations := 1 |}.
Proof.
  intros H1 Hend Hex Hok.
  unfold final, run, start, tryCatch, attempt.
  unfold bind at 1.
  erewrite (@first_call_run _ _ _ _ _ _ initial); [|exact H1].
  unfold ended. rewrite Hend, Hex.
  unfold bind at 1. unfold bind at 1. unfold validate at 1.
  cbn [fst snd]. rewrite Hok. reflexivity.
Qed.

(** Every request ends in one of five ways. *)
Lemma run_cases :
  let r := final buildUserPrompt provider openaiClient anthropicClient
                 systemPrompt userPrompt prompt mode currentCode config in
  (exists texts last,
     isTerminal last = true
     /\ r = {| out := deltas texts ++ [last]; closed := true;
               streams := 0; validations := 0 |})
  \/ (exists texts last,
        isTerminal last = true
        /\ r = {| out := deltas texts ++ [last]; closed := true;
                  streams := 1; validations := 0 |})
  \/ (exists texts last,
        isTerminal last = true
        /\ r = {| out := deltas texts ++ [last]; closed := true;
                  streams := 1; validations := 1 |})
  \/ (exists texts1 texts2 last,
        isTerminal last = true
        /\ r = {| out := deltas texts1
                         ++ [Status (js "simplifying..."); Clear]
                         ++ deltas texts2 ++ [last];
                  closed := true; streams := 2; validations := 1 |}).
Proof.
  intros r. unfold r.
  destruct (firstAnswer provider openaiClient anthropicClient systemPrompt
                        userPrompt) as [st1|] eqn:H1.
  2:{ left. exists [], (Error (js "No valid API client configured")).
      split; [reflexivity|]. now apply run_no_client. }
  destruct (failure st1) as [e|] eqn:Hend.
  { right; left. exists (delivered st1), (Error (errorMessageOf e)).
    split; [reflexivity|]. now apply run_broken. }
  destruct (extractCodeForValidation (List.concat (delivered st1)))
    as [code|] eqn:Hex.
  2:{ right; left. exists (delivered st1), Done.
      split; [reflexivity|]. now apply run_no_artifact. }
  destruct (ValidateOutput.valid
              (ValidateOutput.validateStrudelCode code (policy config)))
    eqn:Hok.
  { right; right; left. exists (delivered st1), Done.
    split; [reflexivity|]. now apply run_accepted with (code := code). }
  right; right; right.
  destruct (@answer_again provider openaiClient anthropicClient systemPrompt
              0 1 userPrompt
              (retryUserPromptFor buildUserPrompt prompt mode currentCode
                 (ValidateOutput.issues
                    (ValidateOutput.validateStrudelCode code (policy config))))
              st1 H1) as [st2 H2].
  exists (delivered st1), (delivered st2), (lastEvent st2).
  split; [apply lastEvent_terminal|].
  now apply run_retry with (code := code).
Qed.

(** X1.  Whatever the providers do and whatever the request is, [start]
    closes the stream, and the outbound stream ends in exactly one terminal
    event (the terminal marker or an error event) with none before it.  At
    most two provider streams are started and the validator is called at
    most once and never more often than streams were started; there are as
    many status events as clear events, one for each stream after the
    first, and a second stream is only started after a validation. *)
Theorem every_request_ends_once :
  let r := final buildUserPrompt provider openaiClient anthropicClient
                 systemPrompt userPrompt prompt mode currentCode config in
  closed r = true
  /\ (exists body last,
        out r = body ++ [last]
        /\ isTerminal last = true /\ count isTerminal body = 0%nat)
  /\ (streams r <= 2)%nat
  /\ (validations r <= 1)%nat
  /\ count isStatus (out r) = count isClear (out r)
  /\ count isClear (out r) = (streams r - 1)%nat
  /\ (validations r <= streams r)%nat
  /\ (streams r = 2%nat -> validations r = 1%nat).
Proof.
  intros r.
  destruct run_cases as [H|[H|[H|H]]].
  1-3: destruct H as (texts & last & Hlast & Hr); fold r in Hr; rewrite Hr;
       cbn [out closed streams validations];
       (split; [reflexivity|]);
       (split; [exists (deltas texts), last; repeat split;
                 [exact Hlast | now apply count_deltas]|]);
       rewrite !count_app, !count_deltas by reflexivity;
       destruct last; try discriminate Hlast; cbn; repeat split; lia.
  destruct H as (texts1 & texts2 & last & Hlast & Hr); fold r in Hr.
  rewrite Hr. cbn [out closed streams validations].
  split; [reflexivity|].
  split.
  { exists (deltas texts1 ++ [Status (js "simplifying..."); Clear]
            ++ deltas texts2), last.
    repeat split; [now rewrite <- !app_assoc | exact Hlast |].
    rewrite !count_app, !count_deltas by reflexivity. reflexivity. }
  rewrite !count_app, !count_deltas by reflexivity.
  destruct last; try discriminate Hlast; cbn; repeat split; lia.
Qed.




End Runs.





(** X5.  Whatever [extractCodeForValidation] returns is the trimmed inner
    text of one of the fenced blocks of the text, is longer than 30 code
    units, and comes from a text with a backtick. *)
Theorem extracted_code_is_a_long_fenced_block (text code : jsstring)
  (Hcode : extractCodeForValidation text = Some code) :
  (30 < List.length code)%nat
  /\ without BQ text = false
  /\ exists m inner,
       In m (matchAll ParseOutput.codeBlockRegex text)
       /\ group 1 m = Some inner /\ code = trim inner.
Proof.
  assert (Hloop : (30 < List.length code)%nat
                  /\ exists m inner,
                       In m (matchAll ParseOutput.codeBlockRegex text)
                       /\ group 1 m = Some inner /\ code = trim inner).
  { apply extract_long. revert Hcode. unfold extractCodeForValidation.
    set (l := matchAll ParseOutput.codeBlockRegex text).
    destruct l; [discriminate | exact (fun H => H)]. }
  destruct Hloop as [Hlen Hm]. split; [exact Hlen|]. split; [|exact Hm].
  destruct (without BQ text) eqn:Hb; [|reflexivity].
  rewrite extract_needs_backtick in Hcode by exact Hb. discriminate.
Qed.

Lemma extracted_code_witness :
  (30 < List.length calmArtifact)%nat /\ without BQ calmAnswer = false.
Proof.
  destruct (@extracted_code_is_a_long_fenced_block calmAnswer calmArtifact
              ltac:(vm_compute; reflexivity)) as (H1 & H2 & _).
  split; assumption.
Defined.

End RunFacts.

Module ClientFacts.

Import Route StatedFlow Texts Ending RunFacts.

(** X6.  On the caller's side a clear event discards everything read
    before it: when no error event precedes it, the outcome is that of the
    events after it alone. *)
Theorem clear_event_discards_earlier_text (pre post : list event)
  (Hpre : filter isError pre = []) :
  Client.handleResponse (pre ++ Clear :: post) = Client.handleResponse post.
Proof.
  unfold Client.handleResponse.
  destruct (accumulate_app pre (Clear :: post) [] Hpre) as (text & _ & ->).
  reflexivity.
Qed.

Lemma clear_event_witness :
  Client.handleResponse
    ([ContentBlockDelta loudAnswer; Status (js "simplifying...")]
     ++ Clear :: [ContentBlockDelta rawArtifact; Done])
  = Client.Applied rawArtifact.
Proof.
  rewrite (@clear_event_discards_earlier_text
             [ContentBlockDelta loudAnswer; Status (js "simplifying...")]
             [ContentBlockDelta rawArtifact; Done] eq_refl).
  vm_compute. reflexivity.
Defined.



End ClientFacts.

Module RunsFacts.

Import Runs Escapes RegexFacts ScanFacts SyntaxClaims FenceFacts.

Lemma dropRun_split (C : cu -> bool) (s : jsstring) :
  exists w, s = w ++ dropRun C s /\ forallb C w = true.
Proof.
  induction s as [|c s (w & Hs & Hw)]; [now exists []|].
  cbn [dropRun]. destruct (C c) eqn:E.
  - exists (c :: w). cbn [app forallb]. rewrite E, Hw. split; [|reflexivity].
    now f_equal.
  - now exists [].
Qed.

Lemma dropRun_length (C : cu -> bool) (s : jsstring) :
  (List.length (dropRun C s) <= List.length s)%nat.
Proof.
  induction s as [|c s IH]; [cbn; lia|].
  cbn [dropRun]. destruct (C c); cbn [List.length]; lia.
Qed.

(** A greedy star of a class runs to the first unit out of the class. *)
Lemma star_class_run (C : cu -> bool) (t : jsstring)
  (caps : list (nat * jsstring)) :
  forall p, exists q,
    Regex.run (Star true (Cls C)) (fun x => Some x) (MState p t caps)
    = Some (MState q (dropRun C t) caps).
Proof.
  induction t as [|c t IH]; intros p.
  - exists p. reflexivity.
  - rewrite star_class_cons. cbn [dropRun]. destruct (C c).
    + destruct (IH (Some c)) as [q ->]. now exists q.
    + now exists p.
Qed.

Lemma exec_plus_class (C : cu -> bool) (p : option cu) (s : jsstring) :
  execAt (plus (Cls C)) p s
  = match s with
    | c :: t =>
        if C c
        then Some (RMatch (c :: firstn (List.length t
                                        - List.length (dropRun C t)) t) [])
        else None
    | [] => None
    end.
Proof.
  unfold execAt, plus. destruct s as [|c t]; [reflexivity|].
  change (Regex.run (Cat (Cls C) (Star true (Cls C))) (fun x => Some x)
                    (MState p (c :: t) []))
    with (if C c
          then Regex.run (Star true (Cls C)) (fun x => Some x)
                         (MState (Some c) t [])
          else None).
  destruct (C c); [|reflexivity].
  destruct (star_class_run C t [] (Some c)) as [q ->].
  cbn [rest caps]. f_equal. f_equal.
  pose proof (dropRun_length C t).
  replace (List.length (c :: t) - List.length (dropRun C t))%nat
    with (S (List.length t - List.length (dropRun C t)))
    by (cbn [List.length]; lia).
  reflexivity.
Qed.

Lemma squeeze_inside (C : cu -> bool) (fill : cu) (t : jsstring) :
  squeeze C fill true t = squeeze C fill false (dropRun C t).
Proof.
  induction t as [|c t IH]; [reflexivity|].
  cbn [squeeze dropRun]. destruct (C c) eqn:E; [exact IH|].
  cbn [squeeze]. now rewrite E.
Qed.

(** A pass that puts one unit in the place of every run of a class. *)
Lemma rebuilt_runs (C : cu -> bool) (fill : cu) (n : nat) :
  forall s p, (List.length s <= n)%nat ->
    rebuilt (fun _ => [fill]) (scan (plus (Cls C)) p 0 s)
    = squeeze C fill false s.
Proof.
  induction n as [|n IH]; intros s p Hn.
  - destruct s; [|cbn in Hn; lia].
    rewrite scan_end, exec_plus_class. reflexivity.
  - destruct s as [|c t].
    { rewrite scan_end, exec_plus_class. reflexivity. }
    rewrite scan_here, exec_plus_class. cbn [squeeze].
    destruct (C c) eqn:E.
    + rewrite squeeze_inside.
      destruct (dropRun_split C t) as (w & Ht & Hw).
      pose proof (dropRun_length C t) as Hl.
      remember (dropRun C t) as d eqn:Hd. clear Hd. subst t.
      replace (List.length (w ++ d) - List.length d)%nat
        with (List.length w) by (rewrite length_app; lia).
      rewrite firstn_app, Nat.sub_diag, firstn_all. cbn [firstn].
      rewrite app_nil_r. cbn [mtext List.length].
      destruct (scan_over (plus (Cls C)) w d (Some c)) as [q Hq].
      rewrite Hq. cbn [rebuilt flat_map app].
      fold (rebuilt (fun _ : rmatch => [fill]) (scan (plus (Cls C)) q 0 d)).
      rewrite IH; [reflexivity|].
      cbn [List.length] in Hn. rewrite length_app in Hn. lia.
    + cbn [rebuilt flat_map app].
      fold (rebuilt (fun _ : rmatch => [fill])
                    (scan (plus (Cls C)) (Some c) 0 t)).
      rewrite IH by (cbn [List.length] in Hn; lia). reflexivity.
Qed.

Lemma replaceG_runs (C : cu -> bool) (fill : cu) (s : jsstring) :
  replaceG (plus (Cls C)) (fun _ => [fill]) s = squeeze C fill false s.
Proof. apply (@rebuilt_runs C fill (List.length s) s None). lia. Qed.

Lemma squeeze_onlyFill (C : cu -> bool) (fill : cu) (s : jsstring) :
  forall b, onlyFill C fill (squeeze C fill b s) = true.
Proof.
  induction s as [|c t IH]; intros b; [reflexivity|].
  cbn [squeeze]. destruct (C c) eqn:E.
  - destruct b; [apply IH|].
    cbn [onlyFill forallb]. rewrite N.eqb_refl, orb_true_r. apply IH.
  - cbn [onlyFill forallb]. rewrite E. apply IH.
Qed.

Lemma noRun_cons (C : cu -> bool) (c : cu) (t : jsstring) :
  noRun C (c :: t)
  = (match t with d :: _ => negb (C c && C d) | [] => true end
     && noRun C t)%bool.
Proof. destruct t; reflexivity. Qed.

Lemma squeeze_noRun (C : cu -> bool) (fill : cu) (s : jsstring) :
  C fill = true ->
  forall b,
    noRun C (squeeze C fill b s) = true
    /\ (b = true ->
        match squeeze C fill b s with x :: _ => C x = false | [] => True end).
Proof.
  intros Hfill. induction s as [|c t IH]; intros b; [now split|].
  cbn [squeeze]. destruct (C c) eqn:E.
  - destruct b; [apply IH|]. split; [|discriminate].
    destruct (IH true) as [H1 H2]. rewrite noRun_cons, H1.
    specialize (H2 eq_refl).
    destruct (squeeze C fill true t); [reflexivity|].
    now rewrite H2, andb_false_r.
  - split; [|now intros _].
    destruct (IH false) as [H1 _]. rewrite noRun_cons, H1, E.
    now destruct (squeeze C fill false t).
Qed.

Lemma squeeze_fixed (C : cu -> bool) (fill : cu) (s : jsstring) :
  noRun C s = true -> onlyFill C fill s = true ->
  squeeze C fill false s = s.
Proof.
  induction s as [|c t IH]; intros Hr Ho; [reflexivity|].
  rewrite noRun_cons in Hr. apply andb_prop in Hr as [Hc Hr].
  cbn [onlyFill forallb] in Ho. apply andb_prop in Ho as [Hf Ho].
  specialize (IH Hr Ho). cbn [squeeze]. destruct (C c) eqn:E.
  - cbn [negb orb] in Hf. apply N.eqb_eq in Hf. subst c. f_equal.
    destruct t as [|d t]; [reflexivity|].
    cbn [andb] in Hc. apply negb_true_iff in Hc.
    cbn [squeeze] in IH |- *. rewrite Hc in IH |- *. exact IH.
  - now f_equal.
Qed.

Lemma noRun_app (C : cu -> bool) (a b : jsstring) :
  noRun C (a ++ b) = true -> noRun C a = true /\ noRun C b = true.
Proof.
  induction a as [|c a IH]; intros H; [now split|].
  cbn [app] in H. rewrite noRun_cons in H. apply andb_prop in H as [Hc H].
  destruct (IH H) as [Ha Hb]. split; [|exact Hb].
  rewrite noRun_cons, Ha. destruct a as [|d a]; [reflexivity|].
  cbn [app] in Hc. now rewrite Hc.
Qed.

Lemma onlyFill_app (C : cu -> bool) (fill : cu) (a b : jsstring) :
  onlyFill C fill (a ++ b) = (onlyFill C fill a && onlyFill C fill b)%bool.
Proof. apply forallb_app. Qed.

End RunsFacts.

Module PromptFacts.

Import Runs Songs Panel Texts Lines RunsFacts ScanFacts ValidatorLinks
  FenceFacts NormalFacts UnchangedClaims.

(** What trimming keeps of a property of the texts that holds of every
    part of a text that has it. *)
Lemma trim_keeps (P : jsstring -> bool) (s : jsstring) :
  (forall a b, P (a ++ b) = true -> P a = true /\ P b = true) ->
  P s = true -> P (trim s) = true.
Proof.
  intros Happ H. destruct (trim_split s) as (w1 & w2 & Hs).
  rewrite Hs in H. apply Happ in H as [_ H]. now apply Happ in H as [H _].
Qed.

Lemma onlyFill_parts (C : cu -> bool) (fill : cu) (a b : jsstring) :
  onlyFill C fill (a ++ b) = true ->
  onlyFill C fill a = true /\ onlyFill C fill b = true.
Proof. rewrite onlyFill_app. apply andb_prop. Qed.

Lemma forallb_parts {A} (f : A -> bool) (a b : list A) :
  forallb f (a ++ b) = true -> forallb f a = true /\ forallb f b = true.
Proof. rewrite forallb_app. apply andb_prop. Qed.

Lemma onlyFill_without (s : jsstring) :
  onlyFill isSpace 32%N s = true -> without LF s = true.
Proof.
  unfold onlyFill, without. rewrite !forallb_forall. intros H x Hin.
  specialize (H x Hin). destruct (N.eqb x LF) eqn:E; [|reflexivity].
  apply N.eqb_eq in E. subst x. discriminate H.
Qed.

(** X25.  Whatever [normalizePrompt] returns is not empty, is trimmed, and
    is a single line in which the only white space is the space character
    and no two spaces follow each other; it is a field that the head of a
    song file gives back as soon as it holds no backtick, and normalizing
    it again changes nothing. *)
Theorem normalizePrompt_gives_one_trimmed_line
  (prompt : option jsstring) (r : jsstring)
  (Hr : normalizePrompt prompt = Some r) :
  r <> []
  /\ trim r = r
  /\ onlyFill isSpace 32%N r = true
  /\ noRun isSpace r = true
  /\ without LF r = true
  /\ headerField r = without BQ r
  /\ normalizePrompt (Some r) = Some r.
Proof.
  unfold normalizePrompt in Hr.
  destruct prompt as [[|c t]|]; try discriminate.
  cbn zeta in Hr. unfold reSpaces, space in Hr.
  change (js " ") with [32%N] in Hr. rewrite replaceG_runs in Hr.
  set (u := squeeze isSpace 32%N false (c :: t)) in Hr.
  destruct (Nat.ltb 0 (List.length (trim u))) eqn:Hlen; [|discriminate].
  injection Hr as <-.
  assert (Hne : trim u <> []).
  { apply Nat.ltb_lt in Hlen. destruct (trim u); [cbn in Hlen; lia|].
    discriminate. }
  assert (Hfill : onlyFill isSpace 32%N (trim u) = true).
  { apply trim_keeps; [apply onlyFill_parts|]. apply squeeze_onlyFill. }
  assert (Hrun : noRun isSpace (trim u) = true).
  { apply trim_keeps; [apply noRun_app|].
    now apply (@squeeze_noRun isSpace 32%N (c :: t) eq_refl false). }
  split; [exact Hne|]. split; [apply trim_trim|].
  split; [exact Hfill|]. split; [exact Hrun|].
  split; [now apply onlyFill_without|].
  split.
  { unfold headerField. rewrite trim_trim, eqs_refl, Hlen.
    now rewrite (onlyFill_without _ Hfill). }
  unfold normalizePrompt. destruct (trim u) as [|x v] eqn:E; [now destruct Hne|].
  cbn zeta. unfold reSpaces, space. change (js " ") with [32%N].
  rewrite replaceG_runs, squeeze_fixed by assumption.
  assert (Ht : trim (x :: v) = x :: v) by (rewrite <- E; apply trim_trim).
  rewrite Ht. reflexivity.
Qed.

Lemma normalizePrompt_witness :
  normalizePrompt (Some (jsq "  make it|darker   and  slower | "))
  = Some (js "make it darker and slower")
  /\ normalizePrompt (Some (js "make it darker and slower"))
     = Some (js "make it darker and slower").
Proof.
  assert (H : normalizePrompt (Some (jsq "  make it|darker   and  slower | "))
              = Some (js "make it darker and slower"))
    by (vm_compute; reflexivity).
  split; [exact H|].
  now destruct (normalizePrompt_gives_one_trimmed_line _ H)
    as (_ & _ & _ & _ & _ & _ & Hagain).
Defined.

Lemma trimStart_le (s : jsstring) :
  (List.length (trimStart s) <= List.length s)%nat.
Proof.
  induction s as [|c s IH]; [reflexivity|].
  cbn [trimStart]. destruct (isSpace c); cbn [List.length]; lia.
Qed.

Lemma firstn_parts {A} (n : nat) (l : list A) :
  exists b, l = firstn n l ++ b.
Proof. exists (skipn n l). symmetry. apply firstn_skipn. Qed.

(** X28.  Whatever [extractNameFromPrompt] returns is at most 40 code units
    long, is not empty, is trimmed and holds letters, digits and spaces
    only. *)
Theorem extractNameFromPrompt_gives_a_short_plain_name
  (prompt : option jsstring) (r : jsstring)
  (Hr : extractNameFromPrompt prompt = Some r) :
  (List.length r <= 40)%nat
  /\ forallb isNameUnit r = true
  /\ trim r = r
  /\ r <> [].
Proof.
  unfold extractNameFromPrompt in Hr.
  destruct prompt as [[|c t]|]; try discriminate.
  cbn zeta in Hr. unfold reNotName in Hr.
  change (js " ") with [32%N] in Hr. rewrite replaceG_runs in Hr.
  set (C := fun c => negb (isNameUnit c)) in Hr.
  set (u := squeeze C 32%N false (c :: t)) in Hr.
  assert (Hu : forallb isNameUnit (trim u) = true).
  { apply (@trim_keeps (forallb isNameUnit)); [apply forallb_parts|].
    pose proof (squeeze_onlyFill C 32%N (c :: t) false) as H.
    fold u in H. unfold onlyFill in H. rewrite forallb_forall in H |- *.
    intros x Hin. specialize (H x Hin). unfold C in H.
    rewrite negb_involutive in H. apply orb_prop in H as [H|H]; [exact H|].
    apply N.eqb_eq in H. now subst x. }
  destruct (Nat.ltb (List.length (trim u)) 3) eqn:H3; [discriminate|].
  apply Nat.ltb_ge in H3.
  destruct (Nat.ltb 40 (List.length (trim u))) eqn:H40.
  - assert (E : trim (firstn 40 (trim u)) = r) by congruence.
    clear Hr. subst r.
    destruct (firstn_parts 40 (trim u)) as [b Hb].
    assert (Hhead : exists x v, trim u = x :: v /\ isSpace x = false).
    { pose proof (trimStart_trimEnd u) as Ht. fold (trim u) in Ht.
      destruct (trim u) as [|x v]; [cbn in H3; lia|].
      exists x, v. split; [reflexivity|].
      cbn [trimStart] in Ht. destruct (isSpace x); [|reflexivity].
      pose proof (f_equal (@List.length cu) Ht) as Hl.
      pose proof (trimStart_le v). cbn [List.length] in Hl. lia. }
    destruct Hhead as (x & v & Hx & Hsp).
    split; [|split; [|split]].
    + destruct (trim_split (firstn 40 (trim u))) as (w1 & w2 & Hw).
      pose proof (f_equal (@List.length cu) Hw) as Hl.
      rewrite !length_app, length_firstn in Hl. lia.
    + apply (@trim_keeps (forallb isNameUnit)); [apply forallb_parts|].
      rewrite Hb in Hu. now apply forallb_parts in Hu as [Hu _].
    + apply trim_trim.
    + rewrite Hx. change 40%nat with (S 39). rewrite firstn_cons.
      unfold trim. cbn [trimStart]. rewrite Hsp.
      pose proof (@trimEnd_after [] x (firstn 39 v) Hsp) as Ht.
      cbn [app] in Ht. rewrite Ht. discriminate.
  - assert (E : trim u = r) by congruence.
    clear Hr. subst r.
    apply Nat.ltb_ge in H40. split; [exact H40|]. split; [exact Hu|].
    split; [apply trim_trim|]. destruct (trim u); [cbn in H3; lia|].
    discriminate.
Qed.

Lemma extractNameFromPrompt_witness :
  extractNameFromPrompt (Some (js "add drums, bass & a (very) long pad: please!!"))
  = Some (js "add drums  bass   a  very  long pad  ple")
  /\ (List.length (js "add drums  bass   a  very  long pad  ple")
      <= 40)%nat.
Proof.
  assert (H : extractNameFromPrompt
                (Some (js "add drums, bass & a (very) long pad: please!!"))
              = Some (js "add drums  bass   a  very  long pad  ple"))
    by (vm_compute; reflexivity).
  split; [exact H|].
  now destruct (extractNameFromPrompt_gives_a_short_plain_name _ H)
    as (Hlen & _).
Defined.

End PromptFacts.

Module FilenameFacts.

Import Songs UnchangedClaims.

Lemma from_first_free (fileExists : jsstring -> bool) (base : jsstring)
  (n : nat) :
  fileExists (candidate base n) = false ->
  (forall m, (m < n)%nat -> fileExists (candidate base m) = true) ->
  forall fuel attempt,
    (attempt <= n)%nat ->
    ((n - attempt < fuel)%nat ->
     getAvailableFilenameFrom fileExists fuel base attempt
     = Some (candidate base n))
    /\ (forall f,
          getAvailableFilenameFrom fileExists fuel base attempt = Some f ->
          f = candidate base n).
Proof.
  intros Hfree Htaken.
  induction fuel as [|fuel IH]; intros attempt Hle.
  - split; [lia | discriminate].
  - cbn [getAvailableFilenameFrom]. cbn zeta.
    destruct (Nat.eq_dec attempt n) as [->|Hne].
    + rewrite Hfree. cbn [negb]. split; [reflexivity|].
      intros f H. now injection H as <-.
    + rewrite Htaken by lia. cbn [negb].
      destruct (IH (attempt + 1)%nat ltac:(lia)) as [H1 H2].
      split; [intros Hf; apply H1; lia | exact H2].
Qed.

(** X27.  [getAvailableFilename] returns the first candidate that does not
    exist, as soon as its rounds reach it, and never anything else: the
    candidates are the base with the extension, then the base with [-2],
    [-3] and so on before the extension. *)
Theorem getAvailableFilename_takes_the_first_free_name
  (fileExists : jsstring -> bool) (base : jsstring) (n fuel : nat)
  (Hfree : fileExists (candidate base n) = false)
  (Htaken : forall m, (m < n)%nat -> fileExists (candidate base m) = true)
  (Hfuel : (n < fuel)%nat) :
  getAvailableFilename fileExists fuel base = Some (candidate base n)
  /\ (forall rounds f,
        getAvailableFilename fileExists rounds base = Some f ->
        f = candidate base n)
  /\ candidate base 0 = base ++ js ".md"
  /\ candidate base 1 = base ++ js "-2.md".
Proof.
  unfold getAvailableFilename. split; [|split; [|split]].
  - apply (@from_first_free fileExists base n Hfree Htaken fuel 0); lia.
  - intros rounds f.
    apply (@from_first_free fileExists base n Hfree Htaken rounds 0). lia.
  - reflexivity.
  - unfold candidate. cbn [Nat.eqb Nat.add].
    replace (toString (ofNat 2)) with (js "2") by (vm_compute; reflexivity).
    unfold SONG_EXTENSION. now rewrite <- app_assoc.
Qed.

Lemma getAvailableFilename_witness :
  getAvailableFilename
    (fun f => (eqs f (js "ab.md") || eqs f (js "ab-2.md"))%bool) 3 (js "ab")
  = Some (js "ab-3.md").
Proof.
  destruct (@getAvailableFilename_takes_the_first_free_name
              (fun f => (eqs f (js "ab.md") || eqs f (js "ab-2.md"))%bool)
              (js "ab") 2 3 ltac:(vm_compute; reflexivity)
              ltac:(intros [|[|m]] Hm; [reflexivity | reflexivity | lia])
              ltac:(lia)) as [H _].
  rewrite H. vm_compute. reflexivity.
Defined.

(** X29.  [pad2] of a whole number from 0 to 99 is its two decimal
    digits. *)
Theorem pad2_gives_two_digits (n : nat) (Hn : (n < 100)%nat) :
  pad2 (ofNat n)
  = [(48 + N.of_nat (n / 10))%N; (48 + N.of_nat (n mod 10))%N].
Proof.
  assert (H : forallb (fun n =>
                         eqs (pad2 (ofNat n))
                             [(48 + N.of_nat (n / 10))%N;
                              (48 + N.of_nat (n mod 10))%N])
                      (seq 0 100) = true)
    by (vm_compute; reflexivity).
  rewrite forallb_forall in H. apply eqs_eq, H, in_seq. lia.
Qed.

Lemma pad2_witness : pad2 (ofNat 7) = js "07".
Proof.
  rewrite (@pad2_gives_two_digits 7 ltac:(lia)). reflexivity.
Defined.

End FilenameFacts.

Module SongFacts.

Import Songs Texts Lines RegexFacts ScanFacts SyntaxClaims ValidatorLinks
  FenceFacts NormalFacts UnchangedClaims PromptFacts.

(** *** The lines of a text *)

Lemma exec_newline_LF (p : option cu) (t : jsstring) :
  execAt reNewline p (LF :: t) = Some (RMatch [LF] []).
Proof.
  unfold execAt, reNewline. cbn -[Nat.sub]. now rewrite one_more.
Qed.

Lemma exec_newline_miss (p : option cu) (c : cu) (t : jsstring) :
  c <> LF ->
  (c = CR -> hd_error t <> Some LF) ->
  execAt reNewline p (c :: t) = None.
Proof.
  intros Hc Hnext. unfold execAt, reNewline.
  cbn -[N.eqb Nat.sub].
  assert (HLF : N.eqb LF c = false) by (apply N.eqb_neq; congruence).
  rewrite HLF.
  destruct (N.eqb CR c) eqn:E; [|reflexivity].
  apply N.eqb_eq in E. symmetry in E. specialize (Hnext E).
  destruct t as [|d t]; [reflexivity|].
  assert (Hd : N.eqb LF d = false)
    by (apply N.eqb_neq; cbn in Hnext; congruence).
  now rewrite Hd.
Qed.

Lemma between_unmatched (l cur : jsstring) (rest : list piece) :
  between cur (List.map Unmatched l ++ rest) = between (cur ++ l) rest.
Proof.
  revert cur. induction l as [|c l IH]; intros cur.
  - now rewrite app_nil_r.
  - cbn [List.map app between]. rewrite IH. now rewrite <- app_assoc.
Qed.

(** A line that ends in a unit that is neither a carriage return nor a
    line feed, before a line feed. *)
Lemma scan_line (l : jsstring) (x : cu) (rest : jsstring) :
  without LF l = true -> x <> LF -> x <> CR ->
  forall p,
    scan reNewline p 0 ((l ++ [x]) ++ LF :: rest)
    = List.map Unmatched (l ++ [x])
      ++ Matched (RMatch [LF] []) :: scan reNewline (Some LF) 0 rest.
Proof.
  intros Hl Hx1 Hx2. induction l as [|c l IH]; intros p.
  - cbn [app List.map]. rewrite scan_here, exec_newline_miss;
      [|exact Hx1 | congruence].
    f_equal. rewrite scan_here, exec_newline_LF. reflexivity.
  - rewrite without_cons in Hl. apply andb_prop in Hl as [Hc Hl].
    apply negb_true_iff, N.eqb_neq in Hc.
    cbn [app List.map]. rewrite scan_here, exec_newline_miss.
    + f_equal. apply (IH Hl).
    + exact Hc.
    + intros _. destruct l as [|d l]; cbn [app hd_error].
      * congruence.
      * rewrite without_cons in Hl. apply andb_prop in Hl as [Hd _].
        apply negb_true_iff, N.eqb_neq in Hd. congruence.
Qed.

Lemma split_line (l : jsstring) (x : cu) (rest cur : jsstring)
  (p : option cu) :
  without LF l = true -> x <> LF -> x <> CR ->
  between cur (scan reNewline p 0 ((l ++ [x]) ++ LF :: rest))
  = (cur ++ l ++ [x]) :: between [] (scan reNewline (Some LF) 0 rest).
Proof.
  intros Hl Hx1 Hx2. rewrite scan_line by assumption.
  rewrite between_unmatched. reflexivity.
Qed.

(** *** A field of the head *)

Lemma trimStart_head (s : jsstring) (c : cu) (t : jsstring) :
  trimStart s = c :: t -> isSpace c = false.
Proof.
  induction s as [|d s IH]; [discriminate|].
  cbn [trimStart]. destruct (isSpace d) eqn:E; [exact IH|].
  intros H. injection H as <- _. exact E.
Qed.

Lemma trimmed_ends (f : jsstring) :
  trim f = f -> f <> [] ->
  (exists c t, f = c :: t /\ isSpace c = false)
  /\ (exists l x, f = l ++ [x] /\ isSpace x = false).
Proof.
  intros Ht Hne. split.
  - pose proof (trimStart_trimEnd f) as H. fold (trim f) in H.
    rewrite Ht in H. destruct f as [|c t]; [now destruct Hne|].
    exists c, t. split; [reflexivity|]. now apply trimStart_head in H.
  - unfold trim, trimEnd in Ht.
    destruct (trimStart (rev (trimStart f))) as [|x r] eqn:E.
    + cbn in Ht. now destruct Hne.
    + apply trimStart_head in E. cbn [rev] in Ht.
      exists (rev r), x. split; [now symmetry | exact E].
Qed.

Lemma headerField_parts (f : jsstring) :
  headerField f = true ->
  trim f = f /\ f <> [] /\ without LF f = true /\ without BQ f = true.
Proof.
  unfold headerField. intros H.
  apply andb_prop in H as [H Hb]. apply andb_prop in H as [H Hl].
  apply andb_prop in H as [Ht Hn]. apply eqs_eq in Ht.
  apply Nat.ltb_lt in Hn. repeat split; try assumption.
  intros ->. cbn in Hn. lia.
Qed.

Lemma space_not_units (x : cu) :
  isSpace x = false -> x <> LF /\ x <> CR.
Proof. intros H. split; intros ->; discriminate H. Qed.

(** A line made of a word and a field. *)
Lemma split_field (word f rest cur : jsstring) (p : option cu) :
  without LF word = true ->
  headerField f = true ->
  between cur (scan reNewline p 0 ((word ++ f) ++ LF :: rest))
  = (cur ++ word ++ f) :: between [] (scan reNewline (Some LF) 0 rest).
Proof.
  intros Hw Hf. apply headerField_parts in Hf as (Ht & Hne & Hl & _).
  destruct (trimmed_ends Ht Hne) as [_ (l & x & -> & Hx)].
  apply space_not_units in Hx as [Hx1 Hx2].
  rewrite without_app in Hl. apply andb_prop in Hl as [Hl _].
  rewrite (app_assoc word l [x]).
  rewrite split_line; try assumption; [reflexivity|].
  now rewrite without_app, Hw, Hl.
Qed.

(** *** The lines of the head, one by one *)

Lemma remove_created (c : cu) (t : jsstring) :
  isSpace c = false ->
  removeAtStart reCreatedHead (js "created: " ++ c :: t) = c :: t.
Proof.
  intros Hc. unfold removeAtStart, execAt, reCreatedHead.
  change (Regex.run (Cat (strI "created:") (star space)) (fun x => Some x)
                    (MState None (js "created: " ++ c :: t) []))
    with (Regex.run (Star true (Cls isSpace)) (fun x => Some x)
                    (MState (Some 58%N) (32%N :: c :: t) [])).
  rewrite star_class_cons. change (isSpace 32%N) with true. cbn iota.
  rewrite star_class_cons, Hc. cbn [rest mtext].
  rewrite (@firstn_front cu (js "created: ") (c :: t)). reflexivity.
Qed.

Lemma remove_prompt (c : cu) (t : jsstring) :
  isSpace c = false ->
  removeAtStart rePromptHead (js "prompt: " ++ c :: t) = c :: t.
Proof.
  intros Hc. unfold removeAtStart, execAt, rePromptHead.
  change (Regex.run (Cat (strI "prompt:") (star space)) (fun x => Some x)
                    (MState None (js "prompt: " ++ c :: t) []))
    with (Regex.run (Star true (Cls isSpace)) (fun x => Some x)
                    (MState (Some 58%N) (32%N :: c :: t) [])).
  rewrite star_class_cons. change (isSpace 32%N) with true. cbn iota.
  rewrite star_class_cons, Hc. cbn [rest mtext].
  rewrite (@firstn_front cu (js "prompt: ") (c :: t)). reflexivity.
Qed.

Lemma read_title (f : jsstring) :
  headerField f = true ->
  readLine {| hName := []; hCreatedAt := []; hPrompt := None |}
           (js "# " ++ f)
  = {| hName := f; hCreatedAt := []; hPrompt := None |}.
Proof.
  intros Hf. apply headerField_parts in Hf as (Ht & _).
  unfold readLine. cbn [hName List.length Nat.eqb andb].
  change (startsWith (js "# ") (js "# " ++ f)) with true. cbn iota.
  change (skipn 2 (js "# " ++ f)) with f. now rewrite Ht.
Qed.

Lemma read_created (T f : jsstring) :
  T <> [] ->
  headerField f = true ->
  readLine {| hName := T; hCreatedAt := []; hPrompt := None |}
           (js "created: " ++ f)
  = {| hName := T; hCreatedAt := f; hPrompt := None |}.
Proof.
  intros HT Hf. apply headerField_parts in Hf as (Ht & Hne & _).
  destruct (trimmed_ends Ht Hne) as [(c & t & -> & Hc) _].
  destruct T as [|x T]; [now destruct HT|].
  unfold readLine. cbn [hName hCreatedAt hPrompt List.length Nat.eqb andb].
  change (testAtStart reCreated (js "created: " ++ c :: t)) with true.
  cbn iota. now rewrite remove_created, Ht.
Qed.

Lemma read_prompt (T X f : jsstring) :
  T <> [] -> X <> [] ->
  headerField f = true ->
  readLine {| hName := T; hCreatedAt := X; hPrompt := None |}
           (js "prompt: " ++ f)
  = {| hName := T; hCreatedAt := X; hPrompt := Some f |}.
Proof.
  intros HT HX Hf. apply headerField_parts in Hf as (Ht & Hne & _).
  destruct (trimmed_ends Ht Hne) as [(c & t & -> & Hc) _].
  destruct T as [|x T]; [now destruct HT|].
  destruct X as [|y X]; [now destruct HX|].
  unfold readLine. cbn [hName hCreatedAt hPrompt List.length Nat.eqb andb].
  change (testAtStart rePrompt (js "prompt: " ++ c :: t)) with true.
  cbn iota zeta. now rewrite remove_prompt, Ht.
Qed.

(** Once the three fields are read, no line changes them. *)
Lemma read_done (T X P : jsstring) (lines : list jsstring) :
  T <> [] -> X <> [] -> P <> [] ->
  fold_left readLine lines
            {| hName := T; hCreatedAt := X; hPrompt := Some P |}
  = {| hName := T; hCreatedAt := X; hPrompt := Some P |}.
Proof.
  intros HT HX HP.
  destruct T as [|x T]; [now destruct HT|].
  destruct X as [|y X]; [now destruct HX|].
  destruct P as [|z P]; [now destruct HP|].
  induction lines as [|line lines IH]; [reflexivity|].
  cbn [fold_left]. exact IH.
Qed.

(** *** The block of the code *)

Lemma exec_song_miss (p : option cu) (s : jsstring) :
  hd_error s <> Some BQ -> execAt reSongBlock p s = None.
Proof.
  intros H. unfold execAt, reSongBlock.
  destruct s as [|c s]; [reflexivity|].
  assert (Hc : N.eqb BQ c = false).
  { apply N.eqb_neq. intros <-. now apply H. }
  cbn -[N.eqb]. change 96%N with BQ. now rewrite Hc.
Qed.

Lemma matchFrom_here (r : re) (p : option cu) (s : jsstring) (m : rmatch) :
  execAt r p s = Some m -> matchFrom r p s = Some m.
Proof. intros H. destruct s; cbn [matchFrom]; now rewrite H. Qed.

Lemma matchFrom_skip (pre s : jsstring) :
  without BQ pre = true -> s <> [] ->
  forall p, exists q,
    matchFrom reSongBlock p (pre ++ s) = matchFrom reSongBlock q s.
Proof.
  intros Hpre Hs. induction pre as [|c pre IH]; intros p.
  - now exists p.
  - cbn [app matchFrom]. rewrite exec_song_miss.
    + apply IH. now apply without_tail in Hpre.
    + change (c :: pre ++ s) with ((c :: pre) ++ s).
      apply without_hd; [exact Hpre | discriminate].
Qed.

(** A greedy star of a class before a text that does not begin in the
    class. *)
Lemma star_class_skip (C : cu -> bool) (k : mstate -> option mstate)
  (w x : jsstring) (caps : list (nat * jsstring)) (y : mstate) :
  forallb C w = true ->
  match x with d :: _ => C d = false | [] => True end ->
  (forall q, k (MState q x caps) = Some y) ->
  forall p,
    Regex.run (Star true (Cls C)) k (MState p (w ++ x) caps) = Some y.
Proof.
  intros Hw Hx Hk. induction w as [|c w IH]; intros p.
  - cbn [app]. destruct x as [|d x]; [apply Hk|].
    rewrite star_class_cons, Hx. apply Hk.
  - cbn [forallb] in Hw. apply andb_prop in Hw as [Hc Hw].
    cbn [app]. rewrite star_class_cons, Hc. now rewrite (IH Hw).
Qed.

Lemma run_song_opening (tail : re) (k : mstate -> option mstate)
  (p : option cu) (text : jsstring) (x : mstate) :
  Regex.run tail k (MState (Some 108%N) text []) = Some x ->
  Regex.run (Cat (str "```") (Cat (opt (strI "strudel")) tail)) k
            (MState p (js "```strudel" ++ text) [])
  = Some x.
Proof.
  intros Hx.
  change (match Regex.run tail k (MState (Some 108%N) text []) with
          | Some x0 => Some x0
          | None =>
              Regex.run tail k (MState (Some 96%N) (js "strudel" ++ text) [])
          end = Some x).
  now rewrite Hx.
Qed.

Lemma exec_song_block (p : option cu) (w inner post : jsstring) :
  forallb isSpace w = true ->
  without BQ inner = true ->
  match inner with d :: _ => isSpace d = false | [] => True end ->
  exists text,
    execAt reSongBlock p (js "```strudel" ++ w ++ inner ++ js "```" ++ post)
    = Some (RMatch text [(1%nat, inner)]).
Proof.
  intros Hw Hinner Hhead. unfold execAt.
  assert (Hrun : Regex.run reSongBlock (fun x => Some x)
                   (MState p (js "```strudel" ++ w ++ inner ++ js "```"
                              ++ post) [])
                 = Some (MState (Some BQ) post [(1%nat, inner)])).
  { apply (@run_song_opening
             (Cat (star space) (Cat (Group 1 (lazyStar anything)) (str "```")))).
    change (Regex.run (Star true (Cls isSpace))
              (Regex.run (Cat (Group 1 (lazyStar anything)) (str "```"))
                         (fun x => Some x))
              (MState (Some 108%N) (w ++ inner ++ js "```" ++ post) [])
            = Some (MState (Some BQ) post [(1%nat, inner)])).
    apply star_class_skip.
    - exact Hw.
    - destruct inner as [|d inner]; [reflexivity | exact Hhead].
    - intros q. now apply run_inner. }
  rewrite Hrun. eexists. reflexivity.
Qed.

(** The text of a song file: the three lines of the head, then the
    body. *)
Lemma content_shape (T X P code : jsstring) :
  P <> [] ->
  buildSongContent {| title := T; createdAt := X; prompt := Some P;
                      code := code |}
  = (js "# " ++ T) ++ LF :: (js "created: " ++ X) ++ LF
    :: (js "prompt: " ++ P) ++ LF :: bodyOf code.
Proof.
  intros HP. destruct P as [|c P]; [now destruct HP|]. reflexivity.
Qed.

Lemma head_and_body (a b c rest : jsstring) :
  a ++ LF :: b ++ LF :: c ++ LF :: LF :: rest
  = (a ++ LF :: b ++ LF :: c ++ [LF; LF]) ++ rest.
Proof.
  rewrite <- app_assoc. f_equal. cbn [app]. f_equal.
  rewrite <- app_assoc. f_equal. cbn [app]. f_equal.
  now rewrite <- app_assoc.
Qed.

Lemma body_block (code : jsstring) :
  without BQ (trim code) = true ->
  exists w inner post,
    bodyOf code = LF :: js "```strudel" ++ w ++ inner ++ js "```" ++ post
    /\ forallb isSpace w = true
    /\ without BQ inner = true
    /\ match inner with d :: _ => isSpace d = false | [] => True end
    /\ trim inner = trim code.
Proof.
  intros Hb. unfold bodyOf.
  destruct (trim code) as [|c t] eqn:E.
  - exists [LF; LF], [], [LF]. repeat split.
  - assert (Hc : isSpace c = false).
    { pose proof (trimStart_trimEnd code) as H. fold (trim code) in H.
      rewrite E in H. now apply trimStart_head in H. }
    exists [LF], ((c :: t) ++ [LF]), [LF]. repeat split.
    + now rewrite <- !app_assoc.
    + now rewrite without_app, Hb.
    + exact Hc.
    + rewrite trim_space_r by reflexivity. rewrite <- E. apply trim_trim.
Qed.

(** X26.  A song file reads back as it was written: when the title, the date
    and the prompt are trimmed, not empty, on one line and free of
    backticks, and the trimmed code is free of backticks, [parseSongContent]
    of [buildSongContent] gives the title, the date, the prompt and the
    trimmed code. *)
Theorem saved_song_reads_back (T X P code : jsstring)
  (HT : headerField T = true)
  (HX : headerField X = true)
  (HP : headerField P = true)
  (Hcode : without BQ (trim code) = true) :
  parseSongContent
    (buildSongContent {| title := T; createdAt := X; prompt := Some P;
                         code := code |})
  = {| name := T; createdAt' := X; prompt' := Some P;
       code' := trim code |}.
Proof.
  pose proof (@headerField_parts T HT) as (_ & HT0 & _ & HTb).
  pose proof (@headerField_parts X HX) as (_ & HX0 & _ & HXb).
  pose proof (@headerField_parts P HP) as (_ & HP0 & _ & HPb).
  rewrite content_shape by exact HP0.
  unfold parseSongContent. cbn zeta.
  (* the head *)
  assert (Hhead :
    fold_left readLine
      (firstn 8
         (split reNewline
            ((js "# " ++ T) ++ LF :: (js "created: " ++ X) ++ LF
             :: (js "prompt: " ++ P) ++ LF :: bodyOf code)))
      {| hName := []; hCreatedAt := []; hPrompt := None |}
    = {| hName := T; hCreatedAt := X; hPrompt := Some P |}).
  { unfold split.
    rewrite (@split_field (js "# ") T _ [] None eq_refl HT).
    rewrite (@split_field (js "created: ") X _ [] (Some LF) eq_refl HX).
    rewrite (@split_field (js "prompt: ") P _ [] (Some LF) eq_refl HP).
    cbn [app firstn fold_left].
    rewrite (@read_title T HT), (@read_created T X HT0 HX),
      (@read_prompt T X P HT0 HX0 HP).
    now apply read_done. }
  rewrite Hhead. cbn [hName hCreatedAt hPrompt].
  (* the code *)
  destruct (@body_block code Hcode)
    as (w & inner & post & Hbody & Hw & Hinner & Hd & Htrim).
  assert (Hmatch : exists text,
    matchFrom reSongBlock None
      ((js "# " ++ T) ++ LF :: (js "created: " ++ X) ++ LF
       :: (js "prompt: " ++ P) ++ LF :: bodyOf code)
    = Some (RMatch text [(1%nat, inner)])).
  { rewrite Hbody, head_and_body.
    destruct (@matchFrom_skip
                ((js "# " ++ T) ++ LF :: (js "created: " ++ X) ++ LF
                 :: (js "prompt: " ++ P) ++ [LF; LF])
                (js "```strudel" ++ w ++ inner ++ js "```" ++ post))
      with (p := @None cu) as [q ->].
    - repeat (rewrite without_app || rewrite without_cons).
      rewrite HTb, HXb, HPb. reflexivity.
    - discriminate.
    - destruct (@exec_song_block q w inner post Hw Hinner Hd) as [text Ht].
      exists text. now apply matchFrom_here. }
  destruct Hmatch as [text ->].
  cbn [group mcaps lookupCap Nat.eqb]. now rewrite Htrim.
Qed.

Lemma saved_song_witness :
  parseSongContent (buildSongContent stringsAndRocks)
  = {| name := title stringsAndRocks;
       createdAt' := createdAt stringsAndRocks;
       prompt' := prompt stringsAndRocks;
       code' := trim (code stringsAndRocks) |}.
Proof.
  exact (@saved_song_reads_back
           (js "strings-and-rocks") (js "2026-01-10T04:21:16.761Z")
           (js "Make the strings be a bit slower") (code stringsAndRocks)
           eq_refl eq_refl eq_refl eq_refl).
Defined.

(** The fields have to be free of backticks: a fenced text in the title
    is read back as the code. *)
Lemma fenced_title_is_read_as_the_code :
  code' (parseSongContent (buildSongContent fencedTitle)) = js "x".
Proof. vm_compute. reflexivity. Qed.

End SongFacts.

Module EndToEnd.

Import Route StatedFlow Texts Fences Escapes Ending FlowClaims
  NormalizerClaims FenceFacts RunFacts.

Lemma unescape_not_empty (isEsc : cu -> bool) (f : cu -> cu) (s : jsstring) :
  s <> [] -> unescape isEsc f s <> [].
Proof.
  destruct s as [|x [|y t]]; [congruence | discriminate |].
  intros _. rewrite unescape_two.
  destruct (N.eqb x BSL && isEsc y)%bool; discriminate.
Qed.

Lemma cleanCode_not_empty (s : jsstring) :
  s <> [] -> ParseOutput.cleanCode s <> [].
Proof.
  intros H. rewrite cleanCode_passes.
  now do 3 apply unescape_not_empty.
Qed.

Section Runs.

Variable buildUserPrompt : jsstring -> jsstring.
Variable provider : providerName.
Variable openaiClient : option (client openaiChunk).
Variable anthropicClient : option (client claudeEvent).
Variable systemPrompt userPrompt : jsstring.
Variable prompt : jsstring.
Variable mode : generationMode.
Variable currentCode : option jsstring.
Variable config : CreativeDirectives.ConfigValues.


End Runs.


End EndToEnd.
